(** * xMarket: daily-history and quote batch scripts

    A shallow embedding of the merge-by-date, coverage, candle
    normalisation and provider-fallback logic of [scripts/history.py] and
    [scripts/history_ohlc.py], and of the snapshot loop of
    [scripts/quotes.py], with the properties the design document states
    about them. *)

From Stdlib Require Import QArith.QArith_base Lqa.
From stdpp Require Import gmap strings list sorting fin_maps.

Close Scope Q_scope.

(** ** Python values

    The scripts read loosely typed JSON.  A float is a finite double, an
    infinity or a NaN; a finite double is carried as the rational it
    denotes (the code only compares floats, it never does arithmetic on
    them).  An [int], [bool] or [float] field is carried as the double
    [float()] makes of it. *)

Inductive pyfloat : Type :=
  | Fin (q : Q)
  | Inf (negative : bool)
  | NaN.

Inductive pyval : Type :=
  | PyNone                 (* None / JSON null *)
  | PyNum (x : pyfloat)    (* int, bool or float *)
  | PyStr (s : string)
  | PyObj.                 (* a dict: not a number, not a string, unordered *)

Global Instance pyfloat_inhabited : Inhabited pyfloat := populate NaN.
Global Instance pyval_inhabited : Inhabited pyval := populate PyNone.

(** [math.isfinite] *)
Definition isfinite (x : pyfloat) : bool :=
  match x with Fin _ => true | _ => false end.

(** Comparison of finite doubles. *)
Definition Qltb (x y : Q) : bool := negb (Qle_bool y x).

(** Python's [<] on floats: false as soon as a NaN is involved. *)
Definition float_lt (x y : pyfloat) : bool :=
  match x, y with
  | NaN, _ | _, NaN => false
  | Fin a, Fin b => Qltb a b
  | Inf n, Inf m => n && negb m
  | Inf n, Fin _ => n
  | Fin _, Inf m => negb m
  end.

(** Python's [>] on floats. *)
Definition float_gt (x y : pyfloat) : bool := float_lt y x.

(** Python's [<=] on floats. *)
Definition float_le (x y : pyfloat) : bool :=
  match x, y with
  | NaN, _ | _, NaN => false
  | _, _ => negb (float_lt y x)
  end.

(** ** Exceptions *)

Inductive pyexn : Type :=
  KeyError | IndexError | TypeError | ValueError | RuntimeError | HTTPError
  | SystemExit.

Inductive result (A : Type) : Type :=
  | Ok (a : A)
  | Raise (e : pyexn).
Global Arguments Ok {A} a.
Global Arguments Raise {A} e.

Global Instance result_ret : MRet result := λ A a, Ok a.
Global Instance result_bind : MBind result := λ A B k r,
  match r with Ok a => k a | Raise e => Raise e end.

(** [try: r except Exception: handler] *)
Definition try_except {A} (r : result A) (handler : A) : A :=
  match r with Ok a => a | Raise _ => handler end.

(** Python's [a < b] and [a <= b] on field values: strings compare with
    strings, numbers with numbers, anything else is a [TypeError]. *)
Definition py_lt (a b : pyval) : result bool :=
  match a, b with
  | PyStr s, PyStr t => Ok (String.ltb s t)
  | PyNum x, PyNum y => Ok (float_lt x y)
  | _, _ => Raise TypeError
  end.

Definition py_le (a b : pyval) : result bool :=
  match a, b with
  | PyStr s, PyStr t => Ok (String.leb s t)
  | PyNum x, PyNum y => Ok (float_le x y)
  | _, _ => Raise TypeError
  end.

(** ** Builtins of the Python runtime and of numpy

    The parts of the runtime the scripts call but do not define are taken
    as an interface. *)

Class Builtins : Type := {
  (** [float(s)] on a string; [None] stands for [ValueError]. *)
  float_of_str : string → option pyfloat;
  (** [str(v)] on a value that is not a string. *)
  py_str : pyval → string;
  (** [to_iso_utc(int(x))]; [None] when the conversion raises. *)
  to_iso_utc : pyfloat → option string;
  (** [datetime.now(timezone.utc).date()], as a day number. *)
  today : Z;
  (** [datetime.fromisoformat(s).date()]; [None] stands for [ValueError]. *)
  fromisoformat : string → option Z;
  (** [np.busday_count(begin, end)]. *)
  busday_count : Z → Z → Z;
  (** [d.isoformat()] of the date with a day number. *)
  isoformat : Z → string;
  (** [datetime.now(timezone.utc).strftime("%Y-%m-%dT%H:%M:%SZ")]. *)
  utcnow_iso : string;
}.

(** A small runtime for the examples: no string is a float literal; the
    calendar knows Monday 2024-06-03 and the two days after it, which are
    business days, and today is the Wednesday. *)
Definition sample_runtime : Builtins := {|
  float_of_str := λ _, None;
  py_str := λ _, "None";
  to_iso_utc := λ _, None;
  today := 2;
  fromisoformat := λ s,
    if String.eqb s "2024-06-03" then Some 0%Z
    else if String.eqb s "2024-06-04" then Some 1%Z
    else if String.eqb s "2024-06-05" then Some 2%Z
    else None;
  busday_count := λ a b, (b - a)%Z;
  isoformat := λ _, "2023-06-05";
  utcnow_iso := "2024-06-05T00:00:00Z";
|}.

(** [float(v)] *)
Definition py_float `{Builtins} (v : pyval) : result pyfloat :=
  match v with
  | PyNum x => Ok x
  | PyStr s =>
      match float_of_str s with Some x => Ok x | None => Raise ValueError end
  | PyNone | PyObj => Raise TypeError
  end.

(** ** Series

    A series is a list of JSON objects; an object is a finite map from
    keys to values. *)

Abbreviation item := (gmap string pyval).

(** [it.get(k)] *)
Definition get (it : item) (k : string) : pyval := default PyNone (it !! k).

(** [it[k]] *)
Definition getitem (it : item) (k : string) : result pyval :=
  match it !! k with Some v => Ok v | None => Raise KeyError end.

(** [sorted(m.keys())] on a dict keyed by strings. *)
Definition sorted_keys {V} (m : gmap string V) : list string :=
  merge_sort String.le (map_to_list m).*1.

(** [s.endswith(suffix)] *)
Definition endswith (s suffix : string) : bool :=
  String.prefix (String.rev suffix) (String.rev s).

(** ** [list.sort(key=lambda x: x["date"])]

    The keys are computed first (a missing key is a [KeyError]); the sort
    is stable and compares keys with [<], so that it raises [TypeError] as
    soon as two keys that do not compare meet.  It is written here as an
    insertion sort: on keys that [<] orders, strings in particular, every
    stable sort returns the same list. *)

Fixpoint insert_keyed (kx : pyval) (x : item) (l : list (pyval * item))
  : result (list (pyval * item)) :=
  match l with
  | [] => Ok [(kx, x)]
  | (ky, y) :: l' =>
      lt ← py_lt ky kx;
      if lt : bool then r ← insert_keyed kx x l'; Ok ((ky, y) :: r)
      else Ok ((kx, x) :: (ky, y) :: l')
  end.

Fixpoint sort_keyed (l : list (pyval * item)) : result (list (pyval * item)) :=
  match l with
  | [] => Ok []
  | (kx, x) :: l' => r ← sort_keyed l'; insert_keyed kx x r
  end.

Definition sort_by_date (data : list item) : result (list item) :=
  keyed ← mapM (λ x, k ← getitem x "date"; Ok (k, x)) data;
  sorted ← sort_keyed keyed;
  Ok (sorted.*2).

(** ** [coverage_ok], the same function in both history scripts

    The list is sorted in place: the caller's list after the call is the
    second component of the result. *)

Section coverage.
Context `{Builtins}.

Definition business_gap (last : pyval) : Z :=
  try_except
    (match last with
     | PyStr s =>
         match fromisoformat s with
         | Some last_d => Ok (busday_count last_d today)
         | None => Raise ValueError
         end
     | _ => Raise TypeError
     end) 999%Z.

Definition coverage_ok (data : list item) (min_from_date : string)
  : result (bool * list item) :=
  match data with
  | [] => Ok (false, data)
  | _ =>
      data ← sort_by_date data;
      match head data, last data with
      | Some x0, Some xn =>
          first ← getitem x0 "date";
          last ← getitem xn "date";
          let business_gap := business_gap last in
          if negb (200 <=? length data) then Ok (false, data) else
          le ← py_le first (PyStr min_from_date);
          if negb le then Ok (false, data) else
          Ok ((business_gap <=? 1)%Z, data)
      | _, _ => Raise IndexError
      end
  end.

End coverage.

(** ** HTTP responses of the Yahoo proxy *)

Inductive json_elem : Type :=
  | JDict (it : item)
  | JOther.

Inductive json_body : Type :=
  | NotJson
  | JsonList (elems : list json_elem)
  | JsonNotList.

Record response : Type := { status_code : Z; body : json_body }.

(** [r.raise_for_status()] *)
Definition raise_for_status (r : response) : result unit :=
  if ((400 <=? status_code r) && (status_code r <? 600))%Z
  then Raise HTTPError else Ok ().

(** [r.json()] followed by the [isinstance(data, list)] test. *)
Definition json_list (r : response) : result (list json_elem) :=
  match body r with
  | JsonList elems => Ok elems
  | NotJson | JsonNotList => Raise RuntimeError
  end.

(** ** The per-symbol body of [main], the same in both history scripts

    [fs] maps a symbol to the series its artifact holds; [answer p] is
    what provider [p] returns (or raises) for the symbol if it is called;
    the second component of the results lists the providers called, in
    order. *)

Inductive provider : Type :=
  Worker | Yahoo | Finnhub | Akshare | Alpha | Stooq.

Record config : Type := {
  use_worker : bool;   (* bool(os.environ.get("YAHOO_WORKER_URL")) *)
  token : bool;        (* FINNHUB_API_KEY or FINNHUB_TOKEN is set *)
  av_key : bool;       (* ALPHAVANTAGE_API_KEY or ALPHAVANTAGE_TOKEN is set *)
}.

(** [not fresh] *)
Definition is_nil {A} (l : list A) : bool :=
  match l with [] => true | _ => false end.

(** [market in {"CRYPTO", "FX", "COM", "IDX"}] *)
Definition no_equity (market : string) : bool :=
  bool_decide (market ∈ ["CRYPTO"; "FX"; "COM"; "IDX"]).

(** [try: fresh = fetch(...) except Exception: print(...)] *)
Definition attempt (p : provider) (answer : provider → result (list item))
  (st : list item * list provider) : list item * list provider :=
  (try_except (answer p) st.1, st.2 ++ [p]).

Definition fetch_fresh (cfg : config) (sym market : string)
  (answer : provider → result (list item)) : list item * list provider :=
  let st := ([], []) in
  let st := if use_worker cfg then attempt Worker answer st else st in
  let st := if is_nil st.1 then attempt Yahoo answer st else st in
  let st :=
    if is_nil st.1 && token cfg && negb (no_equity market)
       && negb (endswith sym ".SS")
    then attempt Finnhub answer st else st in
  let st :=
    if is_nil st.1 && (bool_decide (market = "CN") || endswith sym ".SS")
    then attempt Akshare answer st else st in
  let st :=
    if is_nil st.1 && av_key cfg && negb (no_equity market)
    then attempt Alpha answer st else st in
  let st :=
    if is_nil st.1 && negb (no_equity market)
    then attempt Stooq answer st else st in
  st.

(** [load_existing]: an absent artifact reads as the empty series. *)
Definition load_existing (fs : gmap string (list item)) (sym : string)
  : list item := default [] (fs !! sym).

Section orchestrator.
Context `{Builtins}.
Variable merge_history : list item → list item → list item.

Definition main_symbol_with (cfg : config)
  (answer : provider → result (list item))
  (fs : gmap string (list item)) (sym market : string)
  : gmap string (list item) * list provider :=
  let existing := load_existing fs sym in
  let cutoff := isoformat (today - 365) in
  match coverage_ok existing cutoff with
  | Raise _ => (fs, [])                 (* except Exception: print(...) *)
  | Ok (true, _) => (fs, [])            (* continue *)
  | Ok (false, existing) =>
      let '(fresh, tried) := fetch_fresh cfg sym market answer in
      if is_nil fresh && is_nil existing then (fs, tried)
      else (<[sym := merge_history existing fresh]> fs, tried)
  end.

(** The loop of [main] over the tickers, stopped after [max_count]. *)
Definition main_with (cfg : config) (max_count : option nat)
  (tickers : list (string * string))
  (answer : string → provider → result (list item))
  (fs : gmap string (list item)) : gmap string (list item) :=
  foldl (λ fs t, (main_symbol_with cfg (answer t.1) fs t.1 t.2).1) fs
    (match max_count with Some n => take n tickers | None => tickers end).

End orchestrator.

(** ** The close-only pipeline: [scripts/history.py] *)

Module History.

(** The record [{"date": d, "close": c}]. *)
Definition point (d : string) (c : pyfloat) : item :=
  {[ "date" := PyStr d; "close" := PyNum c ]}.

(** One point of the proxy's payload. *)
Definition worker_point (e : json_elem) : option item :=
  match e with
  | JDict p =>
      match get p "date", get p "close" with
      | PyStr date, PyNum close => Some (point date close)
      | _, _ => None
      end
  | JOther => None
  end.

(** [fetch_daily_worker]: [base_url] tells whether [YAHOO_WORKER_URL] is
    set, [r] is the proxy's answer to the request. *)
Definition fetch_daily_worker (base_url : bool) (r : response)
  : result (list item) :=
  if negb base_url then Ok [] else
  if (status_code r =? 404)%Z then Ok [] else
  _ ← raise_for_status r;
  data ← json_list r;
  let out := omap worker_point data in
  out ← sort_by_date out;
  match out with
  | [] => Raise RuntimeError
  | _ => Ok out
  end.

(** One iteration of the loop body of [merge_history]. *)
Definition merge_step (m : gmap string pyfloat) (it : item)
  : gmap string pyfloat :=
  let d := get it "date" in
  let c := get it "close" in
  match d, c with
  | PyStr d, PyNum c => <[d := c]> m
  | _, _ => m
  end.

Definition merge_history (old new : list item) : list item :=
  let m := foldl merge_step (foldl merge_step ∅ old) new in
  (λ d, point d (m !!! d)) <$> sorted_keys m.

Definition main_symbol `{Builtins} := main_symbol_with merge_history.
Definition main `{Builtins} := main_with merge_history.

(** What a record contributes to the dict of [merge_history]. *)
Definition point_of (it : item) : option (string * pyfloat) :=
  match get it "date", get it "close" with
  | PyStr d, PyNum c => Some (d, c)
  | _, _ => None
  end.

End History.

(** ** The OHLC pipeline: [scripts/history_ohlc.py] *)

(** [max(a, b)] and [min(a, b)] on floats: the first argument is kept
    unless a later one is strictly greater (smaller). *)
Definition py_max (a b : pyfloat) : pyfloat := if float_gt b a then b else a.
Definition py_min (a b : pyfloat) : pyfloat := if float_lt b a then b else a.
Definition py_max3 (a b c : pyfloat) : pyfloat := py_max (py_max a b) c.
Definition py_min3 (a b c : pyfloat) : pyfloat := py_min (py_min a b) c.

(** The dict [build_candle] returns. *)
Record candle : Type := Candle {
  c_date : string;
  c_open : pyfloat;
  c_high : pyfloat;
  c_low : pyfloat;
  c_close : pyfloat;
}.

Global Instance candle_inhabited : Inhabited candle :=
  populate (Candle "" NaN NaN NaN NaN).

Definition candle_item (c : candle) : item :=
  {[ "date" := PyStr (c_date c); "open" := PyNum (c_open c);
     "high" := PyNum (c_high c); "low" := PyNum (c_low c);
     "close" := PyNum (c_close c) ]}.

Module Ohlc.
Section ohlc.
Context `{Builtins}.

Definition safe_float (value : pyval) : option pyfloat :=
  match py_float value with
  | Raise _ => None                (* except (TypeError, ValueError) *)
  | Ok f => if negb (isfinite f) then None else Some f
  end.

(** The open, high and low of a candle once the missing fields are filled
    in and the bounds forced, before the final test [low_f > high_f]. *)
Definition forced (close_f : pyfloat) (open_f high_f low_f : option pyfloat)
  : pyfloat * pyfloat * pyfloat :=
  let open_f := match open_f with None => close_f | Some f => f end in
  let high_f := match high_f with None => py_max open_f close_f | Some f => f end in
  let low_f := match low_f with None => py_min open_f close_f | Some f => f end in
  let high_f := py_max3 high_f open_f close_f in
  let low_f := py_min3 low_f open_f close_f in
  (open_f, high_f, low_f).

Definition build_candle (date open_val high_val low_val close_val : pyval)
  : option candle :=
  match date with
  | PyStr date =>
      match safe_float close_val with
      | None => None
      | Some close_f =>
          let open_f := safe_float open_val in
          let high_f := safe_float high_val in
          let low_f := safe_float low_val in
          let '(open_f, high_f, low_f) := forced close_f open_f high_f low_f in
          let '(low_f, high_f) :=
            if float_gt low_f high_f then (high_f, low_f) else (low_f, high_f) in
          Some (Candle date open_f high_f low_f close_f)
      end
  | _ => None
  end.

(** [point.get(k, point.get(k'))] *)
Definition get_or (p : item) (k k' : string) : pyval :=
  match p !! k with Some v => v | None => get p k' end.

(** [str(v)] *)
Definition str_of (v : pyval) : string :=
  match v with PyStr s => s | _ => py_str v end.

(** One point of the proxy's payload.  The length of a date is counted in
    bytes, which is its length in characters for an ASCII date. *)
Definition worker_point (e : json_elem) : option item :=
  match e with
  | JDict p =>
      let date := get p "date" in
      let date_str :=
        match date with
        | PyStr s => if 4 <=? String.length s then Some (String.substring 0 10 s) else None
        | PyNum x => to_iso_utc x
        | _ => None
        end in
      let d :=
        match date_str with
        | Some (String a s) => String a s
        | Some EmptyString | None => str_of date
        end in
      candle_item <$>
        build_candle (PyStr d) (get_or p "open" "o") (get_or p "high" "h")
          (get_or p "low" "l") (get_or p "close" "c")
  | JOther => None
  end.

Definition fetch_daily_worker (base_url : bool) (r : response)
  : result (list item) :=
  if negb base_url then Ok [] else
  if (status_code r =? 404)%Z then Ok [] else
  _ ← raise_for_status r;
  data ← json_list r;
  let out := omap worker_point data in
  out ← sort_by_date out;
  match out with
  | [] => Raise RuntimeError
  | _ => Ok out
  end.

(** [normalize] of [merge_history]; the elements of a series are dicts. *)
Definition normalize (it : item) : option candle :=
  let date := get it "date" in
  build_candle date (get it "open") (get it "high") (get it "low") (get it "close").

Definition merge_step (merged : gmap string candle) (it : item)
  : gmap string candle :=
  match normalize it with
  | Some candle => <[c_date candle := candle]> merged
  | None => merged
  end.

Definition merge_history (old new : list item) : list item :=
  let merged := foldl merge_step (foldl merge_step ∅ old) new in
  (λ d, candle_item (merged !!! d)) <$> sorted_keys merged.

Definition main_symbol := main_symbol_with merge_history.
Definition main := main_with merge_history.

(** What a record contributes to the dict of [merge_history]. *)
Definition candle_of (it : item) : option (string * candle) :=
  (λ c, (c_date c, c)) <$> normalize it.

End ohlc.
End Ohlc.

(** ** The quote snapshot: [scripts/quotes.py] *)

Module Quotes.

Record tickers : Type := {
  us_list : list string;
  cn_list : list string;
  eu_list : list string;
  jp_list : list string;
  sa_list : list string;
  crypto_list : list string;
  fx_list : list string;
  com_list : list string;
  idx_list : list string;
}.

(** What the clock-dependent [*_market_is_open()] calls answer. *)
Record clocks : Type := {
  us_open : bool;
  cn_open : bool;
  eu_open : bool;
  jp_open : bool;
  sa_open : bool;
  fx_open : bool;
  idx_open : bool;
}.

(** A quote [(px, ts, src)] whose [px] is not [None]. *)
Record quote : Type := { px : pyfloat; ts : string; src : string }.

(** What the providers answer for a symbol; [None] is [(None, None, None)].
    [akshare_last] stands for the two Akshare attempts of the CN branch. *)
Record feeds : Type := {
  yahoo_last : string → option quote;
  finnhub_last : string → option quote;
  akshare_last : string → option quote;
}.

(** The dict [{"last": last, "as_of": as_of, "interval": interval}]. *)
Definition entry (last : pyfloat) (as_of interval : pyval) : item :=
  {[ "last" := PyNum last; "as_of" := as_of; "interval" := interval ]}.

(** Python's [==] on the fields of an entry. *)
Definition float_eq (x y : pyfloat) : bool :=
  match x, y with
  | Fin a, Fin b => Qeq_bool a b
  | Inf n, Inf m => bool_decide (n = m)
  | _, _ => false
  end.

Definition py_eq (a b : pyval) : bool :=
  match a, b with
  | PyNone, PyNone => true
  | PyNum x, PyNum y => float_eq x y
  | PyStr s, PyStr t => String.eqb s t
  | _, _ => false
  end.

(** [prev.get(s) != new_entry], for a freshly built [new_entry]. *)
Definition differs (old : option item) (new_entry : item) : bool :=
  match old with
  | None => true
  | Some old =>
      negb (bool_decide (dom old = dom new_entry)
            && forallb (λ k, py_eq (get old k) (get new_entry k))
                 ["last"; "as_of"; "interval"])
  end.

(** A loop over a list with a body that may raise. *)
Fixpoint for_each {A S} (body : A → S → result S) (l : list A) (st : S)
  : result S :=
  match l with
  | [] => Ok st
  | x :: l' => st' ← body x st; for_each body l' st'
  end.

(** What [main] did to the files. *)
Inductive run : Type :=
  | Preserved                          (* returned without writing *)
  | Wrote (out : gmap string item).    (* wrote [out] to both files *)

Section quotes.
Context `{Builtins}.

(** The tail of the loop body, from [if px is None] on. *)
Definition settle (prev : gmap string item) (s : string) (q : option quote)
  (st : gmap string item * bool) : result (gmap string item * bool) :=
  let '(out, changed) := st in
  match q with
  | None =>
      let old := default ∅ (prev !! s) in
      match get old "last" with
      | PyNone => Ok (out, changed)
      | last =>
          last ← py_float last;
          let new_entry := entry last (get old "as_of") (get old "interval") in
          Ok (<[s := new_entry]> out, changed)
      end
  | Some q =>
      let new_entry := entry (px q) (PyStr (ts q)) (PyStr (src q)) in
      let changed := if differs (prev !! s) new_entry then true else changed in
      Ok (<[s := new_entry]> out, changed)
  end.

(** The loop body. *)
Definition step (api_key : bool) (t : tickers) (f : feeds)
  (prev : gmap string item) (s : string) (st : gmap string item * bool)
  : result (gmap string item * bool) :=
  if bool_decide (s ∈ cn_list t) then settle prev s (akshare_last f s) st
  else if bool_decide (s ∈ eu_list t) || bool_decide (s ∈ jp_list t)
          || bool_decide (s ∈ sa_list t)
  then settle prev s (yahoo_last f s) st
  else if bool_decide (s ∈ crypto_list t) then settle prev s (yahoo_last f s) st
  else if bool_decide (s ∈ fx_list t) then settle prev s (yahoo_last f s) st
  else if bool_decide (s ∈ com_list t) then settle prev s (yahoo_last f s) st
  else if bool_decide (s ∈ idx_list t) then settle prev s (yahoo_last f s) st
  else if negb (bool_decide (s ∈ us_list t))
  then settle prev s (yahoo_last f s) st
  else if negb api_key then Ok st
  else settle prev s (finnhub_last f s) st.

Definition meta : item :=
  {[ "generated_at" := PyStr utcnow_iso;
     "source" := PyStr "Finnhub(/quote) for US; Akshare for CN; Yahoo for EU/JP/SA/Crypto/FX/Commodities/Indices";
     "note" := PyStr "Never writes nulls; preserves previous values if unavailable." ]}.

(** [main]: [had_prev] and [public_exists] tell whether the two output
    files exist, [prev] is what [load_previous] reads. *)
Definition main (api_key had_prev public_exists : bool)
  (prev : gmap string item) (t : tickers) (c : clocks) (f : feeds)
  : result run :=
  let open_crypto := negb (is_nil (crypto_list t)) && true in
  let open_fx := negb (is_nil (fx_list t)) && fx_open c in
  let open_com := negb (is_nil (com_list t)) && true in
  let open_idx := negb (is_nil (idx_list t)) && idx_open c in
  let symbols :=
    (if us_open c then us_list t else [])
    ++ (if cn_open c then cn_list t else [])
    ++ (if eu_open c then eu_list t else [])
    ++ (if jp_open c then jp_list t else [])
    ++ (if sa_open c then sa_list t else [])
    ++ (if open_crypto then crypto_list t else [])
    ++ (if open_fx then fx_list t else [])
    ++ (if open_com then com_list t else [])
    ++ (if open_idx then idx_list t else []) in
  if is_nil symbols then
    if had_prev || public_exists then Ok Preserved else Raise SystemExit
  else
    st ← for_each (step api_key t f prev) symbols (∅, false);
    let '(out, changed) := st in
    if negb changed then
      if had_prev then Ok Preserved else Raise SystemExit
    else Ok (Wrote (<["meta" := meta]> out)).

(** The mapping the output file holds after a run that started from
    [file]. *)
Definition persisted (file : gmap string item) (r : result run)
  : gmap string item :=
  match r with
  | Ok (Wrote out) => out
  | _ => file
  end.

End quotes.
End Quotes.

(** ** The reference function [sort_dedup] of the design document

    The series sorted by date, then deduplicated by date: of the records
    of one date, the last one is kept. *)

Definition same_date (a b : item) : bool :=
  match get a "date", get b "date" with
  | PyStr s, PyStr t => String.eqb s t
  | _, _ => false
  end.

Fixpoint dedup_by_date (l : list item) : list item :=
  match l with
  | [] => []
  | x :: l' =>
      match l' with
      | y :: _ => if same_date x y then dedup_by_date l' else x :: dedup_by_date l'
      | [] => [x]
      end
  end.

Definition sort_dedup (S : list item) : result (list item) :=
  sorted ← sort_by_date S;
  Ok (dedup_by_date sorted).

(** ** Auxiliary definitions for the proofs *)

(** Strictly ascending lists of strings. *)
Definition strictly_ascending (l : list string) : Prop :=
  StronglySorted (λ s t, String.ltb s t = true) l.

(** Both pipelines fill a dict keyed by date from the records of [old] and
    then of [new], and read it back in the order of its sorted keys.  They
    differ in what a record contributes ([entry]) and in the record that
    is emitted for a key ([render]). *)

Section merge_by_date.
Context {V : Type} `{!Inhabited V}.
Variable entry : item → option (string * V).
Variable render : string → V → item.

Definition collect_step (m : gmap string V) (it : item) : gmap string V :=
  match entry it with
  | Some (d, v) => <[d := v]> m
  | None => m
  end.

(** The dict once [old] and then [new] have been read. *)
Definition merged_dict (old new : list item) : gmap string V :=
  foldl collect_step (foldl collect_step ∅ old) new.

Definition merge_by (old new : list item) : list item :=
  let m := merged_dict old new in
  (λ d, render d (m !!! d)) <$> sorted_keys m.

(** What the last record of [arr] accepted under date [d] contributes. *)
Fixpoint last_entry (arr : list item) (d : string) : option V :=
  match arr with
  | [] => None
  | it :: arr' =>
      match last_entry arr' d with
      | Some v => Some v
      | None =>
          match entry it with
          | Some (d', v) => if decide (d' = d) then Some v else None
          | None => None
          end
      end
  end.

(** The records of a series that are accepted, as they are emitted. *)
Definition kept_by (S : list item) : list item :=
  omap (λ it, (λ p, render p.1 p.2) <$> entry it) S.

(** A record that is emitted as it is. *)
Definition canonical (r : item) : Prop :=
  ∃ d v, entry r = Some (d, v) ∧ render d v = r.

(** The series read back from a dict. *)
Definition render_dict (m : gmap string V) : list item :=
  (λ d, render d (m !!! d)) <$> sorted_keys m.

End merge_by_date.

(** The records of a series [merge_history] keeps, as it writes them: in
    the close-only pipeline the records with a string date and a numeric
    close, in the OHLC pipeline the normalized candles. *)
Definition history_kept (S : list item) : list item :=
  kept_by History.point_of History.point S.

Definition ohlc_kept `{Builtins} (S : list item) : list item :=
  kept_by Ohlc.candle_of (λ _ k, candle_item k) S.

(** The key of an element of a decorated list is the date of its item. *)
Definition keyed (p : pyval * item) : Prop := p.2 !! "date" = Some p.1.

(** In a decorated list, [a] may stand before [b]: [b < a] is false. *)
Definition key_le (a b : pyval * item) : Prop := py_lt b.1 a.1 = Ok false.

(** Elements whose key is a string, records whose date is a string. *)
Definition str_keyed (p : pyval * item) : Prop := ∃ s, p.1 = PyStr s.
Definition str_dated (it : item) : Prop := ∃ s, it !! "date" = Some (PyStr s).

(** In a series, [a] may stand before [b]: both have a date and the date
    of [b] is not before the date of [a]. *)
Definition in_date_order (a b : item) : Prop :=
  ∃ ka kb, a !! "date" = Some ka ∧ b !! "date" = Some kb ∧
           py_lt kb ka = Ok false.

(** [s] is the earliest (latest) date of a series whose dates are
    strings. *)
Definition earliest (data : list item) (s : string) : Prop :=
  (∃ it, it ∈ data ∧ it !! "date" = Some (PyStr s)) ∧
  ∀ it, it ∈ data → ∃ t, it !! "date" = Some (PyStr t) ∧ String.le s t.

Definition latest (data : list item) (s : string) : Prop :=
  (∃ it, it ∈ data ∧ it !! "date" = Some (PyStr s)) ∧
  ∀ it, it ∈ data → ∃ t, it !! "date" = Some (PyStr t) ∧ String.le t s.

(** Both records have a string date, and the dates are in order. *)
Definition str_le (a b : item) : Prop :=
  ∃ s t, a !! "date" = Some (PyStr s) ∧ b !! "date" = Some (PyStr t) ∧
         String.le s t.

(** An adapter that yields no data: an empty series or an exception. *)
Definition absent (r : result (list item)) : Prop :=
  r = Ok [] ∨ ∃ e, r = Raise e.

(** Both records have a string date, the first strictly before the
    second. *)
Definition str_lt (a b : item) : Prop :=
  ∃ s t, a !! "date" = Some (PyStr s) ∧ b !! "date" = Some (PyStr t) ∧
         String.ltb s t = true.

(** ** Selecting a batch of tickers: [main] of [scripts/history_ohlc.py] *)

(** [l[start:stop]], with Python's reading of negative and out-of-range
    bounds. *)
Definition py_slice {A} (l : list A) (start stop : Z) : list A :=
  let n := Z.of_nat (length l) in
  let clamp i := if (i <? 0)%Z then Z.max (i + n) 0 else Z.min i n in
  let a := clamp start in
  let b := clamp stop in
  take (Z.to_nat (b - a)) (drop (Z.to_nat a) l).

(** The tickers left once [--batch-index] and [--batch-size] are applied;
    [batch_index] is [None] when the option is not given. *)
Definition select_batch (batch_index : option Z) (batch_size : Z)
  (tickers : list (string * string)) : list (string * string) :=
  match batch_index with
  | None => tickers
  | Some batch_index =>
      let batch_size := if (0 <? batch_size)%Z then batch_size else 80%Z in
      let original_total := Z.of_nat (length tickers) in
      let start := (batch_index * batch_size)%Z in
      let end_ := (start + batch_size)%Z in
      if (original_total <=? start)%Z then [] else py_slice tickers start end_
  end.

(** The batch size [main] works with. *)
Definition batch_width (batch_size : Z) : nat :=
  Z.to_nat (if (0 <? batch_size)%Z then batch_size else 80%Z).

(** ** Further builtins: text and timestamps *)

Class TextBuiltins : Type := {
  (** [int(s)] on a string, as a float; [None] stands for [ValueError]. *)
  int_of_str : string → option pyfloat;
  (** [datetime.fromtimestamp(int(x), tz=timezone.utc)
        .strftime("%Y-%m-%dT%H:%M:%SZ")]; [None] when it raises. *)
  to_iso_seconds : pyfloat → option string;
  (** [s.upper()] *)
  upper : string → string;
}.

(** [s.upper()] on the letters of ASCII. *)
Definition upper_ascii (a : Ascii.ascii) : Ascii.ascii :=
  let n := Ascii.nat_of_ascii a in
  if (97 <=? n) && (n <=? 122) then Ascii.ascii_of_nat (n - 32) else a.

Fixpoint upper_string (s : string) : string :=
  match s with
  | EmptyString => EmptyString
  | String a s => String (upper_ascii a) (upper_string s)
  end.

(** A small text runtime for the examples: it reads the integer literals
    of the first two midnights of the epoch and converts these two
    timestamps. *)
Definition sample_text : TextBuiltins := {|
  int_of_str := λ s,
    if String.eqb s "0" then Some (Fin 0)
    else if String.eqb s "86400" then Some (Fin 86400)
    else None;
  to_iso_seconds := λ x,
    match x with
    | Fin q =>
        if Qeq_bool q 0 then Some "1970-01-01T00:00:00Z"
        else if Qeq_bool q 86400 then Some "1970-01-02T00:00:00Z"
        else None
    | _ => None
    end;
  upper := upper_string;
|}.

(** The truth value of a field; [PyObj] stands for a dict that is not
    empty. *)
Definition truthy (v : pyval) : bool :=
  match v with
  | PyNone => false
  | PyNum (Fin q) => negb (Qeq_bool q 0)
  | PyNum _ => true
  | PyStr s => negb (String.eqb s "")
  | PyObj => true
  end.

(** [a or b] *)
Definition py_or (a b : pyval) : pyval := if truthy a then a else b.

(** [r.raise_for_status()] on a status code. *)
Definition check_status (code : Z) : result unit :=
  if ((400 <=? code) && (code <? 600))%Z then Raise HTTPError else Ok ().

(** [arr[idx] if idx < len(arr) else None] *)
Definition pick (arr : list pyval) (idx : nat) : pyval :=
  default PyNone (arr !! idx).

Section providers.
Context `{Builtins} `{TextBuiltins}.

(** [to_iso_utc(ts)] on a field: [int(ts)] is a [TypeError] on [None] and
    on a dict; any other failure of the conversion is written
    [ValueError]. *)
Definition to_iso_utc_val (ts : pyval) : result string :=
  match ts with
  | PyNum x =>
      match to_iso_utc x with Some d => Ok d | None => Raise ValueError end
  | PyStr s =>
      match int_of_str s ≫= to_iso_utc with
      | Some d => Ok d
      | None => Raise ValueError
      end
  | PyNone | PyObj => Raise TypeError
  end.

(** The same for the timestamp of a quote, with seconds. *)
Definition to_iso_seconds_val (ts : pyval) : result string :=
  match ts with
  | PyNum x =>
      match to_iso_seconds x with Some d => Ok d | None => Raise ValueError end
  | PyStr s =>
      match int_of_str s ≫= to_iso_seconds with
      | Some d => Ok d
      | None => Raise ValueError
      end
  | PyNone | PyObj => Raise TypeError
  end.

(** [map_symbol_for_market] of [scripts/history_ohlc.py] *)
Definition map_symbol_for_market (symbol market : string) : string :=
  if bool_decide (upper market ∈ ["FX"; "FOREX"])
     && negb (endswith symbol "=X")
  then symbol +:+ "=X" else symbol.

(** The rows that are not older than [years] years: the tail shared by
    [fetch_daily_alpha], [fetch_daily_stooq] and [fetch_daily_alltick]. *)
Fixpoint since (cutoff : string) (rows : list item) : result (list item) :=
  match rows with
  | [] => Ok []
  | x :: rows' =>
      d ← getitem x "date";
      keep ← py_le (PyStr cutoff) d;
      rest ← since cutoff rows';
      Ok (if keep : bool then x :: rest else rest)
  end.

Definition keep_recent (years : Z) (rows : list item) : result (list item) :=
  rows ← sort_by_date rows;
  if is_nil rows then Ok rows else
  let cutoff := isoformat (today - 365 * years) in
  since cutoff rows.

End providers.

(** The answer of Finnhub's candle endpoint: the field ["s"], and the
    arrays the endpoint gives under ["o"], ["h"], ["l"], ["c"] and ["t"],
    empty when the key is absent or null ([j.get(k) or []]). *)
Inductive finnhub_body : Type :=
  | FinnhubNotJson
  | FinnhubNotDict
  | FinnhubDict (s : pyval) (o h l c t : list pyval).

Record finnhub_response : Type := {
  fh_status : Z;
  fh_body : finnhub_body;
}.

(** [j.get("s") != "ok"] *)
Definition not_ok (s : pyval) : bool :=
  match s with PyStr s => negb (String.eqb s "ok") | _ => true end.

(** The answer of Alpha Vantage: the items of the dict under
    ["Time Series (Daily)"], [None] when there is no dict under that
    key. *)
Inductive alpha_body : Type :=
  | AlphaNotJson
  | AlphaDict (series : option (list (string * json_elem))).

Record alpha_response : Type := {
  al_status : Z;
  al_body : alpha_body;
}.

Module HistoryProviders.
Section history_providers.
Context `{Builtins} `{TextBuiltins}.

Definition fetch_daily_finnhub (r : finnhub_response) : result (list item) :=
  _ ← check_status (fh_status r);
  match fh_body r with
  | FinnhubNotJson => Raise ValueError
  | FinnhubNotDict => Raise RuntimeError
  | FinnhubDict s _ _ _ closes ts =>
      if not_ok s then Raise RuntimeError else
      if is_nil closes || is_nil ts || negb (length closes =? length ts)
      then Raise RuntimeError else
      out ← mapM (λ tc, d ← to_iso_utc_val tc.1;
                        c ← py_float tc.2;
                        Ok (History.point d c)) (zip ts closes);
      sort_by_date out
  end.

(** The points [fetch_daily_yahoo] makes of the timestamps and closes of
    a chart result; any exception gives the empty series. *)
Definition yahoo_points (ts closes : list pyval) : list item :=
  try_except
    (out ← mapM (λ tc,
                   match tc.2 with
                   | PyNone => Ok None
                   | c =>
                       d ← to_iso_utc_val tc.1;
                       c ← py_float c;
                       Ok (Some (History.point d c))
                   end) (zip ts closes);
     sort_by_date (omap id out))
    [].

(** The rows [fetch_daily_alpha] reads from the time series. *)
Definition alpha_rows (ts : list (string * json_elem)) : list item :=
  omap (λ dv,
          match dv.2 with
          | JDict v =>
              match py_float (py_or (get v "5. adjusted close")
                                (get v "4. close")) with
              | Ok close => Some (History.point dv.1 close)
              | Raise _ => None
              end
          | JOther => None
          end) ts.

Definition fetch_daily_alpha (r : alpha_response) (years : Z)
  : result (list item) :=
  _ ← check_status (al_status r);
  match al_body r with
  | AlphaNotJson => Raise ValueError
  | AlphaDict None => Raise RuntimeError
  | AlphaDict (Some ts) => keep_recent years (alpha_rows ts)
  end.

End history_providers.
End HistoryProviders.

Module OhlcProviders.
Section ohlc_providers.
Context `{Builtins} `{TextBuiltins}.

(** The loop over [enumerate(ts)] of [fetch_daily_finnhub] and
    [fetch_daily_yahoo]. *)
Definition candles (opens highs lows closes ts : list pyval)
  : result (list item) :=
  out ← mapM (λ it : nat * pyval,
                d ← to_iso_utc_val it.2;
                Ok (Ohlc.build_candle (PyStr d) (pick opens it.1)
                      (pick highs it.1) (pick lows it.1) (pick closes it.1)))
         (imap pair ts);
  sort_by_date (candle_item <$> omap id out).

Definition fetch_daily_finnhub (r : finnhub_response) : result (list item) :=
  _ ← check_status (fh_status r);
  match fh_body r with
  | FinnhubNotJson => Raise ValueError
  | FinnhubNotDict => Raise RuntimeError
  | FinnhubDict s opens highs lows closes ts =>
      if not_ok s then Raise RuntimeError else
      if is_nil closes || is_nil ts || negb (length closes =? length ts)
      then Raise RuntimeError else
      candles opens highs lows closes ts
  end.

Definition yahoo_candles (opens highs lows closes ts : list pyval)
  : list item :=
  try_except (candles opens highs lows closes ts) [].

Definition alpha_rows (ts : list (string * json_elem)) : list item :=
  omap (λ dv,
          match dv.2 with
          | JDict v =>
              candle_item <$>
                Ohlc.build_candle (PyStr dv.1) (get v "1. open")
                  (get v "2. high") (get v "3. low")
                  (py_or (get v "5. adjusted close") (get v "4. close"))
          | JOther => None
          end) ts.

Definition fetch_daily_alpha (r : alpha_response) (years : Z)
  : result (list item) :=
  _ ← check_status (al_status r);
  match al_body r with
  | AlphaNotJson => Raise ValueError
  | AlphaDict None => Raise RuntimeError
  | AlphaDict (Some ts) => keep_recent years (alpha_rows ts)
  end.

End ohlc_providers.
End OhlcProviders.

Module QuotesProviders.
Section quotes_providers.
Context `{Builtins} `{TextBuiltins}.

(** The loop of [yahoo_last] over the closes, from the last one down;
    [rclosed] is [closes] with its indices, reversed. *)
Fixpoint last_close (ts : list pyval) (rclosed : list (nat * pyval))
  : result (option Quotes.quote) :=
  match rclosed with
  | [] => Ok None
  | (i, c) :: rest =>
      match c with
      | PyNone => last_close ts rest
      | _ =>
          t ← match ts !! i with Some t => Ok t | None => Raise IndexError end;
          iso ← to_iso_seconds_val t;
          px ← py_float c;
          Ok (Some {| Quotes.px := px; Quotes.ts := iso;
                      Quotes.src := "yahoo_1d" |})
      end
  end.

Definition yahoo_last_quote (ts closes : list pyval)
  : result (option Quotes.quote) :=
  last_close ts (reverse (imap pair closes)).

End quotes_providers.
End QuotesProviders.
(** ** Auxiliary definitions for the further properties *)

(** The date of a row is not before the cutoff. *)
Definition recent (cutoff : string) (x : item) : bool :=
  match x !! "date" with
  | Some (PyStr d) => String.leb cutoff d
  | _ => false
  end.

(** What the cascade of providers holds after some of its steps: no data,
    every provider called so far having yielded none, or the data of the
    provider called last. *)
Definition cascade_inv (answer : provider → result (list item))
  (st : list item * list provider) : Prop :=
  (st.1 = [] ∧ Forall (λ p, absent (answer p)) st.2) ∨
  (st.1 ≠ [] ∧ ∃ before p,
     st.2 = before ++ [p] ∧ answer p = Ok st.1 ∧
     Forall (λ q, absent (answer q)) before).

(** The symbols [main] of the quote snapshot goes through: those of the
    markets that are open, in the order of the market lists. *)
Definition open_symbols (t : Quotes.tickers) (c : Quotes.clocks)
  : list string :=
  (if Quotes.us_open c then Quotes.us_list t else [])
  ++ (if Quotes.cn_open c then Quotes.cn_list t else [])
  ++ (if Quotes.eu_open c then Quotes.eu_list t else [])
  ++ (if Quotes.jp_open c then Quotes.jp_list t else [])
  ++ (if Quotes.sa_open c then Quotes.sa_list t else [])
  ++ Quotes.crypto_list t
  ++ (if Quotes.fx_open c then Quotes.fx_list t else [])
  ++ Quotes.com_list t
  ++ (if Quotes.idx_open c then Quotes.idx_list t else []).

(** What the loop body fetches for a symbol: [None] when the symbol is
    passed over for want of an API key, otherwise the answer of the
    provider of its market. *)
Definition fetched_quote (api_key : bool) (t : Quotes.tickers)
  (f : Quotes.feeds) (s : string) : option (option Quotes.quote) :=
  if bool_decide (s ∈ Quotes.cn_list t) then Some (Quotes.akshare_last f s)
  else if bool_decide (s ∈ Quotes.eu_list t)
          || bool_decide (s ∈ Quotes.jp_list t)
          || bool_decide (s ∈ Quotes.sa_list t)
          || bool_decide (s ∈ Quotes.crypto_list t)
          || bool_decide (s ∈ Quotes.fx_list t)
          || bool_decide (s ∈ Quotes.com_list t)
          || bool_decide (s ∈ Quotes.idx_list t)
          || negb (bool_decide (s ∈ Quotes.us_list t))
  then Some (Quotes.yahoo_last f s)
  else if negb api_key then None
  else Some (Quotes.finnhub_last f s).

(** The entry built from a fresh quote. *)
Definition fresh_entry (q : Quotes.quote) : item :=
  Quotes.entry (Quotes.px q) (PyStr (Quotes.ts q)) (PyStr (Quotes.src q)).

(** A fresh quote was fetched for the symbol and it is not the previous
    entry. *)
Definition quote_changed (api_key : bool) (t : Quotes.tickers)
  (f : Quotes.feeds) (prev : gmap string item) (s : string) : bool :=
  match fetched_quote api_key t f s with
  | Some (Some q) => Quotes.differs (prev !! s) (fresh_entry q)
  | _ => false
  end.

(** A runtime whose calendar also converts the first two days of the
    epoch. *)
Definition epoch_runtime : Builtins := {|
  float_of_str := λ _, None;
  py_str := λ _, "None";
  to_iso_utc := λ x,
    match x with
    | Fin q =>
        if Qeq_bool q 0 then Some "1970-01-01"
        else if Qeq_bool q 86400 then Some "1970-01-02"
        else None
    | _ => None
    end;
  today := 2;
  fromisoformat := λ _, None;
  busday_count := λ a b, (b - a)%Z;
  isoformat := λ _, "1970-01-02";
  utcnow_iso := "1970-01-03T00:00:00Z";
|}.

(** ** A small run of the quote snapshot, for the examples

    Two crypto symbols, every clock-dependent market closed: Yahoo has a
    new quote for the first and none for the second, which has a previous
    entry. *)
Definition crypto_tickers : Quotes.tickers :=
  {| Quotes.us_list := []; Quotes.cn_list := []; Quotes.eu_list := [];
     Quotes.jp_list := []; Quotes.sa_list := [];
     Quotes.crypto_list := ["BTC-USD"; "ETH-USD"];
     Quotes.fx_list := []; Quotes.com_list := []; Quotes.idx_list := [] |}.

Definition all_closed : Quotes.clocks :=
  {| Quotes.us_open := false; Quotes.cn_open := false;
     Quotes.eu_open := false; Quotes.jp_open := false;
     Quotes.sa_open := false; Quotes.fx_open := false;
     Quotes.idx_open := false |}.

Definition btc_quote : Quotes.quote :=
  {| Quotes.px := Fin 2; Quotes.ts := "2024-06-05T00:00:00Z";
     Quotes.src := "yahoo_1d" |}.

Definition crypto_feeds : Quotes.feeds :=
  {| Quotes.yahoo_last := λ s,
       if String.eqb s "BTC-USD" then Some btc_quote else None;
     Quotes.finnhub_last := λ _, None;
     Quotes.akshare_last := λ _, None |}.

Definition eth_entry : item :=
  Quotes.entry (Fin 7) (PyStr "2024-01-01T00:00:00Z") (PyStr "yahoo_1d").

Definition crypto_prev : gmap string item := {[ "ETH-USD" := eth_entry ]}.

Definition crypto_snapshot : gmap string item :=
  {[ "BTC-USD" := fresh_entry btc_quote; "ETH-USD" := eth_entry;
     "meta" := Quotes.meta (H := sample_runtime) ]}.

(** * Properties *)

(** ** The order on strings and [sorted_keys] *)

Lemma string_compare_refl (s : string) : String.compare s s = Eq.
Proof.
  induction s as [|a s IH]; simpl; [done|].
  unfold Ascii.compare. by rewrite N.compare_refl.
Qed.

Lemma string_ltb_irrefl (s : string) : String.ltb s s = false.
Proof. unfold String.ltb. by rewrite string_compare_refl. Qed.

Lemma string_ltb_leb (s t : string) : String.ltb s t = negb (String.leb t s).
Proof.
  unfold String.ltb, String.leb. rewrite (String.compare_antisym t s).
  by destruct (String.compare s t).
Qed.

Lemma string_ltb_le_ne (s t : string) :
  String.ltb s t = true ↔ String.le s t ∧ s ≠ t.
Proof.
  unfold String.le, String.ltb, String.leb. split.
  - destruct (String.compare s t) eqn:E; try done.
    intros _. split; [done|]. intros ->.
    by rewrite string_compare_refl in E.
  - intros [Hle Hne]. destruct (String.compare s t) eqn:E; try done.
    by apply String.compare_eq_iff in E.
Qed.

Lemma string_le_ltb (s t : string) : String.le s t ↔ String.ltb t s = false.
Proof.
  rewrite string_ltb_leb. unfold String.le.
  destruct (String.leb s t); naive_solver.
Qed.

Lemma string_eqb_eq (s t : string) : String.eqb s t = bool_decide (s = t).
Proof.
  destruct (String.eqb_spec s t) as [->|Hne].
  - by rewrite bool_decide_true.
  - by rewrite bool_decide_false.
Qed.

Lemma elem_of_sorted_keys {V} (m : gmap string V) d :
  d ∈ sorted_keys m ↔ is_Some (m !! d).
Proof.
  unfold sorted_keys. rewrite merge_sort_Permutation.
  rewrite list_elem_of_fmap. split.
  - intros [[d' v] [-> Hin]]. apply elem_of_map_to_list in Hin. by exists v.
  - intros [v Hv]. exists (d, v). split; [done|].
    by apply elem_of_map_to_list.
Qed.

Lemma NoDup_sorted_keys {V} (m : gmap string V) : NoDup (sorted_keys m).
Proof.
  unfold sorted_keys. rewrite merge_sort_Permutation.
  apply NoDup_fst_map_to_list.
Qed.

Lemma sorted_keys_sorted {V} (m : gmap string V) :
  StronglySorted String.le (sorted_keys m).
Proof. apply (StronglySorted_merge_sort String.le). Qed.

Lemma sorted_keys_ascending {V} (m : gmap string V) :
  strictly_ascending (sorted_keys m).
Proof.
  unfold strictly_ascending.
  pose proof (sorted_keys_sorted m) as Hs.
  pose proof (NoDup_sorted_keys m) as Hn.
  induction Hs as [|d l Hs IH Hall]; [constructor|].
  apply NoDup_cons in Hn as [Hd Hn]. constructor; [by apply IH|].
  apply Forall_forall. intros t Ht. apply string_ltb_le_ne. split.
  - by eapply Forall_forall in Hall.
  - intros ->. done.
Qed.

Lemma strictly_ascending_le (l : list string) :
  strictly_ascending l → StronglySorted String.le l.
Proof.
  intros Hl. induction Hl as [|d l Hl IH Hall]; constructor; [done|].
  eapply Forall_impl; [exact Hall|].
  intros t Hst. by apply string_ltb_le_ne in Hst as [? _].
Qed.

Lemma strictly_ascending_NoDup (l : list string) :
  strictly_ascending l → NoDup l.
Proof.
  intros Hl. induction Hl as [|d l Hl IH Hall]; constructor; [|done].
  intros Hin. eapply Forall_forall in Hall; [|exact Hin].
  by rewrite string_ltb_irrefl in Hall.
Qed.

(** Two strictly ascending lists with the same elements are equal. *)
Lemma strictly_ascending_unique (l1 l2 : list string) :
  strictly_ascending l1 → strictly_ascending l2 →
  (∀ d, d ∈ l1 ↔ d ∈ l2) → l1 = l2.
Proof.
  intros H1 H2 Hel.
  apply (StronglySorted_unique String.le);
    [by apply strictly_ascending_le..|].
  apply NoDup_Permutation; [by apply strictly_ascending_NoDup..|done].
Qed.

(** ** Merging by date *)

Section merge_by_date_facts.
Context {V : Type} `{!Inhabited V}.
Variable entry : item → option (string * V).
Variable render : string → V → item.

Lemma last_entry_app (l1 l2 : list item) (d : string) :
  last_entry entry (l1 ++ l2) d =
    match last_entry entry l2 d with
    | Some v => Some v
    | None => last_entry entry l1 d
    end.
Proof.
  induction l1 as [|it l1 IH]; simpl.
  - by destruct (last_entry entry l2 d).
  - rewrite IH. by destruct (last_entry entry l2 d).
Qed.

Lemma lookup_foldl_collect (m : gmap string V) (arr : list item) (d : string) :
  foldl (collect_step entry) m arr !! d =
    match last_entry entry arr d with
    | Some v => Some v
    | None => m !! d
    end.
Proof.
  revert m. induction arr as [|it arr IH]; intros m; simpl; [done|].
  rewrite IH. destruct (last_entry entry arr d) as [v|]; [done|].
  unfold collect_step. destruct (entry it) as [[d' v]|]; [|done].
  rewrite lookup_insert. by destruct (decide (d' = d)).
Qed.

Lemma lookup_merged_dict (old new : list item) (d : string) :
  merged_dict entry old new !! d =
    match last_entry entry new d with
    | Some v => Some v
    | None => last_entry entry old d
    end.
Proof.
  unfold merged_dict. rewrite !lookup_foldl_collect, lookup_empty.
  by destruct (last_entry entry new d), (last_entry entry old d).
Qed.

Lemma lookup_merged_dict_app (old new : list item) (d : string) :
  merged_dict entry old new !! d = last_entry entry (old ++ new) d.
Proof. by rewrite lookup_merged_dict, last_entry_app. Qed.

Lemma elem_of_merge_by (old new : list item) (r : item) :
  r ∈ merge_by entry render old new ↔
    ∃ d v, r = render d v ∧ merged_dict entry old new !! d = Some v.
Proof.
  unfold merge_by. rewrite list_elem_of_fmap. split.
  - intros (d & -> & Hd). apply elem_of_sorted_keys in Hd as [v Hv].
    exists d, v. split; [|done]. by rewrite (lookup_total_correct _ _ _ Hv).
  - intros (d & v & -> & Hv). exists d. split.
    + by rewrite (lookup_total_correct _ _ _ Hv).
    + apply elem_of_sorted_keys. by exists v.
Qed.

Lemma last_entry_Some_entry (arr : list item) (d : string) (v : V) :
  last_entry entry arr d = Some v → ∃ it, it ∈ arr ∧ entry it = Some (d, v).
Proof.
  induction arr as [|it arr IH]; simpl; [done|].
  destruct (last_entry entry arr d) as [w|] eqn:E.
  - intros [= ->]. destruct (IH eq_refl) as (it' & ? & ?).
    exists it'. split; [by apply list_elem_of_further|done].
  - destruct (entry it) as [[d' w]|] eqn:E'; [|done].
    destruct (decide (d' = d)) as [->|]; [|done].
    intros [= ->]. exists it. split; [apply list_elem_of_here|done].
Qed.

Lemma last_entry_None (arr : list item) (d : string) :
  last_entry entry arr d = None ↔ ∀ it v, it ∈ arr → entry it ≠ Some (d, v).
Proof.
  induction arr as [|it arr IH]; simpl.
  - split; [|done]. intros _ it v Hin. by apply elem_of_nil in Hin.
  - destruct (last_entry entry arr d) as [w|] eqn:E.
    + split; [done|]. intros Hall.
      apply last_entry_Some_entry in E as (it' & Hin & Hit).
      exfalso. eapply Hall; [|exact Hit]. by apply list_elem_of_further.
    + destruct IH as [IH _]. specialize (IH eq_refl).
      destruct (entry it) as [[d' w]|] eqn:E'.
      * destruct (decide (d' = d)) as [->|Hne].
        -- split; [done|]. intros Hall. exfalso.
           eapply Hall; [apply list_elem_of_here|exact E'].
        -- split; [|done]. intros _ it' v [->|Hin]%elem_of_cons.
           ++ rewrite E'. congruence.
           ++ by apply IH.
      * split; [|done]. intros _ it' v [->|Hin]%elem_of_cons.
        -- by rewrite E'.
        -- by apply IH.
Qed.

(** Records the pipeline emits are accepted back unchanged. *)
Hypothesis entry_render :
  ∀ it d v, entry it = Some (d, v) → entry (render d v) = Some (d, v).

Lemma merged_dict_entry (old new : list item) (d : string) (v : V) :
  merged_dict entry old new !! d = Some v → entry (render d v) = Some (d, v).
Proof.
  rewrite lookup_merged_dict_app. intros Hv.
  apply last_entry_Some_entry in Hv as (it & _ & Hit).
  by eapply entry_render.
Qed.

(** Reading back the rendering of a dict over distinct keys. *)
Lemma last_entry_render (m : gmap string V) (ks : list string) (d : string) :
  NoDup ks →
  (∀ k, k ∈ ks → is_Some (m !! k)) →
  (∀ k v, m !! k = Some v → entry (render k v) = Some (k, v)) →
  last_entry entry ((λ k, render k (m !!! k)) <$> ks) d =
    if decide (d ∈ ks) then m !! d else None.
Proof.
  intros Hnd Hks Hm. induction Hnd as [|k ks Hk Hnd IH].
  - rewrite decide_False; [done|]. apply not_elem_of_nil.
  - rewrite fmap_cons. cbn [last_entry].
    rewrite IH by (intros; by apply Hks, list_elem_of_further).
    destruct (Hks k) as [v Hv]; [apply list_elem_of_here|].
    rewrite (lookup_total_correct _ _ _ Hv), (Hm _ _ Hv).
    destruct (decide (d ∈ ks)) as [Hin|Hnin].
    + destruct (Hks d) as [w Hw]; [by apply list_elem_of_further|].
      rewrite Hw. rewrite decide_True; [done|by apply list_elem_of_further].
    + destruct (decide (k = d)) as [->|Hne].
      * by rewrite decide_True by apply list_elem_of_here.
      * rewrite decide_False; [done|].
        rewrite elem_of_cons. by intros [?|?].
Qed.

Lemma last_entry_merge_by (old new : list item) (d : string) :
  last_entry entry (merge_by entry render old new) d =
    merged_dict entry old new !! d.
Proof.
  unfold merge_by. rewrite last_entry_render.
  - destruct (decide (d ∈ sorted_keys (merged_dict entry old new))) as [|Hn];
      [done|].
    rewrite elem_of_sorted_keys in Hn.
    symmetry. by apply eq_None_not_Some.
  - apply NoDup_sorted_keys.
  - intros k. by rewrite elem_of_sorted_keys.
  - apply merged_dict_entry.
Qed.

(** Merging the same fresh data a second time changes nothing. *)
Lemma merge_by_idempotent (A B : list item) :
  merge_by entry render (merge_by entry render A B) B =
    merge_by entry render A B.
Proof.
  assert (merged_dict entry (merge_by entry render A B) B
          = merged_dict entry A B) as Hm.
  { apply map_eq. intros d.
    rewrite (lookup_merged_dict (merge_by entry render A B)).
    rewrite last_entry_merge_by, lookup_merged_dict.
    by destruct (last_entry entry B d). }
  unfold merge_by at 1. by rewrite Hm.
Qed.

End merge_by_date_facts.

(** ** Comparisons of finite floats *)

Lemma Qltb_lt (a b : Q) : Qltb a b = true ↔ (a < b)%Q.
Proof.
  unfold Qltb. rewrite negb_true_iff, <- not_true_iff_false, Qle_bool_iff.
  split; [apply Qnot_le_lt|apply Qlt_not_le].
Qed.

Lemma Qltb_ge (a b : Q) : Qltb a b = false ↔ (b <= a)%Q.
Proof. unfold Qltb. by rewrite negb_false_iff, Qle_bool_iff. Qed.

Lemma float_le_Fin (a b : Q) : float_le (Fin a) (Fin b) = true ↔ (a <= b)%Q.
Proof. unfold float_le, float_lt. by rewrite negb_true_iff, Qltb_ge. Qed.

(** Case analysis on every comparison of finite floats in the goal. *)
Ltac float_cases :=
  repeat (cbn [float_lt float_gt];
    match goal with
    | |- context [Qltb ?a ?b] =>
        let E := fresh "E" in
        destruct (Qltb a b) eqn:E;
        [apply Qltb_lt in E|apply Qltb_ge in E]
    end); cbn [float_lt float_gt].

(** ** The candle normalizer *)

Section candle_facts.
Context `{Builtins}.
Import Ohlc.

Lemma safe_float_Some (v : pyval) (f : pyfloat) :
  safe_float v = Some f ↔ ∃ q, f = Fin q ∧ py_float v = Ok (Fin q).
Proof.
  unfold safe_float. destruct (py_float v) as [x|].
  - destruct x as [q| |]; simpl; split; try done.
    + intros [= <-]. by exists q.
    + by intros (q' & -> & [= ->]).
    + by intros (q' & _ & [=]).
    + by intros (q' & _ & [=]).
  - split; [done|]. by intros (q & _ & [=]).
Qed.

Lemma safe_float_PyNum_Fin (q : Q) : safe_float (PyNum (Fin q)) = Some (Fin q).
Proof. reflexivity. Qed.

(** After the forcing, the fields are ordered and the test of the swap
    is false. *)
Lemma forced_bounds (close_f : Q) (open_f high_f low_f : option Q) :
  let '(o, h, l) :=
    forced (Fin close_f) (Fin <$> open_f) (Fin <$> high_f) (Fin <$> low_f) in
  float_gt l h = false ∧
  ∃ qo qh ql, o = Fin qo ∧ h = Fin qh ∧ l = Fin ql ∧
    (ql <= qo <= qh)%Q ∧ (ql <= close_f <= qh)%Q.
Proof.
  destruct open_f as [o|], high_f as [h|], low_f as [l|];
    unfold forced, py_max3, py_min3, py_max, py_min;
    cbn [fmap option_fmap option_map]; float_cases;
    (split; [first [done | exfalso; lra]
            | eexists _, _, _; repeat split; try reflexivity; lra ]).
Qed.

(** The options [safe_float] returns are options of finite floats. *)
Lemma safe_float_fmap (v : pyval) : ∃ o : option Q, safe_float v = Fin <$> o.
Proof.
  destruct (safe_float v) as [f|] eqn:E.
  - apply safe_float_Some in E as (q & -> & _). by exists (Some q).
  - by exists None.
Qed.

Lemma build_candle_Some (date open_val high_val low_val close_val : pyval)
  (k : candle) :
  build_candle date open_val high_val low_val close_val = Some k →
  ∃ d qo qh ql qc,
    date = PyStr d ∧ py_float close_val = Ok (Fin qc) ∧
    k = Candle d (Fin qo) (Fin qh) (Fin ql) (Fin qc) ∧
    (ql <= qo <= qh)%Q ∧ (ql <= qc <= qh)%Q ∧
    (Fin qo, Fin qh, Fin ql) =
      forced (Fin qc) (safe_float open_val) (safe_float high_val)
        (safe_float low_val).
Proof.
  unfold build_candle. destruct date as [| |d|]; try done.
  destruct (safe_float close_val) as [close_f|] eqn:Ec; [|done].
  apply safe_float_Some in Ec as (qc & -> & Hc).
  destruct (safe_float_fmap open_val) as [oo Ho].
  destruct (safe_float_fmap high_val) as [oh Hh].
  destruct (safe_float_fmap low_val) as [ol Hl].
  rewrite Ho, Hh, Hl.
  pose proof (forced_bounds qc oo oh ol) as Hb.
  destruct (forced _ _ _ _) as [[o h] l] eqn:Ef.
  destruct Hb as (Hswap & qo & qh & ql & -> & -> & -> & Ho' & Hc').
  rewrite Hswap. intros [= <-].
  by exists d, qo, qh, ql, qc.
Qed.

End candle_facts.

(** ** The two merges as instances of merging by date *)

Lemma get_point_date d c : get (History.point d c) "date" = PyStr d.
Proof. reflexivity. Qed.

Lemma get_point_close d c : get (History.point d c) "close" = PyNum c.
Proof. reflexivity. Qed.

Lemma point_of_point d c : History.point_of (History.point d c) = Some (d, c).
Proof. reflexivity. Qed.

Lemma history_merge_step_collect m it :
  History.merge_step m it = collect_step History.point_of m it.
Proof.
  unfold History.merge_step, collect_step, History.point_of.
  by destruct (get it "date"), (get it "close").
Qed.

Lemma history_merge_by old new :
  History.merge_history old new = merge_by History.point_of History.point old new.
Proof.
  unfold History.merge_history, merge_by, merged_dict.
  assert (∀ arr m, foldl History.merge_step m arr
                   = foldl (collect_step History.point_of) m arr) as Hf.
  { induction arr as [|it arr IH]; intros m; simpl; [done|].
    by rewrite history_merge_step_collect, IH. }
  by rewrite !Hf.
Qed.

Lemma point_of_render (it : item) d c :
  History.point_of it = Some (d, c) →
  History.point_of (History.point d c) = Some (d, c).
Proof. intros _. apply point_of_point. Qed.

Section ohlc_merge_facts.
Context `{Builtins}.
Import Ohlc.

Lemma get_candle_item d o h l c :
  let it := candle_item (Candle d o h l c) in
  get it "date" = PyStr d ∧ get it "open" = PyNum o ∧
  get it "high" = PyNum h ∧ get it "low" = PyNum l ∧
  get it "close" = PyNum c.
Proof. done. Qed.

Lemma normalize_candle_item (it : item) (k : candle) :
  normalize it = Some k → normalize (candle_item k) = Some k.
Proof.
  intros Hk. apply build_candle_Some in Hk
    as (d & qo & qh & ql & qc & _ & _ & -> & Ho & Hc & _).
  unfold normalize.
  destruct (get_candle_item d (Fin qo) (Fin qh) (Fin ql) (Fin qc))
    as (-> & -> & -> & -> & ->).
  unfold build_candle. rewrite !safe_float_PyNum_Fin.
  unfold forced, py_max3, py_min3, py_max, py_min.
  float_cases; first [done | exfalso; lra].
Qed.

Lemma normalize_date (it : item) (k : candle) :
  normalize it = Some k → get it "date" = PyStr (c_date k).
Proof.
  intros Hk. apply build_candle_Some in Hk
    as (d & qo & qh & ql & qc & -> & _ & -> & _). done.
Qed.

Lemma candle_of_render (it : item) d k :
  candle_of it = Some (d, k) →
  candle_of (candle_item k) = Some (d, k).
Proof.
  unfold candle_of. destruct (normalize it) as [k'|] eqn:E; [|done].
  simpl. intros [= <- <-]. by rewrite (normalize_candle_item _ _ E).
Qed.

Lemma ohlc_merge_step_collect m it :
  merge_step m it = collect_step candle_of m it.
Proof.
  unfold merge_step, collect_step, candle_of.
  by destruct (normalize it).
Qed.

Lemma ohlc_merge_by old new :
  merge_history old new = merge_by candle_of (λ _ k, candle_item k) old new.
Proof.
  unfold merge_history, merge_by, merged_dict.
  assert (∀ arr m, foldl merge_step m arr
                   = foldl (collect_step candle_of) m arr) as Hf.
  { induction arr as [|it arr IH]; intros m; simpl; [done|].
    by rewrite ohlc_merge_step_collect, IH. }
  by rewrite !Hf.
Qed.

End ohlc_merge_facts.

(** C5: merging the same fresh series a second time changes nothing,
    [merge(merge(A, B), B) = merge(A, B)], in the close-only and in the
    OHLC pipeline. *)
Theorem merge_history_idempotent `{Builtins} (A B : list item) :
  History.merge_history (History.merge_history A B) B
    = History.merge_history A B
  ∧ Ohlc.merge_history (Ohlc.merge_history A B) B = Ohlc.merge_history A B.
Proof.
  split.
  - rewrite !history_merge_by.
    apply merge_by_idempotent, point_of_render.
  - rewrite !ohlc_merge_by.
    apply (merge_by_idempotent Ohlc.candle_of (λ _ k, candle_item k)).
    apply candle_of_render.
Qed.

(** [build_candle] on a string date and a close that parses: the test of
    the swap is false and the candle carries the forced values. *)
Lemma build_candle_forced `{Builtins} (date : string)
  (open_val high_val low_val close_val : pyval) (close_f : pyfloat) :
  Ohlc.safe_float close_val = Some close_f →
  ∃ open_f high_f low_f,
    Ohlc.forced close_f (Ohlc.safe_float open_val) (Ohlc.safe_float high_val)
      (Ohlc.safe_float low_val) = (open_f, high_f, low_f) ∧
    float_gt low_f high_f = false ∧
    Ohlc.build_candle (PyStr date) open_val high_val low_val close_val
      = Some (Candle date open_f high_f low_f close_f).
Proof.
  intros Hc. unfold Ohlc.build_candle. rewrite Hc.
  apply safe_float_Some in Hc as (qc & -> & _).
  destruct (safe_float_fmap open_val) as [oo ->].
  destruct (safe_float_fmap high_val) as [oh ->].
  destruct (safe_float_fmap low_val) as [ol ->].
  pose proof (forced_bounds qc oo oh ol) as Hb.
  destruct (Ohlc.forced _ _ _ _) as [[o h] l].
  destruct Hb as (Hswap & _).
  exists o, h, l. by rewrite Hswap.
Qed.

(** C9: in [build_candle], once [high_f] and [low_f] have been forced
    around [open_f] and [close_f], the test [low_f > high_f] is false for
    every input that reaches it, so the swap is never taken and the candle
    returned carries the forced values. *)
Theorem swap_branch_unreachable `{Builtins} (date : string)
  (open_val high_val low_val close_val : pyval) (close_f : pyfloat) :
  Ohlc.safe_float close_val = Some close_f →
  ∃ open_f high_f low_f,
    Ohlc.forced close_f (Ohlc.safe_float open_val) (Ohlc.safe_float high_val)
      (Ohlc.safe_float low_val) = (open_f, high_f, low_f) ∧
    float_gt low_f high_f = false ∧
    Ohlc.build_candle (PyStr date) open_val high_val low_val close_val
      = Some (Candle date open_f high_f low_f close_f).
Proof. apply build_candle_forced. Qed.

Lemma swap_branch_unreachable_witness :
  Ohlc.safe_float (H := sample_runtime) (PyNum (Fin 3)) = Some (Fin 3) ∧
  ∃ open_f high_f low_f,
    Ohlc.forced (Fin 3)
      (Ohlc.safe_float (H := sample_runtime) PyNone)
      (Ohlc.safe_float (H := sample_runtime) (PyNum (Fin 1)))
      (Ohlc.safe_float (H := sample_runtime) (PyNum (Fin 5)))
      = (open_f, high_f, low_f) ∧
    float_gt low_f high_f = false ∧
    Ohlc.build_candle (H := sample_runtime) (PyStr "2024-06-03") PyNone
      (PyNum (Fin 1)) (PyNum (Fin 5)) (PyNum (Fin 3))
      = Some (Candle "2024-06-03" open_f high_f low_f (Fin 3)).
Proof.
  split; [reflexivity|].
  apply (swap_branch_unreachable (H := sample_runtime)). reflexivity.
Defined.

(** C6, as first stated, fails on a record whose date is not a string:
    the close parses to a finite number and no candle is produced. *)
Lemma build_candle_needs_string_date :
  py_float (H := sample_runtime) (PyNum (Fin 1)) = Ok (Fin 1) ∧
  Ohlc.build_candle (H := sample_runtime) PyNone
    (PyNum (Fin 1)) (PyNum (Fin 1)) (PyNum (Fin 1)) (PyNum (Fin 1)) = None.
Proof. split; reflexivity. Qed.

(** C6, amended: [build_candle] produces a candle exactly when the date
    is a string and the close parses to a finite number; the candle it
    produces then has finite fields with [low <= open <= high] and
    [low <= close <= high]. *)
Theorem build_candle_well_formed `{Builtins}
  (date open_val high_val low_val close_val : pyval) :
  (is_Some (Ohlc.build_candle date open_val high_val low_val close_val) ↔
     (∃ d, date = PyStr d) ∧ (∃ q, py_float close_val = Ok (Fin q))) ∧
  (∀ k, Ohlc.build_candle date open_val high_val low_val close_val = Some k →
     float_le (c_low k) (c_open k) = true ∧
     float_le (c_open k) (c_high k) = true ∧
     float_le (c_low k) (c_close k) = true ∧
     float_le (c_close k) (c_high k) = true).
Proof.
  split.
  - split.
    + intros [k Hk]. apply build_candle_Some in Hk
        as (d & qo & qh & ql & qc & -> & Hc & _). eauto.
    + intros [[d ->] [q Hq]].
      assert (Ohlc.safe_float close_val = Some (Fin q)) as Hc.
      { apply safe_float_Some. eauto. }
      destruct (build_candle_forced d open_val high_val low_val
                  close_val _ Hc) as (o & h & l & _ & _ & ->).
      done.
  - intros k Hk. apply build_candle_Some in Hk
      as (d & qo & qh & ql & qc & _ & _ & -> & Ho & Hc & _).
    cbn [c_low c_open c_high c_close]. rewrite !float_le_Fin. tauto.
Qed.

Lemma build_candle_well_formed_witness :
  let k := Candle "2024-06-03" (Fin 3) (Fin 3) (Fin 3) (Fin 3) in
  Ohlc.build_candle (H := sample_runtime) (PyStr "2024-06-03") PyNone
    (PyNum (Fin 1)) (PyNum (Fin 5)) (PyNum (Fin 3)) = Some k ∧
  float_le (c_low k) (c_open k) = true ∧
  float_le (c_open k) (c_high k) = true ∧
  float_le (c_low k) (c_close k) = true ∧
  float_le (c_close k) (c_high k) = true.
Proof.
  intros k. split; [reflexivity|].
  apply (build_candle_well_formed (H := sample_runtime) (PyStr "2024-06-03")
           PyNone (PyNum (Fin 1)) (PyNum (Fin 5)) (PyNum (Fin 3))).
  reflexivity.
Defined.

(** ** What [merge_history] returns *)

Section merge_by_spec.
Context {V : Type} `{!Inhabited V}.
Variable entry : item → option (string * V).
Variable render : string → V → item.

(** The record emitted for an accepted record carries its date. *)
Hypothesis render_date :
  ∀ it d v, entry it = Some (d, v) → get (render d v) "date" = PyStr d.

Lemma merged_dict_Some (old new : list item) (d : string) :
  is_Some (merged_dict entry old new !! d) ↔
    ∃ it v, it ∈ old ++ new ∧ entry it = Some (d, v).
Proof.
  rewrite lookup_merged_dict_app. split.
  - intros [v Hv]. apply last_entry_Some_entry in Hv as (it & ? & ?). eauto.
  - intros (it & v & Hin & Hit).
    destruct (last_entry entry (old ++ new) d) as [w|] eqn:E; [by eexists|].
    exfalso. by eapply last_entry_None in E.
Qed.

Lemma merge_by_dates (old new : list item) :
  (λ r, get r "date") <$> merge_by entry render old new
    = PyStr <$> sorted_keys (merged_dict entry old new).
Proof.
  unfold merge_by. rewrite <- list_fmap_compose.
  apply list_fmap_ext. intros i d Hd. simpl.
  assert (d ∈ sorted_keys (merged_dict entry old new)) as Hin.
  { by eapply list_elem_of_lookup_2. }
  apply elem_of_sorted_keys in Hin as [v Hv].
  rewrite (lookup_total_correct _ _ _ Hv).
  rewrite lookup_merged_dict_app in Hv.
  apply last_entry_Some_entry in Hv as (it & _ & Hit).
  by eapply render_date.
Qed.

Lemma merge_by_spec (old new : list item) :
  (∃ ds, strictly_ascending ds ∧
     (λ r, get r "date") <$> merge_by entry render old new = PyStr <$> ds ∧
     ∀ d, d ∈ ds ↔ ∃ it v, it ∈ old ++ new ∧ entry it = Some (d, v)) ∧
  (∀ d v, last_entry entry new d = Some v →
     render d v ∈ merge_by entry render old new) ∧
  (∀ d v, last_entry entry new d = None → last_entry entry old d = Some v →
     render d v ∈ merge_by entry render old new).
Proof.
  split; [|split].
  - exists (sorted_keys (merged_dict entry old new)).
    split; [apply sorted_keys_ascending|]. split; [apply merge_by_dates|].
    intros d. by rewrite elem_of_sorted_keys, merged_dict_Some.
  - intros d v Hv. apply elem_of_merge_by. exists d, v. split; [done|].
    by rewrite lookup_merged_dict, Hv.
  - intros d v Hn Hv. apply elem_of_merge_by. exists d, v. split; [done|].
    by rewrite lookup_merged_dict, Hn.
Qed.

End merge_by_spec.

(** C1, as first stated, fails in both pipelines.  In the close-only one
    a record without a usable close is dropped: its date is in the series
    and no record of the result carries it.  In the OHLC one the record
    of the result is not the record of [new] but the candle built from
    it. *)
Lemma merge_history_drops_invalid :
  let r : item := {[ "date" := PyStr "2023-01-03"; "close" := PyNone ]} in
  let p : item := History.point "2023-01-03" (Fin 5) in
  let k := candle_item (Candle "2023-01-03" (Fin 5) (Fin 5) (Fin 5) (Fin 5)) in
  (get r "date" = PyStr "2023-01-03" ∧ History.merge_history [r] [] = []) ∧
  (Ohlc.merge_history (H := sample_runtime) [p] [p] = [k] ∧ p ∉ [k]).
Proof.
  intros r p k. split; [split; reflexivity|]. split; [reflexivity|].
  intros Hin%list_elem_of_singleton.
  assert (get p "open" = PyNum (Fin 5)) as Hp by by rewrite Hin.
  discriminate Hp.
Qed.

(** C1, amended: [merge_history] reads the records it accepts (a string
    date and a numeric close; in the OHLC pipeline the records
    [build_candle] accepts, normalized) of [old] and then of [new] into a
    dict keyed by date.  The result has strictly ascending dates, which
    are exactly the dates of the accepted records of [old] and [new], so
    one record per such date; for a date with an accepted record in [new]
    the result holds the last such record of [new], and otherwise the
    last accepted record of [old]. *)
Theorem merge_history_by_date `{Builtins} (old new : list item) :
  ((∃ ds, strictly_ascending ds ∧
      (λ r, get r "date") <$> History.merge_history old new = PyStr <$> ds ∧
      ∀ d, d ∈ ds ↔
        ∃ it c, it ∈ old ++ new ∧ History.point_of it = Some (d, c)) ∧
   (∀ d c, last_entry History.point_of new d = Some c →
      History.point d c ∈ History.merge_history old new) ∧
   (∀ d c, last_entry History.point_of new d = None →
      last_entry History.point_of old d = Some c →
      History.point d c ∈ History.merge_history old new)) ∧
  ((∃ ds, strictly_ascending ds ∧
      (λ r, get r "date") <$> Ohlc.merge_history old new = PyStr <$> ds ∧
      ∀ d, d ∈ ds ↔
        ∃ it k, it ∈ old ++ new ∧ Ohlc.candle_of it = Some (d, k)) ∧
   (∀ d k, last_entry Ohlc.candle_of new d = Some k →
      candle_item k ∈ Ohlc.merge_history old new) ∧
   (∀ d k, last_entry Ohlc.candle_of new d = None →
      last_entry Ohlc.candle_of old d = Some k →
      candle_item k ∈ Ohlc.merge_history old new)).
Proof.
  split.
  - rewrite history_merge_by. apply merge_by_spec.
    intros it d c _. apply get_point_date.
  - rewrite ohlc_merge_by.
    apply (merge_by_spec Ohlc.candle_of (λ _ k, candle_item k)).
    intros it d k. unfold Ohlc.candle_of.
    destruct (Ohlc.normalize it) as [k'|]; [|done]. simpl.
    intros [= <- <-]. by destruct k'.
Qed.

Lemma merge_history_by_date_witness :
  let old := [ History.point "2023-01-03" (Fin 100) ] in
  let new := [ History.point "2023-01-03" (Fin 101);
               History.point "2023-01-04" (Fin 102) ] in
  last_entry History.point_of new "2023-01-03" = Some (Fin 101) ∧
  History.point "2023-01-03" (Fin 101) ∈ History.merge_history old new.
Proof.
  intros old new. split; [reflexivity|].
  destruct (merge_history_by_date (H := sample_runtime) old new)
    as [(_ & Hnew & _) _].
  apply Hnew. reflexivity.
Defined.

(** ** Sorting by date *)

Lemma bind_Ok {A B} (r : result A) (k : A → result B) (b : B) :
  (r ≫= k) = Ok b ↔ ∃ a, r = Ok a ∧ k a = Ok b.
Proof.
  destruct r as [a|e]; simpl.
  - split; [by exists a|]. by intros (a' & [= ->] & ?).
  - split; [done|]. by intros (a' & [=] & _).
Qed.

Lemma float_lt_asym x y : float_lt x y = true → float_lt y x = false.
Proof.
  destruct x as [a|[]|], y as [b|[]|]; simpl; try done.
  rewrite Qltb_lt, Qltb_ge. apply Qlt_le_weak.
Qed.

Lemma string_ltb_asym s t : String.ltb s t = true → String.ltb t s = false.
Proof.
  rewrite string_ltb_le_ne. intros [Hle Hne].
  rewrite string_ltb_leb. unfold String.le in Hle.
  by destruct (String.leb s t).
Qed.

Lemma py_lt_asym a b : py_lt a b = Ok true → py_lt b a = Ok false.
Proof.
  destruct a, b; simpl; try done; intros [= E]; f_equal.
  - by apply float_lt_asym.
  - by apply string_ltb_asym.
Qed.

Lemma mapM_keyed (data : list item) (l : list (pyval * item)) :
  mapM (λ x, k ← getitem x "date"; Ok (k, x)) data = Ok l →
  l.*2 = data ∧ Forall keyed l.
Proof.
  revert l. induction data as [|x data IH]; intros l; simpl.
  - intros [= <-]. by split.
  - intros Hl. apply bind_Ok in Hl as ([k x'] & Hx & Hl).
    apply bind_Ok in Hx as (k' & Hk & [= <- <-]).
    apply bind_Ok in Hl as (l' & Hl' & [= <-]).
    destruct (IH _ Hl') as [<- Hall]. split; [done|].
    constructor; [|done]. unfold keyed, getitem in *. simpl.
    by destruct (x !! "date"); simplify_eq.
Qed.

Lemma insert_keyed_Permutation kx x l r :
  insert_keyed kx x l = Ok r → r ≡ₚ (kx, x) :: l.
Proof.
  revert r. induction l as [|[ky y] l IH]; intros r; simpl.
  - by intros [= <-].
  - intros Hr. apply bind_Ok in Hr as ([] & _ & Hr).
    + apply bind_Ok in Hr as (r' & Hr' & [= <-]).
      rewrite (IH _ Hr'). apply perm_swap.
    + by simplify_eq.
Qed.

Lemma sort_keyed_Permutation l r : sort_keyed l = Ok r → r ≡ₚ l.
Proof.
  revert r. induction l as [|[kx x] l IH]; intros r; simpl.
  - by intros [= <-].
  - intros Hr. apply bind_Ok in Hr as (r' & Hr' & Hr).
    apply insert_keyed_Permutation in Hr. by rewrite Hr, (IH _ Hr').
Qed.

Lemma insert_keyed_HdRel p kx x l r :
  insert_keyed kx x l = Ok r → key_le p (kx, x) → HdRel key_le p l →
  HdRel key_le p r.
Proof.
  destruct l as [|[ky y] l]; simpl.
  - intros [= <-] Hp _. by constructor.
  - intros Hr Hp Hl. apply bind_Ok in Hr as ([] & _ & Hr).
    + apply bind_Ok in Hr as (r' & _ & [= <-]).
      constructor. by inversion Hl.
    + simplify_eq. by constructor.
Qed.

Lemma insert_keyed_Sorted kx x l r :
  Sorted key_le l → insert_keyed kx x l = Ok r → Sorted key_le r.
Proof.
  intros Hl. revert r. induction Hl as [|[ky y] l Hl IH Hhd]; intros r; simpl.
  - intros [= <-]. by repeat constructor.
  - intros Hr. apply bind_Ok in Hr as ([] & Hlt & Hr).
    + apply bind_Ok in Hr as (r' & Hr' & [= <-]).
      constructor; [by apply IH|].
      eapply insert_keyed_HdRel; [exact Hr'| |done].
      by apply py_lt_asym.
    + simplify_eq. constructor; [by constructor|]. by constructor.
Qed.

Lemma sort_keyed_Sorted l r : sort_keyed l = Ok r → Sorted key_le r.
Proof.
  revert r. induction l as [|[kx x] l IH]; intros r; simpl.
  - intros [= <-]. constructor.
  - intros Hr. apply bind_Ok in Hr as (r' & Hr' & Hr).
    eapply insert_keyed_Sorted; [|exact Hr]. by apply IH.
Qed.

Lemma insert_keyed_str s x l :
  Forall str_keyed l → ∃ r, insert_keyed (PyStr s) x l = Ok r.
Proof.
  induction 1 as [|[ky y] l [t Ht] _ [r IH]]; simpl; [by eexists|].
  simpl in Ht. subst ky. simpl.
  destruct (String.ltb t s); [|by eexists].
  rewrite IH. by eexists.
Qed.

Lemma sort_keyed_str l : Forall str_keyed l → ∃ r, sort_keyed l = Ok r.
Proof.
  induction 1 as [|[kx x] l [s Hs] Hl [r IH]]; simpl; [by eexists|].
  simpl in Hs. subst kx. rewrite IH. simpl.
  apply insert_keyed_str.
  apply sort_keyed_Permutation in IH. by rewrite IH.
Qed.

(** In a sorted list whose first key is a string, the keys are strings
    that are not before the first. *)
Lemma Sorted_key_le_str s x r :
  Sorted key_le ((PyStr s, x) :: r) →
  Forall (λ p, ∃ t, p.1 = PyStr t ∧ String.le s t) r.
Proof.
  revert s x. induction r as [|[k y] r IH]; intros s x Hs; [constructor|].
  apply Sorted_inv in Hs as [Hs Hhd]. apply HdRel_inv in Hhd.
  unfold key_le in Hhd. simpl in Hhd.
  destruct k as [| |t|]; try done. injection Hhd as Hts.
  apply string_le_ltb in Hts.
  constructor; [by exists t|].
  eapply Forall_impl; [by eapply IH|].
  intros p (u & -> & Hu). exists u. split; [done|]. by etrans.
Qed.

Lemma Sorted_in_date_order l :
  Sorted key_le l → Forall keyed l → Sorted in_date_order l.*2.
Proof.
  induction 1 as [|p l Hl IH Hhd]; intros Hk; [constructor|].
  apply Forall_cons in Hk as [Hp Hk]. simpl.
  constructor; [by apply IH|].
  destruct Hhd as [|q l Hpq]; [constructor|]. simpl. constructor.
  apply Forall_cons in Hk as [Hq _]. by exists p.1, q.1.
Qed.

Lemma sort_by_date_Ok data data' :
  sort_by_date data = Ok data' →
  ∃ l, data' = l.*2 ∧ Forall keyed l ∧ Sorted key_le l ∧ data' ≡ₚ data.
Proof.
  unfold sort_by_date. intros Hd.
  apply bind_Ok in Hd as (l0 & Hl0 & Hd).
  apply bind_Ok in Hd as (l & Hl & [= <-]).
  apply mapM_keyed in Hl0 as [<- Hk].
  pose proof (sort_keyed_Permutation _ _ Hl) as Hp.
  exists l. split; [done|]. split; [by rewrite Hp|].
  split; [by eapply sort_keyed_Sorted|]. by rewrite Hp.
Qed.

Lemma getitem_Some (it : item) k v : it !! k = Some v → getitem it k = Ok v.
Proof. unfold getitem. by intros ->. Qed.

Lemma mapM_result_cons {A B} (f : A → result B) x l :
  mapM f (x :: l) = y ← f x; k ← mapM f l; Ok (y :: k).
Proof. reflexivity. Qed.

Lemma mapM_keyed_str (data : list item) :
  Forall str_dated data →
  ∃ l, mapM (λ x, k ← getitem x "date"; Ok (k, x)) data = Ok l ∧
       Forall str_keyed l.
Proof.
  induction 1 as [|x data [s Hs] _ (l & Hl & Hall)].
  - exists []. by split.
  - rewrite mapM_result_cons, (getitem_Some _ _ _ Hs), Hl. simpl.
    eexists. split; [done|]. constructor; [by exists s|done].
Qed.

Lemma sort_by_date_str data :
  Forall str_dated data → ∃ data', sort_by_date data = Ok data'.
Proof.
  intros Hd. destruct (mapM_keyed_str _ Hd) as (l & Hl & Hall).
  destruct (sort_keyed_str _ Hall) as [r Hr].
  unfold sort_by_date. rewrite Hl. simpl. rewrite Hr. simpl. by eexists.
Qed.

(** ** The coverage check *)

Global Instance str_le_trans : Transitive str_le.
Proof.
  intros a b c (s & t & Ha & Hb & Hst) (t' & u & Hb' & Hc & Htu).
  rewrite Hb in Hb'. injection Hb' as <-.
  exists s, u. split; [done|]. split; [done|]. by etrans.
Qed.

Lemma str_le_refl a : str_dated a → str_le a a.
Proof. intros [s Hs]. by exists s, s. Qed.

Lemma sort_by_date_sorted data data' :
  sort_by_date data = Ok data' →
  data' ≡ₚ data ∧ Sorted in_date_order data'.
Proof.
  intros (l & -> & Hk & Hs & Hp)%sort_by_date_Ok. split; [done|].
  by apply Sorted_in_date_order.
Qed.

Lemma in_date_order_str x0 r :
  str_dated x0 → Sorted in_date_order (x0 :: r) →
  Sorted str_le (x0 :: r) ∧ Forall str_dated (x0 :: r).
Proof.
  revert x0. induction r as [|y r IH]; intros x0 Hx0 Hs.
  - split; repeat constructor; done.
  - apply Sorted_inv in Hs as [Hs Hhd]. apply HdRel_inv in Hhd.
    destruct Hx0 as [s Hx0].
    destruct Hhd as (ka & kb & Ha & Hb & Hlt).
    rewrite Hx0 in Ha. injection Ha as <-.
    destruct kb as [| |t|]; try done. injection Hlt as Hlt.
    apply string_le_ltb in Hlt.
    destruct (IH y) as [Hs' Hd']; [by exists t|done|].
    split.
    + constructor; [done|]. constructor. by exists s, t.
    + constructor; [by exists s|done].
Qed.

Lemma StronglySorted_last {A} (R : relation A) (l : list A) (z : A) :
  StronglySorted R l → last l = Some z → ∀ x, x ∈ l → x = z ∨ R x z.
Proof.
  induction 1 as [|y l Hl IH Hall]; [done|].
  intros Hz x Hx. destruct l as [|y' l'].
  - simpl in Hz. injection Hz as <-.
    apply list_elem_of_singleton in Hx. by left.
  - change (last (y :: y' :: l')) with (last (y' :: l')) in Hz.
    apply elem_of_cons in Hx as [->|Hx].
    + right. eapply Forall_forall in Hall; [done|].
      by eapply last_Some_elem_of.
    + by apply IH.
Qed.

Lemma earliest_unique data s s' : earliest data s → earliest data s' → s = s'.
Proof.
  intros [(it & Hin & Hit) Hmin] [(it' & Hin' & Hit') Hmin'].
  destruct (Hmin _ Hin') as (t & Ht & Hst).
  destruct (Hmin' _ Hin) as (t' & Ht' & Hst').
  rewrite Hit' in Ht. rewrite Hit in Ht'. simplify_eq.
  by apply (anti_symm String.le).
Qed.

Lemma latest_unique data s s' : latest data s → latest data s' → s = s'.
Proof.
  intros [(it & Hin & Hit) Hmax] [(it' & Hin' & Hit') Hmax'].
  destruct (Hmax _ Hin') as (t & Ht & Hst).
  destruct (Hmax' _ Hin) as (t' & Ht' & Hst').
  rewrite Hit' in Ht. rewrite Hit in Ht'. simplify_eq.
  by apply (anti_symm String.le).
Qed.

Lemma earliest_Permutation data data' s :
  data' ≡ₚ data → earliest data' s → earliest data s.
Proof.
  intros Hp [(it & Hin & Hit) Hmin]. split.
  - exists it. by rewrite <- Hp.
  - intros it' Hin'. apply Hmin. by rewrite Hp.
Qed.

Lemma latest_Permutation data data' s :
  data' ≡ₚ data → latest data' s → latest data s.
Proof.
  intros Hp [(it & Hin & Hit) Hmax]. split.
  - exists it. by rewrite <- Hp.
  - intros it' Hin'. apply Hmax. by rewrite Hp.
Qed.

(** In a sorted series whose first record has a string date, the first
    date is the earliest and the last date the latest. *)
Lemma sorted_earliest_latest x0 r xn s :
  x0 !! "date" = Some (PyStr s) →
  Sorted in_date_order (x0 :: r) → last (x0 :: r) = Some xn →
  earliest (x0 :: r) s ∧ ∃ t, xn !! "date" = Some (PyStr t) ∧ latest (x0 :: r) t.
Proof.
  intros Hx0 Hs Hn.
  destruct (in_date_order_str x0 r) as [Hs' Hd]; [by exists s|done|].
  apply Sorted_StronglySorted in Hs'; [|apply _].
  split.
  - split; [exists x0; split; [apply list_elem_of_here|done]|].
    intros it [->|Hin]%elem_of_cons.
    + exists s. by split.
    + apply StronglySorted_inv in Hs' as [_ Hall].
      eapply Forall_forall in Hall; [|done].
      destruct Hall as (s' & t & Ha & Hb & Hle).
      rewrite Hx0 in Ha. injection Ha as <-. by exists t.
  - assert (xn ∈ x0 :: r) as Hin by by eapply last_Some_elem_of.
    pose proof Hd as Hd'. rewrite Forall_forall in Hd'.
    destruct (Hd' _ Hin) as [t Ht]. exists t. split; [done|].
    split; [by exists xn|].
    intros it Hit.
    destruct (StronglySorted_last _ _ _ Hs' Hn _ Hit) as [->|Hle].
    + exists t. by split.
    + destruct Hle as (u & t' & Ha & Hb & Hle).
      rewrite Ht in Hb. injection Hb as <-. by exists u.
Qed.

Section coverage_facts.
Context `{Builtins}.

Lemma business_gap_le (last : pyval) :
  (business_gap last <=? 1)%Z = true ↔
    ∃ t d, last = PyStr t ∧ fromisoformat t = Some d ∧
           (busday_count d today ≤ 1)%Z.
Proof.
  unfold business_gap. destruct last as [| |t|]; simpl;
    try (split; [done|by intros (? & ? & [=] & _)]).
  destruct (fromisoformat t) as [d|] eqn:E; simpl.
  - rewrite Z.leb_le. split; [by exists t, d|].
    intros (t' & d' & Ht & Hd & Hle). injection Ht as <-.
    rewrite E in Hd. by injection Hd as <-.
  - split; [done|]. intros (t' & d' & Ht & Hd & _). injection Ht as <-.
    by rewrite E in Hd.
Qed.

Lemma coverage_ok_cons x data m :
  coverage_ok (x :: data) m =
    data ← sort_by_date (x :: data);
    match head data, last data with
    | Some x0, Some xn =>
        first ← getitem x0 "date";
        last ← getitem xn "date";
        if negb (200 <=? length data) then Ok (false, data) else
        le ← py_le first (PyStr m);
        if negb le then Ok (false, data) else
        Ok ((business_gap last <=? 1)%Z, data)
    | _, _ => Raise IndexError
    end.
Proof. reflexivity. Qed.

Lemma getitem_Ok (it : item) k v : getitem it k = Ok v ↔ it !! k = Some v.
Proof. unfold getitem. destruct (it !! k); naive_solver. Qed.

Lemma coverage_ok_inv x data m b data' :
  coverage_ok (x :: data) m = Ok (b, data') →
  sort_by_date (x :: data) = Ok data' ∧
  ∃ x0 xn first last,
    head data' = Some x0 ∧ list.last data' = Some xn ∧
    x0 !! "date" = Some first ∧ xn !! "date" = Some last ∧
    (b = true →
       200 ≤ length data' ∧ py_le first (PyStr m) = Ok true ∧
       (business_gap last <=? 1)%Z = true).
Proof.
  rewrite coverage_ok_cons. intros Hc.
  apply bind_Ok in Hc as (d & Hd & Hc).
  destruct (head d) as [x0|] eqn:Hh; [|done].
  destruct (last d) as [xn|] eqn:Hl; [|done].
  apply bind_Ok in Hc as (first & Hf & Hc).
  apply bind_Ok in Hc as (last & Hla & Hc).
  apply getitem_Ok in Hf, Hla.
  destruct (200 <=? length d) eqn:Hlen; simpl in Hc.
  - apply bind_Ok in Hc as (le & Hle & Hc).
    destruct le; simpl in Hc; simplify_eq.
    + split; [done|]. exists x0, xn, first, last.
      repeat split; try done. by apply Nat.leb_le.
    + split; [done|]. by exists x0, xn, first, last.
  - simplify_eq. split; [done|]. by exists x0, xn, first, last.
Qed.

Lemma bind_Ok_l {A B} (a : A) (k : A → result B) : (Ok a ≫= k) = k a.
Proof. reflexivity. Qed.

(** [coverage_ok] once the sort has succeeded on string dates. *)
Lemma coverage_ok_sorted x data m x0 r xn s t :
  sort_by_date (x :: data) = Ok (x0 :: r) →
  last (x0 :: r) = Some xn →
  x0 !! "date" = Some (PyStr s) → xn !! "date" = Some (PyStr t) →
  coverage_ok (x :: data) m =
    Ok ((200 <=? length (x0 :: r)) && String.leb s m
        && (business_gap (PyStr t) <=? 1)%Z, x0 :: r).
Proof.
  intros Hsort Hn Hs Ht.
  rewrite coverage_ok_cons, Hsort, bind_Ok_l. cbn [head].
  rewrite Hn, (getitem_Some _ _ _ Hs), bind_Ok_l.
  rewrite (getitem_Some _ _ _ Ht), bind_Ok_l.
  destruct (200 <=? length (x0 :: r)); cbn [negb andb]; [|done].
  unfold py_le. rewrite bind_Ok_l.
  by destruct (String.leb s m).
Qed.

Lemma coverage_ok_returns (data : list item) (m : string) :
  Forall str_dated data → ∃ b data', coverage_ok data m = Ok (b, data').
Proof.
  destruct data as [|x data]; [by exists false, []|].
  intros Hd. destruct (sort_by_date_str _ Hd) as [d Hsort].
  pose proof (sort_by_date_sorted _ _ Hsort) as [Hp _].
  assert (Forall str_dated d) as Hd' by by rewrite Hp.
  destruct d as [|x0 r]; [by apply Permutation_nil_cons in Hp|].
  destruct (last (x0 :: r)) as [xn|] eqn:Hn; [|by apply last_None in Hn].
  assert (str_dated x0) as [s Hs].
  { eapply Forall_forall; [exact Hd'|apply list_elem_of_here]. }
  assert (str_dated xn) as [t Ht].
  { eapply Forall_forall; [exact Hd'|by eapply last_Some_elem_of]. }
  rewrite (coverage_ok_sorted _ _ _ _ _ _ _ _ Hsort Hn Hs Ht).
  by eexists _, _.
Qed.

(** C10: [coverage_ok] sorts the caller's list in place.  On a non-empty
    series it returns as soon as the dates are strings, and whenever it
    returns, with [True] or with [False], the caller's list is a
    permutation of what it was, in ascending order of date. *)
Theorem coverage_ok_sorts_in_place (data : list item) (m : string) :
  data ≠ [] →
  (Forall str_dated data → ∃ b data', coverage_ok data m = Ok (b, data')) ∧
  (∀ b data', coverage_ok data m = Ok (b, data') →
     data' ≡ₚ data ∧ Sorted in_date_order data').
Proof.
  intros Hne. split; [apply coverage_ok_returns|].
  intros b data' Hc. destruct data as [|x data]; [done|].
  apply coverage_ok_inv in Hc as [Hsort _].
  by apply sort_by_date_sorted.
Qed.

(** C2: [coverage_ok] returns [False] on the empty series; on a non-empty
    one it returns [True] exactly when the series has at least 200 points,
    its earliest date is [<= min_from_date] and the number of business days
    from its latest date to today is [<= 1]; it returns a boolean on every
    series whose dates are strings. *)
Theorem coverage_ok_iff :
  (∀ m, coverage_ok [] m = Ok (false, [])) ∧
  (∀ x data m,
     (∃ data', coverage_ok (x :: data) m = Ok (true, data')) ↔
       200 ≤ length (x :: data) ∧
       ∃ first last,
         earliest (x :: data) first ∧ latest (x :: data) last ∧
         String.le first m ∧
         ∃ d, fromisoformat last = Some d ∧ (busday_count d today ≤ 1)%Z) ∧
  (∀ data m, Forall str_dated data →
     ∃ b data', coverage_ok data m = Ok (b, data')).
Proof.
  split; [done|]. split; [|apply coverage_ok_returns].
  intros x data m. split.
  - intros [data' Hc].
    apply coverage_ok_inv in Hc
      as (Hsort & x0 & xn & first & last & Hh & Hl & Hf & Hla & Hb).
    destruct (Hb eq_refl) as (Hlen & Hle & Hgap). clear Hb.
    apply sort_by_date_sorted in Hsort as [Hp Hs].
    destruct first as [| |s|]; try done. injection Hle as Hle.
    apply business_gap_le in Hgap as (t & d & -> & Hd & Hcount).
    destruct data' as [|x0' r]; [done|]. injection Hh as ->.
    destruct (sorted_earliest_latest _ _ _ _ Hf Hs Hl)
      as (He & t' & Ht' & Hlat).
    rewrite Hla in Ht'. injection Ht' as <-.
    split; [by rewrite <- Hp|].
    exists s, t. split; [by eapply earliest_Permutation|].
    split; [by eapply latest_Permutation|].
    split; [by apply Is_true_true|]. by exists d.
  - intros (Hlen & s & t & He & Hlat & Hle & d & Hd & Hcount).
    assert (Forall str_dated (x :: data)) as Hall.
    { apply Forall_forall. intros it Hin.
      destruct He as [_ Hmin]. destruct (Hmin _ Hin) as (u & Hu & _).
      by exists u. }
    destruct (sort_by_date_str _ Hall) as [data' Hsort].
    pose proof (sort_by_date_sorted _ _ Hsort) as [Hp Hs].
    exists data'.
    destruct data' as [|x0 r]; [by apply Permutation_nil_cons in Hp|].
    destruct (last (x0 :: r)) as [xn|] eqn:Hn; [|by apply last_None in Hn].
    assert (str_dated x0) as [s0 Hs0].
    { rewrite <- Hp in Hall.
      eapply Forall_forall; [exact Hall|apply list_elem_of_here]. }
    destruct (sorted_earliest_latest _ _ _ _ Hs0 Hs Hn)
      as (He' & t' & Ht' & Hlat').
    assert (s0 = s) as ->.
    { eapply earliest_unique; [|exact He]. by eapply earliest_Permutation. }
    assert (t' = t) as ->.
    { eapply latest_unique; [|exact Hlat]. by eapply latest_Permutation. }
    rewrite (coverage_ok_sorted _ _ _ _ _ _ _ _ Hsort Hn Hs0 Ht').
    assert ((200 <=? length (x0 :: r)) = true) as ->.
    { apply Nat.leb_le. by rewrite Hp. }
    apply Is_true_true in Hle. rewrite Hle.
    assert ((business_gap (PyStr t) <=? 1)%Z = true) as ->; [|done].
    apply business_gap_le. by exists t, d.
Qed.

End coverage_facts.

Lemma coverage_ok_sorts_in_place_witness :
  let a := History.point "2024-06-04" (Fin 2) in
  let b := History.point "2024-06-03" (Fin 1) in
  [a; b] ≠ [] ∧
  coverage_ok (H := sample_runtime) [a; b] "2023-06-05" = Ok (false, [b; a]) ∧
  [b; a] ≡ₚ [a; b] ∧ Sorted in_date_order [b; a].
Proof.
  intros a b. split; [done|]. split; [reflexivity|].
  destruct (coverage_ok_sorts_in_place (H := sample_runtime) [a; b]
              "2023-06-05") as [_ Hsorted]; [done|].
  apply (Hsorted false). reflexivity.
Defined.

Lemma coverage_ok_iff_witness :
  let a := History.point "2024-06-04" (Fin 2) in
  let b := History.point "2024-06-03" (Fin 1) in
  (Forall str_dated [a; b] ∧
   ∃ r data', coverage_ok (H := sample_runtime) [a; b] "2023-06-05"
              = Ok (r, data')) ∧
  (∃ data', coverage_ok (H := sample_runtime) (a :: replicate 199 a)
              "2024-06-04" = Ok (true, data')) ∧
  ¬ (∃ data', coverage_ok (H := sample_runtime) (b :: replicate 199 b)
                "2024-06-03" = Ok (true, data')).
Proof.
  intros a b.
  destruct (coverage_ok_iff (H := sample_runtime)) as (_ & Hiff & Hret).
  assert (∀ x s, x !! "date" = Some (PyStr s) →
            earliest (x :: replicate 199 x) s ∧
            latest (x :: replicate 199 x) s) as Hsame.
  { intros x s Hx. split.
    - split; [exists x; split; [apply list_elem_of_here|done]|].
      intros it [->|[-> _]%elem_of_replicate]%elem_of_cons; by exists s.
    - split; [exists x; split; [apply list_elem_of_here|done]|].
      intros it [->|[-> _]%elem_of_replicate]%elem_of_cons; by exists s. }
  split; [|split].
  - assert (Forall str_dated [a; b]) as Hd.
    { repeat constructor; eexists; reflexivity. }
    split; [exact Hd|]. by apply Hret.
  - apply Hiff. split.
    + rewrite length_cons, length_replicate. lia.
    + destruct (Hsame a "2024-06-04" eq_refl) as [He Hl].
      exists "2024-06-04", "2024-06-04".
      split; [exact He|]. split; [exact Hl|]. split; [done|].
      by exists 1%Z.
  - intros Htrue. apply Hiff in Htrue as (_ & s & t & _ & Hl & _ & d & Hd & Hc).
    destruct (Hsame b "2024-06-03" eq_refl) as [_ Hl'].
    assert (t = "2024-06-03") as -> by by eapply latest_unique.
    injection Hd as <-. by compute in Hc.
Defined.

(** ** [sort_dedup] and the merge with the empty series *)

Section sort_dedup_facts.
Context {V : Type} `{!Inhabited V}.
Variable entry : item → option (string * V).
Variable render : string → V → item.

Hypothesis entry_render :
  ∀ it d v, entry it = Some (d, v) → entry (render d v) = Some (d, v).
Hypothesis entry_date :
  ∀ it d v, entry it = Some (d, v) → it !! "date" = Some (PyStr d).

Lemma merge_by_render_dict old new :
  merge_by entry render old new = render_dict render (merged_dict entry old new).
Proof. reflexivity. Qed.

Lemma kept_by_canonical S : Forall (canonical entry render) (kept_by entry render S).
Proof.
  apply Forall_forall. intros r Hr.
  apply list_elem_of_omap in Hr as (it & _ & Hit).
  destruct (entry it) as [[d v]|] eqn:E; [|done].
  simpl in Hit. injection Hit as <-. exists d, v. split; [|done].
  by eapply entry_render.
Qed.

Lemma canonical_str_dated r : canonical entry render r → str_dated r.
Proof. intros (d & v & Hr & _). exists d. by eapply entry_date. Qed.

Lemma kept_by_cons it S :
  kept_by entry render (it :: S) =
    match entry it with
    | Some (d, v) => render d v :: kept_by entry render S
    | None => kept_by entry render S
    end.
Proof. unfold kept_by. simpl. by destruct (entry it) as [[]|]. Qed.

Lemma last_entry_kept_by S d :
  last_entry entry (kept_by entry render S) d = last_entry entry S d.
Proof.
  induction S as [|it S IH]; [done|].
  rewrite kept_by_cons. cbn [last_entry].
  destruct (entry it) as [[d' v]|] eqn:E.
  - cbn [last_entry]. by rewrite IH, (entry_render _ _ _ E).
  - rewrite IH. by destruct (last_entry entry S d).
Qed.

Lemma py_lt_str_ne s t : py_lt (PyStr s) (PyStr t) = Ok true → s ≠ t.
Proof.
  simpl. intros [= Hlt] ->. by rewrite string_ltb_irrefl in Hlt.
Qed.

(** The sort is stable: the last record of a date stays the last. *)
Lemma insert_keyed_last_entry kx x l r d :
  keyed (kx, x) → Forall keyed l → insert_keyed kx x l = Ok r →
  last_entry entry r.*2 d = last_entry entry (x :: l.*2) d.
Proof.
  intros Hx Hl. revert r. induction Hl as [|[ky y] l Hy Hl IH]; intros r.
  - simpl. by intros [= <-].
  - cbn [insert_keyed]. intros Hr. apply bind_Ok in Hr as (lt & Hlt & Hr).
    destruct lt.
    + apply bind_Ok in Hr as (r' & Hr' & [= <-]).
      rewrite !fmap_cons. cbn [last_entry snd].
      rewrite (IH _ Hr'). cbn [last_entry].
      destruct (last_entry entry l.*2 d) as [w|]; [done|].
      destruct (entry x) as [[dx vx]|] eqn:Ex,
               (entry y) as [[dy vy]|] eqn:Ey;
        repeat case_decide; try done.
      subst dx dy. exfalso. apply entry_date in Ex, Ey.
      unfold keyed in Hx, Hy. simpl in Hx, Hy.
      rewrite Ex in Hx. rewrite Ey in Hy. simplify_eq.
      by eapply py_lt_str_ne.
    + by simplify_eq.
Qed.

Lemma sort_keyed_last_entry l r d :
  Forall keyed l → sort_keyed l = Ok r →
  last_entry entry r.*2 d = last_entry entry l.*2 d.
Proof.
  intros Hl. revert r. induction Hl as [|[kx x] l Hx Hl IH]; intros r.
  - simpl. by intros [= <-].
  - cbn [sort_keyed]. intros Hr. apply bind_Ok in Hr as (r' & Hr' & Hr).
    assert (Forall keyed r') as Hk.
    { apply sort_keyed_Permutation in Hr'. by rewrite Hr'. }
    rewrite (insert_keyed_last_entry _ _ _ _ d Hx Hk Hr).
    rewrite fmap_cons. cbn [last_entry snd]. by rewrite (IH _ Hr').
Qed.

Lemma sort_by_date_last_entry data data' d :
  sort_by_date data = Ok data' →
  last_entry entry data' d = last_entry entry data d.
Proof.
  unfold sort_by_date. intros Hd.
  apply bind_Ok in Hd as (l0 & Hl0 & Hd).
  apply bind_Ok in Hd as (l & Hl & [= <-]).
  apply mapM_keyed in Hl0 as [<- Hk].
  by apply sort_keyed_last_entry.
Qed.

Lemma render_dict_empty : render_dict render (∅ : gmap string V) = [].
Proof. unfold render_dict, sorted_keys. by rewrite map_to_list_empty. Qed.

Lemma render_dict_insert_min (m : gmap string V) d v :
  (∀ k, is_Some (m !! k) → String.ltb d k = true) →
  render_dict render (<[d := v]> m) = render d v :: render_dict render m.
Proof.
  intros Hmin.
  assert (m !! d = None) as Hd.
  { apply eq_None_not_Some. intros Hs. apply Hmin in Hs.
    by rewrite string_ltb_irrefl in Hs. }
  assert (sorted_keys (<[d := v]> m) = d :: sorted_keys m) as Hk.
  { apply strictly_ascending_unique.
    - apply sorted_keys_ascending.
    - constructor; [apply sorted_keys_ascending|].
      apply Forall_forall. intros k Hk. by apply Hmin, elem_of_sorted_keys.
    - intros k. rewrite elem_of_cons, !elem_of_sorted_keys.
      rewrite lookup_insert_is_Some. split.
      + intros [->|[_ ?]]; auto.
      + intros [->|Hs]; [by left|]. right. split; [|done].
        intros ->. rewrite Hd in Hs. by destruct Hs. }
  unfold render_dict. rewrite Hk, fmap_cons, lookup_total_insert_eq.
  f_equal. apply list_fmap_ext. intros i k Hi.
  rewrite lookup_total_insert_ne; [done|].
  intros ->. apply list_elem_of_lookup_2, elem_of_sorted_keys in Hi.
  rewrite Hd in Hi. by destruct Hi.
Qed.

Lemma merged_dict_cons_dup r L d v :
  entry r = Some (d, v) → is_Some (merged_dict entry L [] !! d) →
  merged_dict entry (r :: L) [] = merged_dict entry L [].
Proof.
  intros Hr [w Hw]. apply map_eq. intros k.
  rewrite !lookup_merged_dict_app, !app_nil_r in *. cbn [last_entry].
  rewrite Hr. destruct (last_entry entry L k) as [u|] eqn:E; [done|].
  case_decide; [|done]. subst k. by rewrite E in Hw.
Qed.

Lemma merged_dict_cons_new r L d v :
  entry r = Some (d, v) → merged_dict entry L [] !! d = None →
  merged_dict entry (r :: L) [] = <[d := v]> (merged_dict entry L []).
Proof.
  intros Hr Hn. apply map_eq. intros k.
  rewrite lookup_insert, !lookup_merged_dict_app, !app_nil_r in *.
  cbn [last_entry]. rewrite Hr.
  case_decide as Hk.
  - subst k. by rewrite Hn.
  - by destruct (last_entry entry L k).
Qed.

Lemma same_date_str a b s t :
  a !! "date" = Some (PyStr s) → b !! "date" = Some (PyStr t) →
  same_date a b = bool_decide (s = t).
Proof.
  intros Ha Hb. unfold same_date, get. rewrite Ha, Hb. simpl.
  apply string_eqb_eq.
Qed.

(** Deduplicating a sorted series of emitted records reads the dict it
    fills. *)
Lemma dedup_by_date_sorted L :
  Forall (canonical entry render) L → Sorted in_date_order L →
  dedup_by_date L = render_dict render (merged_dict entry L []).
Proof.
  induction L as [|r L IH]; intros Hc Hs.
  { change (merged_dict entry [] []) with (∅ : gmap string V).
    by rewrite render_dict_empty. }
  apply Forall_cons in Hc as [(d & v & Hr & Hrd) Hc].
  pose proof (entry_date _ _ _ Hr) as Hd.
  destruct (in_date_order_str r L) as [Hs' Hdated]; [by exists d|done|].
  apply Sorted_StronglySorted in Hs'; [|apply _].
  apply Sorted_inv in Hs as [Hs _]. specialize (IH Hc Hs).
  apply StronglySorted_inv in Hs' as [HsL Hall].
  destruct L as [|y L].
  { cbn [dedup_by_date].
    rewrite (merged_dict_cons_new _ _ _ _ Hr) by done.
    change (merged_dict entry [] []) with (∅ : gmap string V).
    rewrite render_dict_insert_min, render_dict_empty, Hrd; [done|].
    intros k [? Hk]. by rewrite lookup_empty in Hk. }
  pose proof Hc as Hc'. apply Forall_cons in Hc' as [(dy & vy & Hy & _) _].
  pose proof (entry_date _ _ _ Hy) as Hdy.
  change (dedup_by_date (r :: y :: L)) with
    (if same_date r y then dedup_by_date (y :: L)
     else r :: dedup_by_date (y :: L)).
  rewrite (same_date_str _ _ _ _ Hd Hdy), IH.
  case_bool_decide as Heq.
  - subst dy. rewrite (merged_dict_cons_dup _ _ _ _ Hr); [done|].
    apply merged_dict_Some. exists y, vy. split; [|done].
    rewrite app_nil_r. apply list_elem_of_here.
  - assert (∀ k, is_Some (merged_dict entry (y :: L) [] !! k) →
                 String.ltb d k = true) as Hmin.
    { intros k (it & w & Hin & Hit)%merged_dict_Some.
      rewrite app_nil_r in Hin. apply entry_date in Hit.
      assert (String.le d dy) as Hddy.
      { apply Forall_cons in Hall as [(s & t & Ha & Hb & Hle) _].
        rewrite Hd in Ha. rewrite Hdy in Hb. by simplify_eq. }
      assert (String.le dy k) as Hdyk.
      { apply elem_of_cons in Hin as [->|Hin].
        - rewrite Hdy in Hit. by simplify_eq.
        - apply StronglySorted_inv in HsL as [_ HallL].
          eapply Forall_forall in HallL; [|exact Hin].
          destruct HallL as (s & t & Ha & Hb & Hle).
          rewrite Hdy in Ha. rewrite Hit in Hb. by simplify_eq. }
      apply string_ltb_le_ne. split; [by etrans|].
      intros ->. apply Heq. by apply (anti_symm String.le). }
    rewrite (merged_dict_cons_new _ _ _ _ Hr).
    + by rewrite render_dict_insert_min, Hrd.
    + apply eq_None_not_Some. intros Hsome. apply Hmin in Hsome.
      by rewrite string_ltb_irrefl in Hsome.
Qed.

(** The reference function on the accepted records is the merge with the
    empty series. *)
Lemma sort_dedup_kept_by S :
  sort_dedup (kept_by entry render S) = Ok (merge_by entry render S []).
Proof.
  pose proof (kept_by_canonical S) as Hc.
  destruct (sort_by_date_str (kept_by entry render S)) as [K' HK'].
  { eapply Forall_impl; [exact Hc|]. apply canonical_str_dated. }
  unfold sort_dedup. rewrite HK', bind_Ok_l. f_equal.
  pose proof (sort_by_date_sorted _ _ HK') as [Hp Hs].
  rewrite dedup_by_date_sorted; [|by rewrite Hp|done].
  rewrite merge_by_render_dict. f_equal.
  apply map_eq. intros d.
  rewrite !lookup_merged_dict_app, !app_nil_r.
  rewrite (sort_by_date_last_entry _ _ d HK'). apply last_entry_kept_by.
Qed.

End sort_dedup_facts.

Lemma get_PyStr (it : item) k s : get it k = PyStr s → it !! k = Some (PyStr s).
Proof. unfold get. destruct (it !! k) as [v|]; simpl; [by intros ->|done]. Qed.

Lemma point_of_date (it : item) d c :
  History.point_of it = Some (d, c) → it !! "date" = Some (PyStr d).
Proof.
  unfold History.point_of. destruct (get it "date") as [| |s|] eqn:E; try done.
  destruct (get it "close"); try done. intros [= <- <-].
  by apply get_PyStr.
Qed.

Lemma candle_of_date `{Builtins} (it : item) d k :
  Ohlc.candle_of it = Some (d, k) → it !! "date" = Some (PyStr d).
Proof.
  unfold Ohlc.candle_of. destruct (Ohlc.normalize it) as [k'|] eqn:E; [|done].
  simpl. intros [= <- <-]. by apply get_PyStr, normalize_date.
Qed.

(** C4, as first stated, fails in both pipelines: the close-only merge
    drops a record whose close is null, and the OHLC merge fills in a
    record that only has a close. *)
Lemma merge_empty_not_sort_dedup :
  let r : item := {[ "date" := PyStr "2023-01-03"; "close" := PyNone ]} in
  let p : item := History.point "2023-01-03" (Fin 5) in
  (sort_dedup [r] = Ok [r] ∧ History.merge_history [r] [] = []) ∧
  (sort_dedup [p] = Ok [p] ∧
   Ohlc.merge_history (H := sample_runtime) [p] []
   = [candle_item (Candle "2023-01-03" (Fin 5) (Fin 5) (Fin 5) (Fin 5))] ∧
   candle_item (Candle "2023-01-03" (Fin 5) (Fin 5) (Fin 5) (Fin 5)) ≠ p).
Proof.
  intros r p. repeat split; try reflexivity.
  intros Heq. assert (get p "open" = PyNum (Fin 5)) as Hp by by rewrite <- Heq.
  discriminate Hp.
Qed.

(** C4, amended: for every series [S], merging [S] with the empty series
    is [sort_dedup] of the records of [S] that the merge keeps (those with
    a string date and a numeric close; in the OHLC pipeline the normalized
    candles), deduplication keeping the last record of a date; so
    [merge(S, []) = sort_dedup(S)] when [S] only holds such records. *)
Theorem merge_empty_sort_dedup `{Builtins} (S : list item) :
  sort_dedup (history_kept S) = Ok (History.merge_history S []) ∧
  sort_dedup (ohlc_kept S) = Ok (Ohlc.merge_history S []) ∧
  (history_kept S = S → sort_dedup S = Ok (History.merge_history S [])) ∧
  (ohlc_kept S = S → sort_dedup S = Ok (Ohlc.merge_history S [])).
Proof.
  assert (sort_dedup (history_kept S) = Ok (History.merge_history S [])) as Hh.
  { rewrite history_merge_by. apply sort_dedup_kept_by.
    - apply point_of_render.
    - apply point_of_date. }
  assert (sort_dedup (ohlc_kept S) = Ok (Ohlc.merge_history S [])) as Ho.
  { rewrite ohlc_merge_by.
    apply (sort_dedup_kept_by Ohlc.candle_of (λ _ k, candle_item k)).
    - apply candle_of_render.
    - apply candle_of_date. }
  split; [done|]. split; [done|]. split.
  - intros Hk. by rewrite Hk in Hh.
  - intros Hk. by rewrite Hk in Ho.
Qed.

Lemma merge_empty_sort_dedup_witness :
  let S := [ History.point "2023-01-04" (Fin 102);
             History.point "2023-01-03" (Fin 100);
             History.point "2023-01-04" (Fin 103) ] in
  history_kept S = S ∧
  sort_dedup S = Ok (History.merge_history S []) ∧
  History.merge_history S []
  = [ History.point "2023-01-03" (Fin 100);
      History.point "2023-01-04" (Fin 103) ].
Proof.
  intros S. split; [reflexivity|]. split; [|reflexivity].
  by apply (merge_empty_sort_dedup (H := sample_runtime) S).
Defined.

(** ** The provider fallback *)

Section fallback_facts.
Variable answer : provider → result (list item).

Lemma attempt_absent p st :
  absent (answer p) → st.1 = [] →
  attempt p answer st = ([], st.2 ++ [p]).
Proof.
  intros [Hp|[e Hp]] Hst; unfold attempt; rewrite Hp; simpl; by rewrite ?Hst.
Qed.

Lemma guarded_attempt_nil (g : bool) p st :
  absent (answer p) → st.1 = [] →
  (if g then attempt p answer st else st).1 = [].
Proof.
  intros Hp Hst. destruct g; [|done]. by rewrite attempt_absent.
Qed.

Lemma guarded_attempt_prefix (g : bool) p st l :
  l `prefix_of` st.2 → l `prefix_of` (if g then attempt p answer st else st).2.
Proof.
  intros Hl. destruct g; [|done]. simpl. by apply prefix_app_r.
Qed.

Lemma fetch_fresh_absent cfg sym market :
  (∀ p, absent (answer p)) → (fetch_fresh cfg sym market answer).1 = [].
Proof.
  intros Ha. unfold fetch_fresh. cbv zeta.
  repeat (apply guarded_attempt_nil; [apply Ha|]). done.
Qed.

Lemma fetch_fresh_worker_absent cfg sym market :
  use_worker cfg = true → absent (answer Worker) →
  [Worker; Yahoo] `prefix_of` (fetch_fresh cfg sym market answer).2.
Proof.
  intros Hw Ha. unfold fetch_fresh. cbv zeta. rewrite Hw.
  rewrite (attempt_absent Worker) by done.
  do 4 apply guarded_attempt_prefix. done.
Qed.

End fallback_facts.

Section worker_facts.
Context `{Builtins}.

Lemma history_worker_404 r :
  status_code r = 404%Z → History.fetch_daily_worker true r = Ok [].
Proof. unfold History.fetch_daily_worker. by intros ->. Qed.

Lemma ohlc_worker_404 r :
  status_code r = 404%Z → Ohlc.fetch_daily_worker true r = Ok [].
Proof. unfold Ohlc.fetch_daily_worker. by intros ->. Qed.

Lemma history_worker_nonempty r out :
  status_code r ≠ 404%Z → History.fetch_daily_worker true r = Ok out → out ≠ [].
Proof.
  unfold History.fetch_daily_worker. intros Hs. cbn [negb].
  destruct (status_code r =? 404)%Z eqn:E; [by apply Z.eqb_eq in E|].
  intros Hr. apply bind_Ok in Hr as (_ & _ & Hr).
  apply bind_Ok in Hr as (data & _ & Hr).
  apply bind_Ok in Hr as (o & _ & Hr).
  destruct o; [done|]. by simplify_eq.
Qed.

Lemma ohlc_worker_nonempty r out :
  status_code r ≠ 404%Z → Ohlc.fetch_daily_worker true r = Ok out → out ≠ [].
Proof.
  unfold Ohlc.fetch_daily_worker. intros Hs. cbn [negb].
  destruct (status_code r =? 404)%Z eqn:E; [by apply Z.eqb_eq in E|].
  intros Hr. apply bind_Ok in Hr as (_ & _ & Hr).
  apply bind_Ok in Hr as (data & _ & Hr).
  apply bind_Ok in Hr as (o & _ & Hr).
  destruct o; [done|]. by simplify_eq.
Qed.

Lemma worker_empty_array r :
  status_code r = 200%Z → body r = JsonList [] →
  History.fetch_daily_worker true r = Raise RuntimeError ∧
  Ohlc.fetch_daily_worker true r = Raise RuntimeError.
Proof.
  intros Hs Hb.
  unfold History.fetch_daily_worker, Ohlc.fetch_daily_worker,
    raise_for_status, json_list.
  by rewrite Hs, Hb.
Qed.

End worker_facts.

(** C7, as first stated, fails for the proxy adapter: an empty result
    array is a raised [RuntimeError], not an empty series. *)
Lemma worker_empty_array_raises :
  History.fetch_daily_worker true {| status_code := 200; body := JsonList [] |}
    = Raise RuntimeError ∧
  Ohlc.fetch_daily_worker (H := sample_runtime) true
    {| status_code := 200; body := JsonList [] |} = Raise RuntimeError.
Proof. split; reflexivity. Qed.

(** C7, amended: an HTTP 404 from the proxy is an empty series, not an
    error; any other answer of the proxy that yields no usable point, an
    empty result array in particular, is a raised [RuntimeError], which the
    orchestrator catches.  Either way, and for every provider that returns
    an empty series or raises, [fresh] stays empty and the orchestration
    goes on: after the proxy, the next provider is called. *)
Theorem no_data_falls_through `{Builtins} (r : response) (cfg : config)
  (sym market : string) (answer : provider → result (list item)) :
  (status_code r = 404%Z →
     History.fetch_daily_worker true r = Ok [] ∧
     Ohlc.fetch_daily_worker true r = Ok []) ∧
  (status_code r ≠ 404%Z →
     History.fetch_daily_worker true r ≠ Ok [] ∧
     Ohlc.fetch_daily_worker true r ≠ Ok []) ∧
  (status_code r = 200%Z → body r = JsonList [] →
     History.fetch_daily_worker true r = Raise RuntimeError ∧
     Ohlc.fetch_daily_worker true r = Raise RuntimeError) ∧
  (∀ p st (guard : bool), absent (answer p) → st.1 = [] →
     (if guard then attempt p answer st else st).1 = []) ∧
  (use_worker cfg = true → absent (answer Worker) →
     [Worker; Yahoo] `prefix_of` (fetch_fresh cfg sym market answer).2).
Proof.
  split; [|split; [|split; [|split]]].
  - intros Hs. split; [by apply history_worker_404|by apply ohlc_worker_404].
  - intros Hs. split; intros Hr.
    + by eapply history_worker_nonempty.
    + by eapply ohlc_worker_nonempty.
  - apply worker_empty_array.
  - intros p st guard. apply guarded_attempt_nil.
  - apply fetch_fresh_worker_absent.
Qed.

Lemma no_data_falls_through_witness :
  let r404 := {| status_code := 404; body := NotJson |} in
  let r200 := {| status_code := 200; body := JsonList [] |} in
  let cfg := {| use_worker := true; token := false; av_key := false |} in
  let answer := λ p,
    match p with
    | Worker => History.fetch_daily_worker true r200
    | _ => Ok []
    end in
  History.fetch_daily_worker true r404 = Ok [] ∧
  History.fetch_daily_worker true r200 ≠ Ok [] ∧
  History.fetch_daily_worker true r200 = Raise RuntimeError ∧
  (attempt Worker answer ([], [])).1 = [] ∧
  [Worker; Yahoo] `prefix_of` (fetch_fresh cfg "AAPL" "US" answer).2.
Proof.
  intros r404 r200 cfg answer.
  assert (absent (answer Worker)) as Ha by (right; by eexists).
  destruct (no_data_falls_through (H := sample_runtime) r404 cfg "AAPL" "US"
              answer) as (H404 & _).
  destruct (no_data_falls_through (H := sample_runtime) r200 cfg "AAPL" "US"
              answer) as (_ & Hne & H200 & Hatt & Hnext).
  split; [by apply H404|]. split; [by apply Hne|].
  split; [by apply H200|].
  split; [by apply (Hatt Worker ([], []) true)|]. by apply Hnext.
Defined.

(** ** No data from any provider *)

Lemma str_lt_in_date_order a b : str_lt a b → in_date_order a b.
Proof.
  intros (s & t & Ha & Hb & Hlt). exists (PyStr s), (PyStr t).
  split; [done|]. split; [done|]. simpl. f_equal.
  by apply string_ltb_asym.
Qed.

Lemma Sorted_str_lt_in_date_order L :
  Sorted str_lt L → Sorted in_date_order L.
Proof.
  induction 1 as [|a L HL IH Hhd]; constructor; [done|].
  destruct Hhd; constructor. by apply str_lt_in_date_order.
Qed.

Lemma dedup_by_date_strict L : Sorted str_lt L → dedup_by_date L = L.
Proof.
  induction 1 as [|a L HL IH Hhd]; [done|].
  destruct Hhd as [|b L (s & t & Ha & Hb & Hlt)]; [done|].
  change (dedup_by_date (a :: b :: L)) with
    (if same_date a b then dedup_by_date (b :: L)
     else a :: dedup_by_date (b :: L)).
  rewrite (same_date_str _ _ _ _ Ha Hb), IH.
  rewrite bool_decide_false; [done|].
  intros ->. by rewrite string_ltb_irrefl in Hlt.
Qed.

Section untouched.
Context {V : Type} `{!Inhabited V}.
Variable entry : item → option (string * V).
Variable render : string → V → item.
Hypothesis entry_render :
  ∀ it d v, entry it = Some (d, v) → entry (render d v) = Some (d, v).
Hypothesis entry_date :
  ∀ it d v, entry it = Some (d, v) → it !! "date" = Some (PyStr d).

(** A series of emitted records in strictly ascending order of date is
    what merging it with the empty series returns. *)
Lemma merge_by_well_formed L :
  kept_by entry render L = L → Sorted str_lt L →
  merge_by entry render L [] = L.
Proof.
  intros Hk Hs. rewrite merge_by_render_dict.
  rewrite <- (dedup_by_date_sorted entry render entry_date).
  - by apply dedup_by_date_strict.
  - rewrite <- Hk. by apply kept_by_canonical.
  - by apply Sorted_str_lt_in_date_order.
Qed.

(** Sorting the series first does not change the merge. *)
Lemma merge_by_sorted data data' new :
  sort_by_date data = Ok data' →
  merge_by entry render data' new = merge_by entry render data new.
Proof.
  intros Hs. rewrite !merge_by_render_dict. f_equal.
  apply map_eq. intros d. rewrite !lookup_merged_dict.
  by rewrite (sort_by_date_last_entry entry entry_date _ _ d Hs).
Qed.

Context `{Builtins}.
Variable merge_history : list item → list item → list item.
Hypothesis merge_history_merge_by :
  ∀ old new, merge_history old new = merge_by entry render old new.

Lemma coverage_ok_false_sort existing m existing' :
  coverage_ok existing m = Ok (false, existing') →
  (existing = [] ∧ existing' = []) ∨
  (existing ≠ [] ∧ existing' ≠ [] ∧ sort_by_date existing = Ok existing').
Proof.
  destruct existing as [|x data].
  - intros [= <-]. by left.
  - intros Hc. right. apply coverage_ok_inv in Hc as [Hs _].
    split; [done|]. split; [|done].
    apply sort_by_date_sorted in Hs as [Hp _].
    intros ->. by apply Permutation_nil_cons in Hp.
Qed.

Lemma main_symbol_no_data cfg answer fs sym market existing' :
  coverage_ok (load_existing fs sym) (isoformat (today - 365))
    = Ok (false, existing') →
  (∀ p, absent (answer p)) →
  (main_symbol_with merge_history cfg answer fs sym market).1 =
    if is_nil (load_existing fs sym) then fs
    else <[sym := merge_history (load_existing fs sym) []]> fs.
Proof.
  intros Hc Ha. unfold main_symbol_with. rewrite Hc.
  pose proof (fetch_fresh_absent answer cfg sym market Ha) as Hf.
  destruct (fetch_fresh cfg sym market answer) as [fresh tried].
  simpl in Hf. subst fresh.
  apply coverage_ok_false_sort in Hc as [[-> ->]|(Hne & Hne' & Hs)]; [done|].
  destruct existing' as [|x' e']; [done|].
  destruct (load_existing fs sym) as [|x e]; [done|].
  cbn [is_nil andb fst]. rewrite !merge_history_merge_by.
  by rewrite (merge_by_sorted _ _ _ Hs).
Qed.

Lemma main_symbol_no_data_spec cfg answer fs sym market :
  (∀ p, absent (answer p)) →
  (∀ existing',
     coverage_ok (load_existing fs sym) (isoformat (today - 365))
       = Ok (false, existing') →
     load_existing fs sym ≠ [] →
     (main_symbol_with merge_history cfg answer fs sym market).1
       = <[sym := merge_history (load_existing fs sym) []]> fs ∧
     (kept_by entry render (load_existing fs sym) = load_existing fs sym →
      Sorted str_lt (load_existing fs sym) →
      (main_symbol_with merge_history cfg answer fs sym market).1 = fs)) ∧
  (fs !! sym = None →
     (main_symbol_with merge_history cfg answer fs sym market).1 = fs).
Proof.
  intros Ha. split.
  - intros existing' Hc Hne.
    rewrite (main_symbol_no_data _ _ _ _ _ _ Hc Ha).
    destruct (load_existing fs sym) as [|x e] eqn:Hl; [done|].
    split; [done|]. intros Hk Hs. cbn [is_nil].
    rewrite merge_history_merge_by, (merge_by_well_formed _ Hk Hs).
    apply insert_id. unfold load_existing in Hl.
    destruct (fs !! sym) as [l|]; simpl in Hl; by subst.
  - intros Hn.
    assert (load_existing fs sym = []) as Hl.
    { unfold load_existing. by rewrite Hn. }
    rewrite (main_symbol_no_data cfg answer fs sym market []); [|by rewrite Hl|done].
    by rewrite Hl.
Qed.

End untouched.

(** C3, as first stated, fails: with no data from any adapter, an
    existing series that fails the coverage check is written back through
    the merge, which here drops the record whose close is null. *)
Lemma existing_artifact_rewritten :
  let kept := History.point "2024-06-03" (Fin 1) in
  let null : item := {[ "date" := PyStr "2024-06-04"; "close" := PyNone ]} in
  let fs : gmap string (list item) := {[ "AAPL" := [kept; null] ]} in
  let cfg := {| use_worker := true; token := true; av_key := true |} in
  coverage_ok (H := sample_runtime) [kept; null] "2023-06-05"
    = Ok (false, [kept; null]) ∧
  (History.main_symbol (H := sample_runtime) cfg (λ _, Ok []) fs "AAPL" "US").1
    !! "AAPL" = Some [kept] ∧
  fs !! "AAPL" = Some [kept; null].
Proof. repeat split; reflexivity. Qed.

(** C3, amended: for every symbol whose existing series is non-empty and
    fails the coverage check, if every adapter yields no data, the
    orchestrator writes [merge(existing, [])] back as the artifact, which
    leaves the persisted series as it was when it already consists of
    records the merge keeps, in strictly ascending order of date; and if
    no existing series is present, nothing is written for that symbol. *)
Theorem no_data_rewrites_existing `{Builtins} (cfg : config)
  (answer : provider → result (list item))
  (fs : gmap string (list item)) (sym market : string) :
  (∀ p, absent (answer p)) →
  ((∀ existing',
      coverage_ok (load_existing fs sym) (isoformat (today - 365))
        = Ok (false, existing') →
      load_existing fs sym ≠ [] →
      (History.main_symbol cfg answer fs sym market).1
        = <[sym := History.merge_history (load_existing fs sym) []]> fs ∧
      (history_kept (load_existing fs sym) = load_existing fs sym →
       Sorted str_lt (load_existing fs sym) →
       (History.main_symbol cfg answer fs sym market).1 = fs)) ∧
   (fs !! sym = None →
      (History.main_symbol cfg answer fs sym market).1 = fs)) ∧
  ((∀ existing',
      coverage_ok (load_existing fs sym) (isoformat (today - 365))
        = Ok (false, existing') →
      load_existing fs sym ≠ [] →
      (Ohlc.main_symbol cfg answer fs sym market).1
        = <[sym := Ohlc.merge_history (load_existing fs sym) []]> fs ∧
      (ohlc_kept (load_existing fs sym) = load_existing fs sym →
       Sorted str_lt (load_existing fs sym) →
       (Ohlc.main_symbol cfg answer fs sym market).1 = fs)) ∧
   (fs !! sym = None →
      (Ohlc.main_symbol cfg answer fs sym market).1 = fs)).
Proof.
  intros Ha. split.
  - apply (main_symbol_no_data_spec History.point_of History.point);
      [apply point_of_render|apply point_of_date
      |apply history_merge_by|done].
  - apply (main_symbol_no_data_spec Ohlc.candle_of (λ _ k, candle_item k));
      [apply candle_of_render|apply candle_of_date
      |apply ohlc_merge_by|done].
Qed.

Lemma no_data_rewrites_existing_witness :
  let a := History.point "2024-06-03" (Fin 1) in
  let b := History.point "2024-06-04" (Fin 2) in
  let fs : gmap string (list item) := {[ "AAPL" := [a; b] ]} in
  let cfg := {| use_worker := true; token := true; av_key := true |} in
  let answer : provider → result (list item) := λ _, Ok [] in
  (∀ p, absent (answer p)) ∧
  coverage_ok (H := sample_runtime) (load_existing fs "AAPL")
    (@isoformat sample_runtime (@today sample_runtime - 365))
    = Ok (false, [a; b]) ∧
  load_existing fs "AAPL" ≠ [] ∧
  history_kept (load_existing fs "AAPL") = load_existing fs "AAPL" ∧
  Sorted str_lt (load_existing fs "AAPL") ∧
  (History.main_symbol (H := sample_runtime) cfg answer fs "AAPL" "US").1 = fs ∧
  (History.main_symbol (H := sample_runtime) cfg answer fs "MSFT" "US").1 = fs.
Proof.
  intros a b fs cfg answer.
  assert (∀ p, absent (answer p)) as Ha by (intros p; by left).
  assert (Sorted str_lt (load_existing fs "AAPL")) as Hs.
  { repeat constructor. by exists "2024-06-03", "2024-06-04". }
  split; [exact Ha|]. split; [reflexivity|]. split; [done|].
  split; [reflexivity|]. split; [exact Hs|]. split.
  - destruct (no_data_rewrites_existing (H := sample_runtime) cfg answer fs
                "AAPL" "US" Ha) as [[Hex _] _].
    destruct (Hex [a; b]) as [_ Hsame]; [reflexivity|done|].
    apply Hsame; [reflexivity|exact Hs].
  - destruct (no_data_rewrites_existing (H := sample_runtime) cfg answer fs
                "MSFT" "US" Ha) as [[_ Hnone] _].
    apply Hnone. reflexivity.
Defined.

(** ** The quote snapshot *)

Section quotes_facts.
Context `{Builtins}.
Import Quotes.

(** A symbol that is queried without success keeps the last, as_of and
    interval of its previous entry. *)
Lemma settle_carries_forward (prev : gmap string item) (s : string)
  (last : pyfloat) (out : gmap string item) (changed : bool) :
  let old := default ∅ (prev !! s) in
  get old "last" = PyNum last →
  settle prev s None (out, changed)
  = Ok (<[s := entry last (get old "as_of") (get old "interval")]> out,
        changed).
Proof. intros old Hl. unfold settle. fold old. by rewrite Hl. Qed.

(** A symbol without a previous price is left out. *)
Lemma settle_no_previous (prev : gmap string item) (s : string)
  (out : gmap string item) (changed : bool) :
  get (default ∅ (prev !! s)) "last" = PyNone →
  settle prev s None (out, changed) = Ok (out, changed).
Proof. intros Hl. unfold settle. by rewrite Hl. Qed.

End quotes_facts.

(** C8 does not hold of [main]: the output dict starts empty and only
    receives the symbols queried in this run.  When the US market is
    closed (or open with no API key) and a crypto quote changed, the file
    is rewritten without the US symbol, whose previous quote is lost. *)
Theorem closed_market_quote_dropped :
  let aapl := Quotes.entry (Fin 42) (PyStr "2024-01-01T00:00:00Z")
                (PyStr "finnhub") in
  let btc := Quotes.entry (Fin 1) (PyStr "2024-01-01T00:00:00Z")
               (PyStr "yahoo_1d") in
  let btc' := Quotes.entry (Fin 2) (PyStr "2024-06-05T00:00:00Z")
                (PyStr "yahoo_1d") in
  let prev : gmap string item := {[ "AAPL" := aapl; "BTC-USD" := btc ]} in
  let t := {| Quotes.us_list := ["AAPL"]; Quotes.cn_list := [];
              Quotes.eu_list := []; Quotes.jp_list := [];
              Quotes.sa_list := []; Quotes.crypto_list := ["BTC-USD"];
              Quotes.fx_list := []; Quotes.com_list := [];
              Quotes.idx_list := [] |} in
  let closed := {| Quotes.us_open := false; Quotes.cn_open := false;
                   Quotes.eu_open := false; Quotes.jp_open := false;
                   Quotes.sa_open := false; Quotes.fx_open := false;
                   Quotes.idx_open := false |} in
  let us_only := {| Quotes.us_open := true; Quotes.cn_open := false;
                    Quotes.eu_open := false; Quotes.jp_open := false;
                    Quotes.sa_open := false; Quotes.fx_open := false;
                    Quotes.idx_open := false |} in
  let f := {| Quotes.yahoo_last := λ _,
                Some {| Quotes.px := Fin 2;
                        Quotes.ts := "2024-06-05T00:00:00Z";
                        Quotes.src := "yahoo_1d" |};
              Quotes.finnhub_last := λ _, None;
              Quotes.akshare_last := λ _, None |} in
  let expected : gmap string item :=
    {[ "BTC-USD" := btc'; "meta" := Quotes.meta (H := sample_runtime) ]} in
  prev !! "AAPL" = Some aapl ∧
  Quotes.main (H := sample_runtime) true true true prev t closed f
    = Ok (Quotes.Wrote expected) ∧
  Quotes.main (H := sample_runtime) false true true prev t us_only f
    = Ok (Quotes.Wrote expected) ∧
  expected !! "AAPL" = None.
Proof. repeat split; vm_compute; reflexivity. Qed.

(** * Further properties *)

(** ** Further facts on merging by date *)

Section merge_algebra.
Context {V : Type} `{!Inhabited V}.
Variable entry : item → option (string * V).
Variable render : string → V → item.
Hypothesis entry_render :
  ∀ it d v, entry it = Some (d, v) → entry (render d v) = Some (d, v).

(** The dict only depends on the concatenation of the two series. *)
Lemma merged_dict_app (A B C : list item) :
  merged_dict entry A (B ++ C) = merged_dict entry (A ++ B) C.
Proof.
  apply map_eq. intros d. by rewrite !lookup_merged_dict_app, app_assoc.
Qed.

(** Merging a merged series goes on from the dict it was read from. *)
Lemma merged_dict_merge_by (A B C : list item) :
  merged_dict entry (merge_by entry render A B) C
    = merged_dict entry (A ++ B) C.
Proof.
  apply map_eq. intros d.
  rewrite (lookup_merged_dict _ (merge_by entry render A B)).
  rewrite (last_entry_merge_by _ _ entry_render).
  rewrite lookup_merged_dict_app.
  rewrite (lookup_merged_dict _ (A ++ B) C).
  by destruct (last_entry entry C d).
Qed.

Lemma merge_by_incremental (A B C : list item) :
  merge_by entry render (merge_by entry render A B) C
    = merge_by entry render (A ++ B) C
  ∧ merge_by entry render A (B ++ C) = merge_by entry render (A ++ B) C.
Proof.
  split.
  - unfold merge_by at 1 3. by rewrite merged_dict_merge_by.
  - unfold merge_by. by rewrite merged_dict_app.
Qed.

Lemma length_sorted_keys (m : gmap string V) : length (sorted_keys m) = size m.
Proof.
  unfold sorted_keys. rewrite merge_sort_Permutation, length_fmap.
  apply length_map_to_list.
Qed.

Lemma size_foldl_collect (m : gmap string V) (arr : list item) :
  size (foldl (collect_step entry) m arr) ≤ size m + length arr.
Proof.
  revert m. induction arr as [|it arr IH]; intros m; simpl; [lia|].
  etrans; [apply IH|].
  assert (size (collect_step entry m it) ≤ S (size m)); [|lia].
  unfold collect_step. destruct (entry it) as [[d v]|]; [|lia].
  rewrite map_size_insert. destruct (m !! d); simpl; lia.
Qed.

Lemma length_merge_by (old new : list item) :
  length (merge_by entry render old new) ≤ length old + length new.
Proof.
  unfold merge_by. rewrite length_fmap, length_sorted_keys.
  unfold merged_dict.
  etrans; [apply size_foldl_collect|].
  pose proof (size_foldl_collect ∅ old) as Ho.
  rewrite map_size_empty in Ho. lia.
Qed.

(** Two series that accept no common date can be merged in any order. *)
Lemma merge_by_comm (A B : list item) :
  (∀ a b d v w, a ∈ A → b ∈ B →
     entry a = Some (d, v) → entry b = Some (d, w) → False) →
  merge_by entry render A B = merge_by entry render B A.
Proof.
  intros Hdisj. unfold merge_by.
  assert (merged_dict entry A B = merged_dict entry B A) as ->; [|done].
  apply map_eq. intros d. rewrite !lookup_merged_dict.
  destruct (last_entry entry A d) as [v|] eqn:EA,
           (last_entry entry B d) as [w|] eqn:EB; try done.
  apply last_entry_Some_entry in EA as (a & Ha & Hea).
  apply last_entry_Some_entry in EB as (b & Hb & Heb).
  by destruct (Hdisj a b d v w).
Qed.

End merge_algebra.

(** ** Series in strictly ascending order of date *)

(** The list [sort_by_date] sorts: every record with its date. *)
Lemma mapM_keyed_dated (L : list item) :
  Forall str_dated L →
  mapM (λ x, k ← getitem x "date"; Ok (k, x)) L
    = Ok ((λ x, (get x "date", x)) <$> L).
Proof.
  induction 1 as [|x L [s Hs] _ IH]; [done|].
  rewrite mapM_result_cons, (getitem_Some _ _ _ Hs), IH. simpl.
  unfold get at 2. by rewrite Hs.
Qed.

Lemma sort_keyed_ascending (L : list item) :
  Forall str_dated L → Sorted str_lt L →
  sort_keyed ((λ x, (get x "date", x)) <$> L)
    = Ok ((λ x, (get x "date", x)) <$> L).
Proof.
  intros Hd Hs. induction Hs as [|a L Hs IH Hhd]; [done|].
  apply Forall_cons in Hd as [_ Hd].
  rewrite fmap_cons. cbn [sort_keyed]. rewrite IH by done. simpl.
  destruct Hhd as [|b L (s & t & Ha & Hb & Hlt)]; [done|].
  rewrite fmap_cons. cbn [insert_keyed].
  unfold get. rewrite Ha, Hb. simpl.
  by rewrite (string_ltb_asym _ _ Hlt).
Qed.

(** Sorting a series that is in strictly ascending order of date returns
    it as it is. *)
Lemma sort_by_date_ascending (L : list item) :
  Forall str_dated L → Sorted str_lt L → sort_by_date L = Ok L.
Proof.
  intros Hd Hs. unfold sort_by_date.
  rewrite (mapM_keyed_dated _ Hd), bind_Ok_l.
  rewrite (sort_keyed_ascending _ Hd Hs), bind_Ok_l.
  f_equal. rewrite <- list_fmap_compose. apply list_fmap_id.
Qed.

Lemma coverage_ok_ascending `{Builtins} (L : list item) (m : string) :
  Forall str_dated L → Sorted str_lt L →
  ∃ b, coverage_ok L m = Ok (b, L).
Proof.
  intros Hd Hs. destruct L as [|x0 r]; [by exists false|].
  pose proof (sort_by_date_ascending _ Hd Hs) as Hsort.
  destruct (last (x0 :: r)) as [xn|] eqn:Hn; [|by apply last_None in Hn].
  assert (str_dated x0) as [s Hx0].
  { eapply Forall_forall; [exact Hd|apply list_elem_of_here]. }
  assert (str_dated xn) as [t Hxn].
  { eapply Forall_forall; [exact Hd|by eapply last_Some_elem_of]. }
  rewrite (coverage_ok_sorted _ _ _ _ _ _ _ _ Hsort Hn Hx0 Hxn).
  by eexists.
Qed.

(** A series whose dates are strictly ascending strings. *)
Lemma dates_ascending_str_lt (L : list item) (ds : list string) :
  (λ r, get r "date") <$> L = PyStr <$> ds → strictly_ascending ds →
  Forall str_dated L ∧ Sorted str_lt L.
Proof.
  revert ds. induction L as [|a L IH]; intros ds Heq Hds.
  { split; constructor. }
  destruct ds as [|d ds]; [done|].
  rewrite !fmap_cons in Heq. injection Heq as Ha Heq.
  apply StronglySorted_inv in Hds as [Hds Hall].
  destruct (IH _ Heq Hds) as [Hd Hs].
  apply get_PyStr in Ha.
  split; [constructor; [by exists d|done]|].
  constructor; [done|].
  destruct L as [|b L]; [constructor|].
  destruct ds as [|e ds]; [done|].
  rewrite !fmap_cons in Heq. injection Heq as Hb _.
  apply get_PyStr in Hb. constructor. exists d, e.
  split; [done|]. split; [done|].
  by apply Forall_cons in Hall as [? _].
Qed.

Section merge_by_order.
Context {V : Type} `{!Inhabited V}.
Variable entry : item → option (string * V).
Variable render : string → V → item.
Hypothesis render_date :
  ∀ it d v, entry it = Some (d, v) → get (render d v) "date" = PyStr d.

Lemma merge_by_ascending (old new : list item) :
  Forall str_dated (merge_by entry render old new) ∧
  Sorted str_lt (merge_by entry render old new).
Proof.
  eapply dates_ascending_str_lt.
  - by apply merge_by_dates.
  - apply sorted_keys_ascending.
Qed.

End merge_by_order.

Lemma history_merge_ascending (old new : list item) :
  Forall str_dated (History.merge_history old new) ∧
  Sorted str_lt (History.merge_history old new).
Proof.
  rewrite history_merge_by. apply merge_by_ascending.
  intros it d c _. apply get_point_date.
Qed.

Lemma candle_of_render_date `{Builtins} (it : item) d k :
  Ohlc.candle_of it = Some (d, k) → get (candle_item k) "date" = PyStr d.
Proof.
  unfold Ohlc.candle_of. destruct (Ohlc.normalize it) as [k'|]; [|done].
  simpl. intros [= <- <-]. by destruct k'.
Qed.

Lemma ohlc_merge_ascending `{Builtins} (old new : list item) :
  Forall str_dated (Ohlc.merge_history old new) ∧
  Sorted str_lt (Ohlc.merge_history old new).
Proof.
  rewrite ohlc_merge_by.
  apply (merge_by_ascending Ohlc.candle_of (λ _ k, candle_item k)).
  apply candle_of_render_date.
Qed.

(** X1: merging in steps is merging in one go. Merging the result of a
    merge with a third series, or merging a series with the concatenation
    of two, gives the merge of the concatenation of the first two with the
    third, for the close-only and for the OHLC series: a history built up
    run after run is the one a single merge of all the fetched points
    gives. *)
Theorem merge_history_incremental `{Builtins} (A B C : list item) :
  (History.merge_history (History.merge_history A B) C
     = History.merge_history (A ++ B) C ∧
   History.merge_history A (B ++ C) = History.merge_history (A ++ B) C) ∧
  (Ohlc.merge_history (Ohlc.merge_history A B) C
     = Ohlc.merge_history (A ++ B) C ∧
   Ohlc.merge_history A (B ++ C) = Ohlc.merge_history (A ++ B) C).
Proof.
  split.
  - rewrite !history_merge_by. apply merge_by_incremental, point_of_render.
  - rewrite !ohlc_merge_by.
    apply (merge_by_incremental Ohlc.candle_of (λ _ k, candle_item k)).
    apply candle_of_render.
Qed.

(** X2: a merge never invents records. The merged series is not longer
    than the two series together, in both variants. *)
Theorem merge_history_length `{Builtins} (old new : list item) :
  length (History.merge_history old new) ≤ length old + length new ∧
  length (Ohlc.merge_history old new) ≤ length old + length new.
Proof.
  rewrite history_merge_by, ohlc_merge_by. split; apply length_merge_by.
Qed.

(** X3: the order of the two series only matters on the dates they
    share. When no date is read from a record of the one and from a record
    of the other, merging them either way round gives the same series, in
    both variants. *)
Theorem merge_history_comm `{Builtins} (A B : list item) :
  ((∀ a b d v w, a ∈ A → b ∈ B →
      History.point_of a = Some (d, v) → History.point_of b = Some (d, w) →
      False) →
   History.merge_history A B = History.merge_history B A) ∧
  ((∀ a b d v w, a ∈ A → b ∈ B →
      Ohlc.candle_of a = Some (d, v) → Ohlc.candle_of b = Some (d, w) →
      False) →
   Ohlc.merge_history A B = Ohlc.merge_history B A).
Proof.
  rewrite !history_merge_by, !ohlc_merge_by. split; apply merge_by_comm.
Qed.

Lemma merge_history_comm_witness :
  let a := History.point "2023-01-03" (Fin 1) in
  let b := History.point "2023-01-04" (Fin 2) in
  History.merge_history [a] [b] = History.merge_history [b] [a].
Proof.
  intros a b.
  apply (proj1 (merge_history_comm (H := sample_runtime) [a] [b])).
  intros x y d v w ->%list_elem_of_singleton ->%list_elem_of_singleton Hx Hy.
  vm_compute in Hx, Hy. congruence.
Defined.

(** X4: a merged series is already in the order [coverage_ok] puts it in.
    Sorting it by date returns it unchanged, and [coverage_ok] returns
    normally on it, with the series as it was handed over, in both
    variants: all its dates are strings, in strictly ascending order. *)
Theorem coverage_ok_keeps_merged `{Builtins} (old new : list item)
  (m : string) :
  (sort_by_date (History.merge_history old new)
     = Ok (History.merge_history old new) ∧
   ∃ b, coverage_ok (History.merge_history old new) m
        = Ok (b, History.merge_history old new)) ∧
  (sort_by_date (Ohlc.merge_history old new)
     = Ok (Ohlc.merge_history old new) ∧
   ∃ b, coverage_ok (Ohlc.merge_history old new) m
        = Ok (b, Ohlc.merge_history old new)).
Proof.
  destruct (history_merge_ascending old new) as [Hd Hs].
  destruct (ohlc_merge_ascending old new) as [Hd' Hs'].
  split; (split; [by apply sort_by_date_ascending
                 |by apply coverage_ok_ascending]).
Qed.

(** X5: every record of a merged OHLC series is a normalized candle:
    a string date, four finite numbers, and low <= open <= high and
    low <= close <= high, whatever records went into the merge. *)
Theorem ohlc_merge_history_candles `{Builtins} (old new : list item) :
  Forall (λ r, ∃ d qo qh ql qc,
            r = candle_item (Candle d (Fin qo) (Fin qh) (Fin ql) (Fin qc)) ∧
            (ql <= qo <= qh)%Q ∧ (ql <= qc <= qh)%Q)
    (Ohlc.merge_history old new).
Proof.
  apply Forall_forall. intros r Hr. rewrite ohlc_merge_by in Hr.
  apply elem_of_merge_by in Hr as (d & k & -> & Hk).
  rewrite lookup_merged_dict_app in Hk.
  apply last_entry_Some_entry in Hk as (it & _ & Hit).
  unfold Ohlc.candle_of in Hit.
  destruct (Ohlc.normalize it) as [k'|] eqn:E; [|done].
  simpl in Hit. injection Hit as <- <-.
  apply build_candle_Some in E
    as (d & qo & qh & ql & qc & _ & _ & -> & Ho & Hc & _).
  by exists d, qo, qh, ql, qc.
Qed.

Section candle_more.
Context `{Builtins}.
Import Ohlc.

(** A candle whose fields are in order goes through [build_candle] as it
    is. *)
Lemma build_candle_ordered (d : string) (qo qh ql qc : Q) :
  (ql <= qo <= qh)%Q → (ql <= qc <= qh)%Q →
  build_candle (PyStr d) (PyNum (Fin qo)) (PyNum (Fin qh)) (PyNum (Fin ql))
    (PyNum (Fin qc)) = Some (Candle d (Fin qo) (Fin qh) (Fin ql) (Fin qc)).
Proof.
  intros Ho Hc. unfold build_candle. rewrite !safe_float_PyNum_Fin.
  unfold forced, py_max3, py_min3, py_max, py_min.
  float_cases; first [done | exfalso; lra].
Qed.

(** X6: [build_candle] changes nothing in a candle that is in order. On a
    string date and four finite numbers with low <= open <= high and
    low <= close <= high it returns exactly these five fields. *)
Theorem build_candle_keeps_ordered (d : string) (qo qh ql qc : Q) :
  (ql <= qo <= qh)%Q → (ql <= qc <= qh)%Q →
  build_candle (PyStr d) (PyNum (Fin qo)) (PyNum (Fin qh)) (PyNum (Fin ql))
    (PyNum (Fin qc)) = Some (Candle d (Fin qo) (Fin qh) (Fin ql) (Fin qc)).
Proof. apply build_candle_ordered. Qed.

(** X7: [build_candle] is idempotent. Fed with the fields of a candle it
    has produced, it produces the same candle again. *)
Theorem build_candle_idempotent
  (date open_val high_val low_val close_val : pyval) (k : candle) :
  build_candle date open_val high_val low_val close_val = Some k →
  build_candle (PyStr (c_date k)) (PyNum (c_open k)) (PyNum (c_high k))
    (PyNum (c_low k)) (PyNum (c_close k)) = Some k.
Proof.
  intros Hk. apply build_candle_Some in Hk
    as (d & qo & qh & ql & qc & _ & _ & -> & Ho & Hc & _).
  by apply build_candle_ordered.
Qed.

(** X8: missing high and low are made of open and close. When neither
    the high nor the low is a finite number and the close is one,
    [build_candle] returns the open (the close when there is no usable
    open), the larger of open and close as the high, the smaller as the
    low; with no usable open either, all four fields are the close. *)
Theorem build_candle_synthesized (d : string)
  (open_val high_val low_val close_val : pyval) (qc : Q) :
  safe_float high_val = None → safe_float low_val = None →
  py_float close_val = Ok (Fin qc) →
  let open_f := default (Fin qc) (safe_float open_val) in
  build_candle (PyStr d) open_val high_val low_val close_val
    = Some (Candle d open_f (py_max open_f (Fin qc)) (py_min open_f (Fin qc))
              (Fin qc)) ∧
  (safe_float open_val = None →
   build_candle (PyStr d) open_val high_val low_val close_val
     = Some (Candle d (Fin qc) (Fin qc) (Fin qc) (Fin qc))).
Proof.
  intros Hh Hl Hc open_f.
  assert (safe_float close_val = Some (Fin qc)) as Hc'.
  { apply safe_float_Some. eauto. }
  assert (build_candle (PyStr d) open_val high_val low_val close_val
    = Some (Candle d open_f (py_max open_f (Fin qc)) (py_min open_f (Fin qc))
              (Fin qc))) as Hb.
  { unfold build_candle. rewrite Hc', Hh, Hl. subst open_f.
    destruct (safe_float_fmap open_val) as [[qo|] ->];
      unfold forced, py_max3, py_min3, py_max, py_min;
      cbn [fmap option_fmap option_map from_option id];
      float_cases; first [done | exfalso; lra]. }
  split; [exact Hb|].
  intros Ho. rewrite Hb. subst open_f. rewrite Ho. cbn [from_option id].
  unfold py_max, py_min. float_cases; first [done | exfalso; lra].
Qed.

End candle_more.

Lemma build_candle_idempotent_witness :
  let k := Candle "2024-06-03" (Fin 3) (Fin 3) (Fin 3) (Fin 3) in
  Ohlc.build_candle (H := sample_runtime) (PyStr "2024-06-03") PyNone
    (PyNum (Fin 1)) (PyNum (Fin 5)) (PyNum (Fin 3)) = Some k ∧
  Ohlc.build_candle (H := sample_runtime) (PyStr (c_date k))
    (PyNum (c_open k)) (PyNum (c_high k)) (PyNum (c_low k))
    (PyNum (c_close k)) = Some k.
Proof.
  intros k. split; [reflexivity|].
  apply (build_candle_idempotent (H := sample_runtime) (PyStr "2024-06-03")
           PyNone (PyNum (Fin 1)) (PyNum (Fin 5)) (PyNum (Fin 3))).
  reflexivity.
Defined.

Lemma build_candle_keeps_ordered_witness :
  Ohlc.build_candle (H := sample_runtime) (PyStr "2024-06-03")
    (PyNum (Fin 2)) (PyNum (Fin 3)) (PyNum (Fin 1)) (PyNum (Fin 2))
  = Some (Candle "2024-06-03" (Fin 2) (Fin 3) (Fin 1) (Fin 2)).
Proof. apply (build_candle_keeps_ordered (H := sample_runtime)); lra. Defined.

Lemma build_candle_synthesized_witness :
  Ohlc.build_candle (H := sample_runtime) (PyStr "2024-06-03") PyNone
    (PyStr "n/a") PyNone (PyNum (Fin 3))
  = Some (Candle "2024-06-03" (Fin 3) (Fin 3) (Fin 3) (Fin 3)).
Proof.
  destruct (build_candle_synthesized (H := sample_runtime) "2024-06-03"
              PyNone (PyStr "n/a") PyNone (PyNum (Fin 3)) 3
              eq_refl eq_refl eq_refl) as [_ Hclose].
  apply Hclose. reflexivity.
Defined.

Section cascade_facts.
Variable answer : provider → result (list item).

Lemma guarded_attempt_tried (g : bool) p st :
  (if g then attempt p answer st else st).2 = st.2 ++ (if g then [p] else []).
Proof. destruct g; [done|]. by rewrite app_nil_r. Qed.

(** The providers called, read off the guards of the cascade. *)
Lemma fetch_fresh_tried cfg sym market :
  ∃ g2 g3 g4 g5 g6 : bool,
    (fetch_fresh cfg sym market answer).2 =
      (if use_worker cfg then [Worker] else [])
      ++ (if g2 then [Yahoo] else [])
      ++ (if g3 && token cfg && negb (no_equity market)
             && negb (endswith sym ".SS") then [Finnhub] else [])
      ++ (if g4 && (bool_decide (market = "CN") || endswith sym ".SS")
          then [Akshare] else [])
      ++ (if g5 && av_key cfg && negb (no_equity market) then [Alpha] else [])
      ++ (if g6 && negb (no_equity market) then [Stooq] else []).
Proof.
  unfold fetch_fresh. cbv zeta.
  rewrite !guarded_attempt_tried. simpl. rewrite <- !app_assoc.
  by eexists _, _, _, _, _.
Qed.


Lemma cascade_inv_step (g : bool) p st :
  cascade_inv answer st → (g = true → st.1 = []) →
  cascade_inv answer (if g then attempt p answer st else st).
Proof.
  intros Hinv Hg. destruct g; [|done]. specialize (Hg eq_refl).
  destruct Hinv as [[_ Hall]|[Hne _]]; [|done].
  unfold attempt. destruct (answer p) as [l|e] eqn:Hp.
  - destruct l as [|x l].
    + left. split; [done|]. simpl. apply Forall_app. split; [done|].
      constructor; [|done]. by left.
    + right. split; [done|]. by exists st.2, p.
  - left. simpl. split; [done|]. apply Forall_app. split; [done|].
    constructor; [|done]. right. by exists e.
Qed.

Lemma is_nil_true {A} (l : list A) : is_nil l = true → l = [].
Proof. by destruct l. Qed.

Lemma fetch_fresh_inv cfg sym market :
  cascade_inv answer (fetch_fresh cfg sym market answer).
Proof.
  unfold fetch_fresh. cbv zeta.
  repeat (apply cascade_inv_step;
          [|intros Hg; repeat (apply andb_true_iff in Hg as [Hg _]);
            first [by apply is_nil_true|done]]).
  left. by split.
Qed.

End cascade_facts.

(** X9: the providers are called in a fixed order. Whatever the
    configuration, the symbol, the market and the answers, the providers
    [main] has called form a subsequence of Worker, Yahoo, Finnhub,
    Akshare, Alpha Vantage, Stooq: none is called twice, none out of
    turn. *)
Theorem fetch_fresh_order cfg sym market answer :
  (fetch_fresh cfg sym market answer).2
    `sublist_of` [Worker; Yahoo; Finnhub; Akshare; Alpha; Stooq].
Proof.
  destruct (fetch_fresh_tried answer cfg sym market)
    as (g2 & g3 & g4 & g5 & g6 & ->).
  repeat match goal with
         | |- context [if ?g then [_] else []] => destruct g
         end; simpl;
  repeat first [apply sublist_nil | apply sublist_skip | apply sublist_cons].
Qed.

(** X10: the cascade stops at the first provider that has data. Either
    no data came back and every provider called raised or returned the
    empty series, or the data is exactly what the provider called last
    returned, it is not empty, and every provider called before it raised
    or returned the empty series. *)
Theorem fetch_fresh_first_success cfg sym market answer :
  let fresh := (fetch_fresh cfg sym market answer).1 in
  let tried := (fetch_fresh cfg sym market answer).2 in
  (fresh = [] ∧ Forall (λ p, absent (answer p)) tried) ∨
  (fresh ≠ [] ∧ ∃ before p,
     tried = before ++ [p] ∧ answer p = Ok fresh ∧
     Forall (λ q, absent (answer q)) before).
Proof. apply fetch_fresh_inv. Qed.

Ltac not_tried H :=
  simpl in H; repeat (apply elem_of_cons in H as [H|H]; [done|]);
  by apply elem_of_nil in H.

Ltac tried_guards :=
  repeat match goal with
         | |- context [if ?g then [_] else []] =>
             let E := fresh "E" in destruct g eqn:E
         end.

(** X11: a provider that needs a credential is not called without it:
    the worker only when its URL is configured, Finnhub only with a
    token, Alpha Vantage only with an API key. *)
Theorem fetch_fresh_needs_keys cfg sym market answer :
  let tried := (fetch_fresh cfg sym market answer).2 in
  (Worker ∈ tried → use_worker cfg = true) ∧
  (Finnhub ∈ tried → token cfg = true) ∧
  (Alpha ∈ tried → av_key cfg = true).
Proof.
  intros tried. subst tried.
  destruct (fetch_fresh_tried answer cfg sym market)
    as (g2 & g3 & g4 & g5 & g6 & ->).
  destruct (use_worker cfg), (token cfg), (av_key cfg);
    rewrite ?andb_false_r, ?andb_true_r; simpl;
    (split; [|split]); try done; intros Hin; exfalso; revert Hin;
    tried_guards; intros Hin; not_tried Hin.
Qed.

Lemma fetch_fresh_needs_keys_witness :
  let cfg := {| use_worker := false; token := true; av_key := false |} in
  let answer : provider → result (list item) := λ _, Ok [] in
  (fetch_fresh cfg "AAPL" "US" answer).2 = [Yahoo; Finnhub; Stooq] ∧
  token cfg = true.
Proof.
  intros cfg answer. split; [reflexivity|].
  apply (fetch_fresh_needs_keys cfg "AAPL" "US" answer).
  apply list_elem_of_further, list_elem_of_here.
Defined.

(** X12: the market decides which providers are left out. For a symbol
    of the markets CRYPTO, FX, COM and IDX neither Finnhub, nor Alpha
    Vantage, nor Stooq is called; Finnhub is not called for a symbol that
    ends in ".SS"; Akshare is only called for the market CN or a symbol
    that ends in ".SS". *)
Theorem fetch_fresh_by_market cfg sym market answer :
  let tried := (fetch_fresh cfg sym market answer).2 in
  (market ∈ ["CRYPTO"; "FX"; "COM"; "IDX"] →
     (Finnhub ∉ tried) ∧ (Alpha ∉ tried) ∧ (Stooq ∉ tried)) ∧
  (endswith sym ".SS" = true → (Finnhub ∉ tried)) ∧
  (Akshare ∈ tried → market = "CN" ∨ endswith sym ".SS" = true).
Proof.
  intros tried. subst tried.
  destruct (fetch_fresh_tried answer cfg sym market)
    as (g2 & g3 & g4 & g5 & g6 & ->).
  split; [|split].
  - intros Hm. unfold no_equity. rewrite (bool_decide_true _ Hm).
    rewrite ?andb_false_r. cbn [negb andb].
    rewrite ?andb_false_r.
    repeat split; intros Hin; revert Hin; tried_guards; intros Hin;
      not_tried Hin.
  - intros ->. rewrite ?andb_false_r. cbn [negb]. rewrite ?andb_false_r.
    intros Hin; revert Hin; tried_guards; intros Hin; not_tried Hin.
  - destruct (bool_decide (market = "CN")) eqn:Hcn.
    { apply bool_decide_eq_true in Hcn. by left. }
    destruct (endswith sym ".SS"); [by right|].
    rewrite ?andb_false_r. intros Hin. exfalso. revert Hin.
    tried_guards; intros Hin; not_tried Hin.
Qed.

Lemma fetch_fresh_by_market_witness :
  let cfg := {| use_worker := true; token := true; av_key := true |} in
  let answer : provider → result (list item) := λ _, Ok [] in
  let tried := (fetch_fresh cfg "BTC-USD" "CRYPTO" answer).2 in
  tried = [Worker; Yahoo] ∧
  (Finnhub ∉ tried) ∧ (Alpha ∉ tried) ∧ (Stooq ∉ tried).
Proof.
  intros cfg answer tried. split; [reflexivity|].
  apply (fetch_fresh_by_market cfg "BTC-USD" "CRYPTO" answer).
  apply list_elem_of_here.
Defined.

(** A record without a date stops the sort. *)
Lemma sort_by_date_KeyError (data : list item) (it : item) :
  it ∈ data → it !! "date" = None → sort_by_date data = Raise KeyError.
Proof.
  intros Hin Hit. unfold sort_by_date.
  assert (mapM (λ x, k ← getitem x "date"; Ok (k, x)) data = Raise KeyError)
    as ->; [|done].
  induction data as [|x data IH]; [by apply elem_of_nil in Hin|].
  rewrite mapM_result_cons.
  destruct (x !! "date") as [v|] eqn:Hx.
  - apply elem_of_cons in Hin as [->|Hin]; [by rewrite Hit in Hx|].
    by rewrite (getitem_Some _ _ _ Hx), (IH Hin).
  - assert (getitem x "date" = Raise KeyError) as ->; [|done].
    unfold getitem. by rewrite Hx.
Qed.

Section run_facts.
Context `{Builtins}.
Variable merge_history : list item → list item → list item.

Lemma coverage_ok_KeyError (data : list item) (m : string) (it : item) :
  it ∈ data → it !! "date" = None → coverage_ok data m = Raise KeyError.
Proof.
  intros Hin Hit. destruct data as [|x data]; [by apply elem_of_nil in Hin|].
  by rewrite coverage_ok_cons, (sort_by_date_KeyError _ _ Hin Hit).
Qed.

Lemma main_symbol_KeyError cfg answer fs sym market it :
  it ∈ load_existing fs sym → it !! "date" = None →
  main_symbol_with merge_history cfg answer fs sym market = (fs, []).
Proof.
  intros Hin Hit. unfold main_symbol_with.
  by rewrite (coverage_ok_KeyError _ _ _ Hin Hit).
Qed.

(** One symbol's turn only writes that symbol's artifact, and what it
    writes is a merged series. *)
Lemma main_symbol_lookup cfg answer fs sym market s :
  (main_symbol_with merge_history cfg answer fs sym market).1 !! s = fs !! s ∨
  (s = sym ∧ ∃ old new,
     (main_symbol_with merge_history cfg answer fs sym market).1 !! s
       = Some (merge_history old new)).
Proof.
  unfold main_symbol_with.
  destruct (coverage_ok _ _) as [[[] existing]|e]; [by left| |by left].
  destruct (fetch_fresh cfg sym market answer) as [fresh tried].
  destruct (is_nil fresh && is_nil existing); [by left|].
  simpl. destruct (decide (s = sym)) as [->|Hne].
  - right. split; [done|]. exists existing, fresh. by rewrite lookup_insert_eq.
  - left. by rewrite lookup_insert_ne.
Qed.

Lemma main_with_frame cfg max_count tickers answer fs s :
  s ∉ (match max_count with Some n => take n tickers | None => tickers end).*1 →
  main_with merge_history cfg max_count tickers answer fs !! s = fs !! s.
Proof.
  unfold main_with.
  generalize (match max_count with Some n => take n tickers | None => tickers end).
  intros l. revert fs. induction l as [|[sym market] l IH]; intros fs Hs; [done|].
  rewrite fmap_cons, not_elem_of_cons in Hs. destruct Hs as [Hne Hs].
  simpl. rewrite IH by done.
  destruct (main_symbol_lookup cfg (answer sym) fs sym market s)
    as [->|[-> _]]; done.
Qed.

Lemma main_with_written (P : list item → Prop) cfg max_count tickers answer fs s l :
  (∀ old new, P (merge_history old new)) →
  main_with merge_history cfg max_count tickers answer fs !! s = Some l →
  fs !! s = Some l ∨ P l.
Proof.
  intros HP. unfold main_with.
  generalize (match max_count with Some n => take n tickers | None => tickers end).
  intros ts. revert fs. induction ts as [|[sym market] ts IH]; intros fs; [by left|].
  simpl. intros Hl. apply IH in Hl as [Hl|Hl]; [|by right].
  destruct (main_symbol_lookup cfg (answer sym) fs sym market s)
    as [Heq|[-> (old & new & Heq)]].
  - left. by rewrite <- Heq.
  - right. simpl in Hl. rewrite Heq in Hl. injection Hl as <-. apply HP.
Qed.

End run_facts.

(** X13: a stored record without a date stops the symbol's turn. When
    the stored series of a symbol has a record with no ["date"] key, the
    coverage check raises [KeyError], which the loop of [main] catches:
    nothing is fetched and the stored files are left as they are, in both
    variants. *)
Theorem main_symbol_missing_date `{Builtins} cfg answer fs sym market it :
  it ∈ load_existing fs sym → it !! "date" = None →
  coverage_ok (load_existing fs sym) (isoformat (today - 365)) = Raise KeyError ∧
  History.main_symbol cfg answer fs sym market = (fs, []) ∧
  Ohlc.main_symbol cfg answer fs sym market = (fs, []).
Proof.
  intros Hin Hit. split; [by eapply coverage_ok_KeyError|].
  split; by eapply main_symbol_KeyError.
Qed.

Lemma main_symbol_missing_date_witness :
  let it : item := {[ "close" := PyNum (Fin 1) ]} in
  let fs : gmap string (list item) :=
    {[ "AAPL" := [History.point "2024-06-04" (Fin 2); it] ]} in
  let cfg := {| use_worker := true; token := true; av_key := true |} in
  let answer : provider → result (list item) :=
    λ _, Ok [History.point "2024-06-05" (Fin 3)] in
  coverage_ok (H := sample_runtime) (load_existing fs "AAPL")
    (@isoformat sample_runtime (@today sample_runtime - 365))
    = Raise KeyError ∧
  History.main_symbol (H := sample_runtime) cfg answer fs "AAPL" "US"
    = (fs, []) ∧
  Ohlc.main_symbol (H := sample_runtime) cfg answer fs "AAPL" "US" = (fs, []).
Proof.
  intros it fs cfg answer.
  apply (main_symbol_missing_date (H := sample_runtime) cfg answer fs "AAPL"
           "US" it); [|reflexivity].
  change (load_existing fs "AAPL")
    with [History.point "2024-06-04" (Fin 2); it].
  apply list_elem_of_further, list_elem_of_here.
Defined.

(** X14: a run only touches the symbols it is given. The stored series
    of a symbol that is not among the tickers processed (the first
    [max_count] of them under [--max]) is the same after the run as
    before, in both variants. *)
Theorem main_frame `{Builtins} cfg max_count tickers answer fs s :
  s ∉ (match max_count with Some n => take n tickers | None => tickers end).*1 →
  History.main cfg max_count tickers answer fs !! s = fs !! s ∧
  Ohlc.main cfg max_count tickers answer fs !! s = fs !! s.
Proof. intros Hs. split; by apply main_with_frame. Qed.

(** X15: whatever a run writes is in strictly ascending order of date.
    A series stored after the run is either the one stored before, or a
    series whose records all have a string date, in strictly ascending
    order (so no date occurs twice), in both variants. *)
Theorem main_writes_ascending `{Builtins} cfg max_count tickers answer fs s :
  (∀ l, History.main cfg max_count tickers answer fs !! s = Some l →
     fs !! s = Some l ∨ (Forall str_dated l ∧ Sorted str_lt l)) ∧
  (∀ l, Ohlc.main cfg max_count tickers answer fs !! s = Some l →
     fs !! s = Some l ∨ (Forall str_dated l ∧ Sorted str_lt l)).
Proof.
  split; intros l Hl.
  - eapply (main_with_written _ (λ l, Forall str_dated l ∧ Sorted str_lt l));
      [|exact Hl]. apply history_merge_ascending.
  - eapply (main_with_written _ (λ l, Forall str_dated l ∧ Sorted str_lt l));
      [|exact Hl]. apply ohlc_merge_ascending.
Qed.

Lemma main_writes_ascending_witness :
  let a := History.point "2024-06-03" (Fin 1) in
  let b := History.point "2024-06-04" (Fin 2) in
  let cfg := {| use_worker := false; token := false; av_key := false |} in
  let answer : string → provider → result (list item) := λ _ _, Ok [b; a; b] in
  History.main (H := sample_runtime) cfg None [("AAPL", "US")] answer ∅
    !! "AAPL" = Some [a; b] ∧
  Forall str_dated [a; b] ∧ Sorted str_lt [a; b].
Proof.
  intros a b cfg answer.
  assert (History.main (H := sample_runtime) cfg None [("AAPL", "US")] answer ∅
            !! "AAPL" = Some [a; b]) as Hrun by reflexivity.
  split; [exact Hrun|].
  destruct (proj1 (main_writes_ascending (H := sample_runtime) cfg None
                     [("AAPL", "US")] answer ∅ "AAPL") _ Hrun) as [Hold|Hasc].
  - by rewrite lookup_empty in Hold.
  - exact Hasc.
Defined.

Lemma main_frame_witness :
  let a := History.point "2024-06-03" (Fin 1) in
  let fs : gmap string (list item) := {[ "MSFT" := [a] ]} in
  let cfg := {| use_worker := true; token := true; av_key := true |} in
  let answer : string → provider → result (list item) :=
    λ _ _, Ok [History.point "2024-06-05" (Fin 3)] in
  History.main (H := sample_runtime) cfg None [("AAPL", "US")] answer fs
    !! "MSFT" = Some [a] ∧
  Ohlc.main (H := sample_runtime) cfg None [("AAPL", "US")] answer fs
    !! "MSFT" = Some [a].
Proof.
  intros a fs cfg answer.
  apply (main_frame (H := sample_runtime) cfg None [("AAPL", "US")] answer fs
           "MSFT").
  by intros [=]%list_elem_of_singleton.
Defined.

Section covered.
Context `{Builtins}.

(** A series that is long enough, starts early enough and ends late
    enough passes the check. *)
Lemma coverage_ok_covered (data : list item) (m first last : string) (d : Z) :
  200 ≤ length data → earliest data first → latest data last →
  String.le first m → fromisoformat last = Some d →
  (busday_count d today ≤ 1)%Z →
  ∃ data', coverage_ok data m = Ok (true, data').
Proof.
  intros Hlen He Hlat Hle Hd Hcount.
  destruct data as [|x data]; [simpl in Hlen; lia|].
  assert (Forall str_dated (x :: data)) as Hall.
  { apply Forall_forall. intros it Hin.
    destruct He as [_ Hmin]. destruct (Hmin _ Hin) as (u & Hu & _).
    by exists u. }
  destruct (sort_by_date_str _ Hall) as [data' Hsort].
  pose proof (sort_by_date_sorted _ _ Hsort) as [Hp Hs].
  exists data'.
  destruct data' as [|x0 r]; [by apply Permutation_nil_cons in Hp|].
  destruct (list.last (x0 :: r)) as [xn|] eqn:Hn; [|by apply last_None in Hn].
  assert (str_dated x0) as [s0 Hs0].
  { rewrite <- Hp in Hall.
    eapply Forall_forall; [exact Hall|apply list_elem_of_here]. }
  destruct (sorted_earliest_latest _ _ _ _ Hs0 Hs Hn)
    as (He' & t' & Ht' & Hlat').
  assert (s0 = first) as ->.
  { eapply earliest_unique; [|exact He]. by eapply earliest_Permutation. }
  assert (t' = last) as ->.
  { eapply latest_unique; [|exact Hlat]. by eapply latest_Permutation. }
  rewrite (coverage_ok_sorted _ _ _ _ _ _ _ _ Hsort Hn Hs0 Ht').
  assert ((200 <=? length (x0 :: r)) = true) as ->.
  { apply Nat.leb_le. by rewrite Hp. }
  apply Is_true_true in Hle. rewrite Hle.
  assert ((business_gap (PyStr last) <=? 1)%Z = true) as ->; [|done].
  apply business_gap_le. by exists last, d.
Qed.

Lemma main_symbol_with_covered merge_history cfg answer fs sym market
  (first last : string) (d : Z) :
  200 ≤ length (load_existing fs sym) →
  earliest (load_existing fs sym) first →
  latest (load_existing fs sym) last →
  String.le first (isoformat (today - 365)) →
  fromisoformat last = Some d → (busday_count d today ≤ 1)%Z →
  main_symbol_with merge_history cfg answer fs sym market = (fs, []).
Proof.
  intros Hlen He Hlat Hle Hd Hcount.
  destruct (coverage_ok_covered _ _ _ _ _ Hlen He Hlat Hle Hd Hcount)
    as [data' Hc].
  unfold main_symbol_with. by rewrite Hc.
Qed.

End covered.

(** X16: a symbol whose stored series is good enough costs no request.
    When the stored series has at least 200 records, all with string
    dates, its earliest date is not after the day one year back and its
    latest date is at most one business day old, the symbol's turn calls
    no provider and writes nothing, in both variants. *)
Theorem main_symbol_covered `{Builtins} cfg answer fs sym market
  (first last : string) (d : Z) :
  200 ≤ length (load_existing fs sym) →
  earliest (load_existing fs sym) first →
  latest (load_existing fs sym) last →
  String.le first (isoformat (today - 365)) →
  fromisoformat last = Some d → (busday_count d today ≤ 1)%Z →
  History.main_symbol cfg answer fs sym market = (fs, []) ∧
  Ohlc.main_symbol cfg answer fs sym market = (fs, []).
Proof. intros. split; by eapply main_symbol_with_covered. Qed.

Lemma main_symbol_covered_witness :
  let a := History.point "2023-06-05" (Fin 2) in
  let b := History.point "2024-06-04" (Fin 2) in
  let fs : gmap string (list item) := {[ "AAPL" := a :: replicate 199 b ]} in
  let cfg := {| use_worker := true; token := true; av_key := true |} in
  let answer : provider → result (list item) := λ _, Ok [b] in
  History.main_symbol (H := sample_runtime) cfg answer fs "AAPL" "US" = (fs, []).
Proof.
  intros a b fs cfg answer.
  assert (load_existing fs "AAPL" = a :: replicate 199 b) as Hl by reflexivity.
  apply (main_symbol_covered (H := sample_runtime) cfg answer fs "AAPL" "US"
           "2023-06-05" "2024-06-04" 1%Z).
  - rewrite Hl, length_cons, length_replicate. lia.
  - rewrite Hl. split.
    + exists a. split; [apply list_elem_of_here|done].
    + intros it [->|[-> _]%elem_of_replicate]%elem_of_cons;
        eexists; (split; [reflexivity|done]).
  - rewrite Hl. split.
    + exists b. split; [|done]. apply list_elem_of_further, list_elem_of_here.
    + intros it [->|[-> _]%elem_of_replicate]%elem_of_cons;
        eexists; (split; [reflexivity|done]).
  - done.
  - reflexivity.
  - by compute.
Defined.

Section worker_more.
Context `{Builtins}.

Lemma history_worker_point_dated (data : list json_elem) :
  Forall str_dated (omap History.worker_point data).
Proof.
  apply Forall_forall. intros p Hp.
  apply list_elem_of_omap in Hp as (e & _ & He).
  destruct e as [it|]; [|done]. simpl in He.
  destruct (get it "date") as [| |d|]; try done.
  destruct (get it "close") as [|c| |]; try done.
  injection He as <-. by exists d.
Qed.

Lemma ohlc_worker_point_dated (data : list json_elem) :
  Forall str_dated (omap Ohlc.worker_point data).
Proof.
  apply Forall_forall. intros p Hp.
  apply list_elem_of_omap in Hp as (e & _ & He).
  destruct e as [it|]; [|done]. cbn [Ohlc.worker_point] in He.
  destruct (Ohlc.build_candle _ _ _ _ _) as [k|]; [|done].
  injection He as <-. by exists (c_date k).
Qed.

(** The sort of a series of string-dated records returns, and returns the
    series in ascending order of date. *)
Lemma sort_by_date_str_le (l : list item) :
  Forall str_dated l →
  ∃ out, sort_by_date l = Ok out ∧ out ≡ₚ l ∧ Sorted str_le out.
Proof.
  intros Hd. destruct (sort_by_date_str _ Hd) as [out Hout].
  exists out. split; [done|].
  destruct (sort_by_date_sorted _ _ Hout) as [Hp Hs]. split; [done|].
  destruct out as [|x0 out]; [constructor|].
  apply in_date_order_str; [|done].
  rewrite <- Hp in Hd. by apply Forall_cons in Hd as [? _].
Qed.

Lemma worker_points (r : response) (data : list json_elem)
  (worker_point : json_elem → option item) :
  status_code r ≠ 404%Z → raise_for_status r = Ok () →
  body r = JsonList data →
  Forall str_dated (omap worker_point data) →
  let fetch :=
    _ ← raise_for_status r;
    data ← json_list r;
    out ← sort_by_date (omap worker_point data);
    match out with [] => Raise RuntimeError | _ => Ok out end in
  (omap worker_point data = [] → fetch = Raise RuntimeError) ∧
  (omap worker_point data ≠ [] →
     ∃ out, fetch = Ok out ∧ out ≡ₚ omap worker_point data ∧
            Sorted str_le out).
Proof.
  intros Hs Hok Hb Hd fetch. subst fetch.
  rewrite Hok, bind_Ok_l. unfold json_list. rewrite Hb, bind_Ok_l.
  split.
  - by intros ->.
  - intros Hne. destruct (sort_by_date_str_le _ Hd) as (out & -> & Hp & Hsorted).
    rewrite bind_Ok_l. exists out. split; [|done].
    destruct out; [|done]. by apply Permutation_nil in Hp.
Qed.

End worker_more.

(** X17: what the worker adapter returns on a JSON array. When the
    answer is no 404, passes [raise_for_status] and its body is an array,
    the adapter raises [RuntimeError] if no element of the array makes a
    point, and otherwise returns the points made of the elements, none
    lost or added, in ascending order of date; in both variants. *)
Theorem worker_returns_sorted_points `{Builtins} (r : response)
  (data : list json_elem) :
  status_code r ≠ 404%Z → raise_for_status r = Ok () →
  body r = JsonList data →
  ((omap History.worker_point data = [] →
      History.fetch_daily_worker true r = Raise RuntimeError) ∧
   (omap History.worker_point data ≠ [] →
      ∃ out, History.fetch_daily_worker true r = Ok out ∧
             out ≡ₚ omap History.worker_point data ∧ Sorted str_le out)) ∧
  ((omap Ohlc.worker_point data = [] →
      Ohlc.fetch_daily_worker true r = Raise RuntimeError) ∧
   (omap Ohlc.worker_point data ≠ [] →
      ∃ out, Ohlc.fetch_daily_worker true r = Ok out ∧
             out ≡ₚ omap Ohlc.worker_point data ∧ Sorted str_le out)).
Proof.
  intros Hs Hok Hb.
  assert ((status_code r =? 404)%Z = false) as H404 by by apply Z.eqb_neq.
  split.
  - unfold History.fetch_daily_worker. cbn [negb]. rewrite H404.
    pose proof (worker_points r data History.worker_point Hs Hok Hb
                  (history_worker_point_dated data)) as Hw.
    unfold json_list in *. rewrite Hb in *. exact Hw.
  - unfold Ohlc.fetch_daily_worker. cbn [negb]. rewrite H404.
    pose proof (worker_points r data Ohlc.worker_point Hs Hok Hb
                  (ohlc_worker_point_dated data)) as Hw.
    unfold json_list in *. rewrite Hb in *. exact Hw.
Qed.

Lemma worker_returns_sorted_points_witness :
  let a := History.point "2024-06-03" (Fin 1) in
  let b := History.point "2024-06-04" (Fin 2) in
  let r := {| status_code := 200; body := JsonList [JDict b; JOther; JDict a] |} in
  ∃ out, History.fetch_daily_worker true r = Ok out ∧
         out ≡ₚ [b; a] ∧ Sorted str_le out.
Proof.
  intros a b r.
  destruct (worker_returns_sorted_points (H := sample_runtime) r
              [JDict b; JOther; JDict a]) as [[_ Hpoints] _];
    [done|reflexivity|reflexivity|].
  apply Hpoints. done.
Defined.

Lemma batch_width_pos batch_size : 0 < batch_width batch_size.
Proof. unfold batch_width. destruct (0 <? batch_size)%Z eqn:E; lia. Qed.

Lemma select_batch_nat (i : nat) (batch_size : Z) tickers :
  select_batch (Some (Z.of_nat i)) batch_size tickers
    = take (batch_width batch_size) (drop (i * batch_width batch_size) tickers).
Proof.
  unfold select_batch, batch_width, py_slice.
  set (b := if (0 <? batch_size)%Z then batch_size else 80%Z).
  assert (0 < b)%Z as Hb by (subst b; destruct (0 <? batch_size)%Z eqn:E; lia).
  set (n := length tickers).
  assert (Z.to_nat (Z.of_nat i * b) = i * Z.to_nat b) as Hib.
  { rewrite Z2Nat.inj_mul, Nat2Z.id; lia. }
  destruct (Z.leb_spec (Z.of_nat n) (Z.of_nat i * b)) as [Hge|Hlt].
  - rewrite drop_ge; [by rewrite take_nil|]. fold n. lia.
  - assert ((Z.of_nat i * b <? 0)%Z = false) as -> by lia.
    assert ((Z.of_nat i * b + b <? 0)%Z = false) as -> by lia.
    rewrite (Z.min_l (Z.of_nat i * b)) by lia. rewrite Hib.
    destruct (Z.min_spec (Z.of_nat i * b + b) (Z.of_nat n)) as [[_ ->]|[Hle ->]].
    + f_equal. lia.
    + rewrite !take_ge; [done|rewrite length_drop; fold n; lia..].
Qed.

(** X18: the batches partition the ticker list. Batch [i] is the slice
    of [batch_width] tickers from position [i * batch_width] on (empty
    past the end of the list); the batches 0 .. n-1 put end to end are the
    first [n * batch_width] tickers, hence the whole list, each ticker
    once and in order, as soon as n batches are enough; and the batch
    index -1 selects nothing. The width is [--batch-size], or 80 when
    that is not positive. *)
Theorem select_batch_partition (batch_size : Z) tickers :
  (∀ i : nat,
     select_batch (Some (Z.of_nat i)) batch_size tickers
       = take (batch_width batch_size)
           (drop (i * batch_width batch_size) tickers)) ∧
  (∀ n : nat,
     concat ((λ i : nat, select_batch (Some (Z.of_nat i)) batch_size tickers)
               <$> seq 0 n)
       = take (n * batch_width batch_size) tickers) ∧
  (∀ n : nat,
     length tickers ≤ n * batch_width batch_size →
     concat ((λ i : nat, select_batch (Some (Z.of_nat i)) batch_size tickers)
               <$> seq 0 n) = tickers) ∧
  select_batch (Some (-1)%Z) batch_size tickers = [].
Proof.
  assert (∀ n : nat,
     concat ((λ i : nat, select_batch (Some (Z.of_nat i)) batch_size tickers)
               <$> seq 0 n)
       = take (n * batch_width batch_size) tickers) as Hcat.
  { induction n as [|n IH]; [done|].
    rewrite seq_S, fmap_app, concat_app, IH, Nat.add_0_l.
    cbn [fmap list_fmap concat]. rewrite app_nil_r, select_batch_nat.
    rewrite take_take_drop. f_equal. lia. }
  split; [intros i; apply select_batch_nat|]. split; [exact Hcat|]. split.
  - intros n Hn. rewrite Hcat. by apply take_ge.
  - unfold select_batch, py_slice.
    set (b := if (0 <? batch_size)%Z then batch_size else 80%Z).
    assert (0 < b)%Z as Hb by (subst b; destruct (0 <? batch_size)%Z eqn:E; lia).
    destruct (Z.leb_spec (Z.of_nat (length tickers)) (-1 * b)) as [|_]; [done|].
    assert ((-1 * b <? 0)%Z = true) as -> by lia.
    assert ((-1 * b + b <? 0)%Z = false) as -> by lia.
    rewrite (Z.min_l (-1 * b + b)) by lia.
    replace (Z.to_nat _) with 0 by lia. done.
Qed.

Lemma select_batch_partition_witness :
  let tickers := [("AAPL", "US"); ("MSFT", "US"); ("BTC-USD", "CRYPTO")] in
  select_batch (Some 0%Z) 2 tickers ++ select_batch (Some 1%Z) 2 tickers
    = tickers.
Proof.
  intros tickers.
  pose proof (proj1 (proj2 (proj2 (select_batch_partition 2 tickers))) 2)
    as Hall.
  cbn [seq fmap list_fmap concat Z.of_nat Pos.of_succ_nat Pos.succ] in Hall.
  rewrite app_nil_r in Hall. apply Hall. vm_compute. lia.
Defined.

Lemma mapM_result_Forall2 {A B} (f : A → result B) (l : list A) (k : list B) :
  mapM f l = Ok k ↔ Forall2 (λ x y, f x = Ok y) l k.
Proof.
  revert k. induction l as [|x l IH]; intros k.
  - split; [intros [= <-]; constructor|by intros ->%Forall2_nil_inv_l].
  - rewrite mapM_result_cons. split.
    + intros Hk. apply bind_Ok in Hk as (y & Hy & Hk).
      apply bind_Ok in Hk as (k' & Hk' & [= <-]).
      constructor; [done|]. by apply IH.
    + intros (y & k' & Hy & Hk' & ->)%Forall2_cons_inv_l.
      apply IH in Hk'. by rewrite Hy, Hk'.
Qed.

(** ** Reversed search: ends of strings *)

Lemma append_cons (a : Ascii.ascii) (s t : string) :
  String a s +:+ t = String a (s +:+ t).
Proof. reflexivity. Qed.

Lemma append_nil_l (t : string) : "" +:+ t = t.
Proof. reflexivity. Qed.

Lemma rev_app_app (s t acc : string) :
  String.rev_app (s +:+ t) acc = String.rev_app t (String.rev_app s acc).
Proof.
  revert acc. induction s as [|a s IH]; intros acc; [done|].
  rewrite append_cons. simpl. apply IH.
Qed.

Lemma rev_app_acc (s acc : string) :
  String.rev_app s acc = String.rev_app s "" +:+ acc.
Proof.
  revert acc. induction s as [|a s IH]; intros acc; simpl; [done|].
  rewrite (IH (String a acc)), (IH (String a "")).
  generalize (String.rev_app s ""). intros r.
  induction r as [|b r IHr]; [done|]. rewrite !append_cons. by f_equal.
Qed.

Lemma prefix_app (p q : string) : String.prefix p (p +:+ q) = true.
Proof.
  induction p as [|a p IH]; [by destruct q|].
  rewrite append_cons. simpl. by destruct (Ascii.ascii_dec a a).
Qed.

Lemma endswith_app (s suffix : string) : endswith (s +:+ suffix) suffix = true.
Proof.
  unfold endswith, String.rev. rewrite rev_app_app.
  rewrite (rev_app_acc suffix (String.rev_app s "")). apply prefix_app.
Qed.

Section symbol_facts.
Context `{Builtins} `{TextBuiltins}.

(** X19: [map_symbol_for_market] adds the suffix "=X" once. For the
    markets FX and FOREX, in any case of letters, the mapped symbol ends
    in "=X"; for every other market the symbol is returned as it is; and
    mapping a mapped symbol changes nothing. *)
Theorem map_symbol_for_market_suffix (symbol market : string) :
  (upper market ∈ ["FX"; "FOREX"] →
     endswith (map_symbol_for_market symbol market) "=X" = true) ∧
  (upper market ∉ ["FX"; "FOREX"] →
     map_symbol_for_market symbol market = symbol) ∧
  map_symbol_for_market (map_symbol_for_market symbol market) market
    = map_symbol_for_market symbol market.
Proof.
  unfold map_symbol_for_market.
  destruct (decide (upper market ∈ ["FX"; "FOREX"])) as [Hfx|Hfx].
  - rewrite (bool_decide_true _ Hfx). cbn [andb].
    destruct (endswith symbol "=X") eqn:E; cbn [negb].
    + rewrite E. by repeat split.
    + rewrite endswith_app. by repeat split.
  - rewrite (bool_decide_false _ Hfx). by repeat split.
Qed.

End symbol_facts.

Lemma map_symbol_for_market_suffix_witness :
  endswith (@map_symbol_for_market sample_text "EURUSD" "fx") "=X" = true.
Proof.
  apply (proj1 (@map_symbol_for_market_suffix sample_text "EURUSD" "fx")).
  apply list_elem_of_here.
Defined.

Section alpha_facts.
Context `{Builtins} `{TextBuiltins}.

Lemma since_str (cutoff : string) (rows : list item) :
  Forall str_dated rows →
  since cutoff rows = Ok (filter (λ x, recent cutoff x) rows).
Proof.
  induction 1 as [|x rows [d Hd] _ IH]; [done|].
  cbn [since]. rewrite (getitem_Some _ _ _ Hd), bind_Ok_l.
  cbn [py_le]. rewrite bind_Ok_l, IH, bind_Ok_l.
  rewrite filter_cons.
  assert (recent cutoff x = String.leb cutoff d) as Hrec.
  { unfold recent. by rewrite Hd. }
  destruct (String.leb cutoff d).
  - rewrite decide_True; [done|by rewrite Hrec].
  - rewrite decide_False; [done|]. rewrite Hrec. by intros ?.
Qed.

Lemma keep_recent_str (years : Z) (rows : list item) :
  Forall str_dated rows →
  ∃ sorted,
    sort_by_date rows = Ok sorted ∧ sorted ≡ₚ rows ∧ Sorted str_le sorted ∧
    keep_recent years rows
      = Ok (filter (λ x, recent (isoformat (today - 365 * years)) x) sorted).
Proof.
  intros Hd. destruct (sort_by_date_str_le _ Hd) as (sorted & Hs & Hp & Hsorted).
  exists sorted. split; [done|]. split; [done|]. split; [done|].
  unfold keep_recent. rewrite Hs, bind_Ok_l.
  destruct sorted as [|x sorted]; [done|]. cbn [is_nil].
  apply since_str. by rewrite Hp.
Qed.

Lemma Sorted_str_le_filter (P : item → Prop) `{!∀ x, Decision (P x)}
  (l : list item) :
  Sorted str_le l → Sorted str_le (filter P l).
Proof.
  intros Hs. apply Sorted_StronglySorted in Hs; [|apply _].
  apply StronglySorted_Sorted.
  induction Hs as [|x l Hs IH Hall]; [constructor|].
  rewrite filter_cons. destruct (decide (P x)); [|done].
  constructor; [done|]. apply Forall_forall.
  intros y [_ Hy]%list_elem_of_filter. by eapply Forall_forall in Hall.
Qed.

Lemma history_alpha_rows_dated ts :
  Forall str_dated (HistoryProviders.alpha_rows ts).
Proof.
  apply Forall_forall. intros row Hrow.
  apply list_elem_of_omap in Hrow as ([d e] & _ & He). simpl in He.
  destruct e as [v|]; [|done].
  destruct (py_float _) as [c|]; [|done]. injection He as <-. by exists d.
Qed.

Lemma ohlc_alpha_rows_dated ts :
  Forall str_dated (OhlcProviders.alpha_rows ts).
Proof.
  apply Forall_forall. intros row Hrow.
  apply list_elem_of_omap in Hrow as ([d e] & _ & He). cbn [fst snd] in He.
  destruct e as [v|]; [|done].
  destruct (Ohlc.build_candle _ _ _ _ _) as [k|]; [|done].
  injection He as <-. by exists (c_date k).
Qed.

Lemma recent_spec cutoff x :
  recent cutoff x = true ↔
    ∃ d, x !! "date" = Some (PyStr d) ∧ String.le cutoff d.
Proof.
  unfold recent. destruct (x !! "date") as [[| |d|]|];
    try (split; [done|by intros (? & [=] & _)]).
  split.
  - intros Hle. exists d. split; [done|]. by apply Is_true_true.
  - intros (d' & [= <-] & Hle). by apply Is_true_true.
Qed.

(** X20: the Alpha Vantage adapter returns the rows of the last years,
    sorted. When the answer has a status below 400 and a time series,
    the adapter returns normally; the rows are in ascending order of date
    and are exactly the rows read from the series whose date is not before
    the cutoff, the day [365 * years] days back; in both variants. *)
Theorem fetch_daily_alpha_recent (r : alpha_response) (years : Z)
  (ts : list (string * json_elem)) :
  (al_status r < 400)%Z → al_body r = AlphaDict (Some ts) →
  (∃ rows, HistoryProviders.fetch_daily_alpha r years = Ok rows ∧
     Sorted str_le rows ∧
     ∀ row, row ∈ rows ↔
       row ∈ HistoryProviders.alpha_rows ts ∧
       ∃ d, row !! "date" = Some (PyStr d) ∧
            String.le (isoformat (today - 365 * years)) d) ∧
  (∃ rows, OhlcProviders.fetch_daily_alpha r years = Ok rows ∧
     Sorted str_le rows ∧
     ∀ row, row ∈ rows ↔
       row ∈ OhlcProviders.alpha_rows ts ∧
       ∃ d, row !! "date" = Some (PyStr d) ∧
            String.le (isoformat (today - 365 * years)) d).
Proof.
  intros Hst Hb.
  assert (check_status (al_status r) = Ok ()) as Hok.
  { unfold check_status.
    destruct (400 <=? al_status r)%Z eqn:E; [|done]. lia. }
  split.
  - unfold HistoryProviders.fetch_daily_alpha. rewrite Hok, bind_Ok_l, Hb.
    destruct (keep_recent_str years _ (history_alpha_rows_dated ts))
      as (sorted & _ & Hp & Hs & ->).
    eexists. split; [done|]. split; [by apply Sorted_str_le_filter|].
    intros row. rewrite list_elem_of_filter, Hp.
    rewrite <- recent_spec. split; intros [? ?]; split; try done.
    + by apply Is_true_true.
    + by apply Is_true_true.
  - unfold OhlcProviders.fetch_daily_alpha. rewrite Hok, bind_Ok_l, Hb.
    destruct (keep_recent_str years _ (ohlc_alpha_rows_dated ts))
      as (sorted & _ & Hp & Hs & ->).
    eexists. split; [done|]. split; [by apply Sorted_str_le_filter|].
    intros row. rewrite list_elem_of_filter, Hp.
    rewrite <- recent_spec. split; intros [? ?]; split; try done.
    + by apply Is_true_true.
    + by apply Is_true_true.
Qed.

End alpha_facts.

Lemma fetch_daily_alpha_recent_witness :
  let ts := [("2024-06-04", JDict {[ "4. close" := PyNum (Fin 2) ]});
             ("2020-01-02", JDict {[ "4. close" := PyNum (Fin 1) ]})] in
  let r := {| al_status := 200; al_body := AlphaDict (Some ts) |} in
  ∃ rows,
    HistoryProviders.fetch_daily_alpha (H := sample_runtime) r 1 = Ok rows ∧
    Sorted str_le rows ∧
    ∀ row, row ∈ rows ↔
      row ∈ HistoryProviders.alpha_rows (H := sample_runtime) ts ∧
      ∃ d, row !! "date" = Some (PyStr d) ∧
           String.le (@isoformat sample_runtime (@today sample_runtime - 365 * 1)) d.
Proof.
  intros ts r.
  apply (proj1 (fetch_daily_alpha_recent (H := sample_runtime) r 1 ts
                  ltac:(simpl; lia) eq_refl)).
Defined.

Section chart_facts.
Context `{Builtins} `{TextBuiltins}.

Lemma Ok_inj {A} (a b : A) : Ok a = Ok b → a = b.
Proof. by intros [= ->]. Qed.

Lemma length_omap_le {A B} (f : A → option B) (l : list A) :
  length (omap f l) ≤ length l.
Proof.
  induction l as [|x l IH]; [done|]. cbn [omap list_omap].
  destruct (f x); simpl; lia.
Qed.

Lemma py_float_not_None v x : py_float v = Ok x → v ≠ PyNone.
Proof. by intros Hv ->. Qed.

(** The points [fetch_daily_finnhub] returns, before the sort. *)
Lemma finnhub_points (ts closes : list pyval) (pts : list item) :
  length closes = length ts →
  mapM (λ tc, d ← to_iso_utc_val tc.1; c ← py_float tc.2;
              Ok (History.point d c)) (zip ts closes) = Ok pts →
  length pts = length ts ∧ Forall str_dated pts ∧
  Forall (λ c, c ≠ PyNone) closes ∧
  Forall2 (λ tc p, ∃ d x, to_iso_utc_val tc.1 = Ok d ∧ py_float tc.2 = Ok x ∧
                          p = History.point d x) (zip ts closes) pts.
Proof.
  intros Hlen Hm. apply mapM_result_Forall2 in Hm.
  assert (Forall2 (λ tc p, ∃ d x, to_iso_utc_val tc.1 = Ok d ∧
                                  py_float tc.2 = Ok x ∧
                                  p = History.point d x) (zip ts closes) pts)
    as Hpts.
  { eapply Forall2_impl; [exact Hm|]. intros [t c] p Hp. simpl in *.
    apply bind_Ok in Hp as (d & Hd & Hp).
    apply bind_Ok in Hp as (x & Hx & [= <-]). by exists d, x. }
  split; [|split; [|split; [|done]]].
  - apply Forall2_length in Hm. rewrite <- Hm, length_zip_with. lia.
  - apply Forall_forall. intros p Hp.
    apply list_elem_of_lookup in Hp as [i Hi].
    destruct (Forall2_lookup_r _ _ _ _ _ Hpts Hi) as (tc & _ & d & x & _ & _ & ->).
    by exists d.
  - apply Forall_forall. intros c Hc.
    apply list_elem_of_lookup in Hc as [i Hi].
    assert (is_Some (ts !! i)) as [t Ht].
    { apply lookup_lt_is_Some. rewrite <- Hlen. by eapply lookup_lt_Some. }
    assert (zip ts closes !! i = Some (t, c)) as Hz.
    { rewrite lookup_zip_with, Ht. simpl. by rewrite Hi. }
    destruct (Forall2_lookup_l _ _ _ _ _ Hpts Hz) as (p & _ & d & x & _ & Hx & _).
    by eapply py_float_not_None.
Qed.

(** X21: the close-only Finnhub adapter returns a point for every
    timestamp or raises. When it returns, the status field is "ok", there
    are as many closes as timestamps, at least one, no close is null, and
    the series returned has one point per timestamp, made of the converted
    timestamp and close, in ascending order of date. When the HTTP
    status is below 400, it raises [RuntimeError] on a status field other
    than "ok", on an empty array of closes or of timestamps, and on arrays
    of different lengths. *)
Theorem finnhub_all_or_nothing (r : finnhub_response) :
  (∀ out, HistoryProviders.fetch_daily_finnhub r = Ok out →
     ∃ s o h l closes ts pts,
       fh_body r = FinnhubDict s o h l closes ts ∧ s = PyStr "ok" ∧
       Forall2 (λ tc p, ∃ d x, to_iso_utc_val tc.1 = Ok d ∧
                               py_float tc.2 = Ok x ∧
                               p = History.point d x) (zip ts closes) pts ∧
       out ≡ₚ pts ∧ Sorted str_le out ∧ out ≠ [] ∧
       length out = length ts ∧ length closes = length ts ∧
       Forall (λ c, c ≠ PyNone) closes) ∧
  (∀ s o h l closes ts,
     (fh_status r < 400)%Z → fh_body r = FinnhubDict s o h l closes ts →
     s ≠ PyStr "ok" ∨ closes = [] ∨ ts = [] ∨ length closes ≠ length ts →
     HistoryProviders.fetch_daily_finnhub r = Raise RuntimeError).
Proof.
  split.
  - intros out. unfold HistoryProviders.fetch_daily_finnhub.
    intros Hr. apply bind_Ok in Hr as (_ & _ & Hr).
    destruct (fh_body r) as [| |s o h l closes ts]; try done.
    destruct (not_ok s) eqn:Hs; [done|].
    destruct (is_nil closes || is_nil ts || negb (length closes =? length ts))
      eqn:Hg; [done|].
    apply orb_false_iff in Hg as [Hg Hlen].
    apply orb_false_iff in Hg as [Hc Ht].
    apply negb_false_iff, Nat.eqb_eq in Hlen.
    apply bind_Ok in Hr as (pts & Hpts & Hsort).
    destruct (finnhub_points _ _ _ Hlen Hpts) as (Hl & Hd & Hnn & Hall).
    destruct (sort_by_date_str_le _ Hd) as (out' & Hout' & Hp & Hsorted).
    rewrite Hsort in Hout'. injection Hout' as <-.
    exists s, o, h, l, closes, ts, pts.
    split; [done|]. split.
    { destruct s as [| |str|]; try done. simpl in Hs.
      apply negb_false_iff, String.eqb_eq in Hs. by subst. }
    split; [done|]. split; [done|]. split; [done|].
    assert (length out = length ts) as Hlo by by rewrite Hp.
    split; [|done]. intros ->. destruct ts; [done|]. done.
  - intros s o h l closes ts Hst Hb Hbad.
    unfold HistoryProviders.fetch_daily_finnhub.
    assert (check_status (fh_status r) = Ok ()) as ->.
    { unfold check_status. destruct (400 <=? fh_status r)%Z eqn:E; [|done]. lia. }
    rewrite bind_Ok_l, Hb.
    destruct (not_ok s) eqn:Hs; [done|].
    destruct Hbad as [Hbad|[->|[->|Hbad]]].
    + destruct s as [| |str|]; try done. simpl in Hs.
      apply negb_false_iff, String.eqb_eq in Hs. by subst.
    + done.
    + by destruct closes.
    + apply Nat.eqb_neq in Hbad. rewrite Hbad.
      by destruct closes, ts.
Qed.

(** The candles the loop over the timestamps builds. *)
Lemma candles_Ok (opens highs lows closes ts : list pyval) (out : list item) :
  OhlcProviders.candles opens highs lows closes ts = Ok out →
  length out ≤ length ts ∧ Sorted str_le out ∧
  Forall (λ r, ∃ d qo qh ql qc,
            r = candle_item (Candle d (Fin qo) (Fin qh) (Fin ql) (Fin qc)) ∧
            (ql <= qo <= qh)%Q ∧ (ql <= qc <= qh)%Q) out.
Proof.
  unfold OhlcProviders.candles. intros Hc.
  apply bind_Ok in Hc as (cs & Hcs & Hsort).
  apply mapM_result_Forall2 in Hcs.
  assert (Forall (λ r, ∃ d qo qh ql qc,
            r = candle_item (Candle d (Fin qo) (Fin qh) (Fin ql) (Fin qc)) ∧
            (ql <= qo <= qh)%Q ∧ (ql <= qc <= qh)%Q)
            (candle_item <$> omap id cs)) as Hwf.
  { apply Forall_forall. intros r Hr.
    apply list_elem_of_fmap in Hr as (k & -> & Hk).
    apply list_elem_of_omap in Hk as (ok & Hok & Hid). simpl in Hid. subst ok.
    apply list_elem_of_lookup in Hok as [i Hi].
    destruct (Forall2_lookup_r _ _ _ _ _ Hcs Hi) as ([j t] & _ & Hb).
    apply bind_Ok in Hb as (d & _ & Hb). apply Ok_inj in Hb.
    apply build_candle_Some in Hb
      as (d' & qo & qh & ql & qc & _ & _ & -> & Ho & Hcl & _).
    by exists d', qo, qh, ql, qc. }
  assert (Forall str_dated (candle_item <$> omap id cs)) as Hd.
  { eapply Forall_impl; [exact Hwf|].
    intros r (d & qo & qh & ql & qc & -> & _). by exists d. }
  destruct (sort_by_date_str_le _ Hd) as (out' & Hout' & Hp & Hsorted).
  rewrite Hsort in Hout'. injection Hout' as <-.
  split; [|split; [done|by rewrite Hp]].
  rewrite Hp, length_fmap.
  etrans; [apply length_omap_le|].
  apply Forall2_length in Hcs. rewrite <- Hcs. by rewrite length_imap.
Qed.

(** X22: the candles of the OHLC Finnhub and Yahoo adapters are
    normalized and sorted. Whatever the arrays hold, a series Finnhub's
    adapter returns and the series made of a Yahoo chart result are in
    ascending order of date and only hold candles with a string date, four
    finite numbers, low <= open <= high and low <= close <= high; the
    Yahoo series has at most one candle per timestamp. *)
Theorem ohlc_candles_well_formed (r : finnhub_response)
  (opens highs lows closes ts : list pyval) :
  let well_formed (out : list item) :=
    Sorted str_le out ∧
    Forall (λ r, ∃ d qo qh ql qc,
              r = candle_item (Candle d (Fin qo) (Fin qh) (Fin ql) (Fin qc)) ∧
              (ql <= qo <= qh)%Q ∧ (ql <= qc <= qh)%Q) out in
  (∀ out, OhlcProviders.fetch_daily_finnhub r = Ok out → well_formed out) ∧
  well_formed (OhlcProviders.yahoo_candles opens highs lows closes ts) ∧
  length (OhlcProviders.yahoo_candles opens highs lows closes ts) ≤ length ts.
Proof.
  intros well_formed. split; [|split].
  - intros out. unfold OhlcProviders.fetch_daily_finnhub. intros Hr.
    apply bind_Ok in Hr as (_ & _ & Hr).
    destruct (fh_body r) as [| |s o h l c t]; try done.
    destruct (not_ok s); [done|].
    destruct (is_nil c || is_nil t || negb (length c =? length t)); [done|].
    by apply candles_Ok in Hr as (_ & ? & ?).
  - unfold OhlcProviders.yahoo_candles.
    destruct (OhlcProviders.candles opens highs lows closes ts) as [out|e] eqn:E.
    + by apply candles_Ok in E as (_ & ? & ?).
    + split; constructor.
  - unfold OhlcProviders.yahoo_candles.
    destruct (OhlcProviders.candles opens highs lows closes ts) as [out|e] eqn:E.
    + by apply candles_Ok in E as (? & _).
    + simpl. lia.
Qed.

(** The points of a chart result, before the sort. *)
Lemma yahoo_points_unsorted (ts closes : list pyval) (out : list (option item)) :
  mapM (λ tc,
          match tc.2 with
          | PyNone => Ok None
          | c =>
              d ← to_iso_utc_val tc.1;
              c ← py_float c;
              Ok (Some (History.point d c))
          end) (zip ts closes) = Ok out →
  Forall (λ p, ∃ t c d x,
            (t, c) ∈ zip ts closes ∧ c ≠ PyNone ∧
            to_iso_utc_val t = Ok d ∧ py_float c = Ok x ∧
            p = History.point d x) (omap id out).
Proof.
  intros Hm. apply mapM_result_Forall2 in Hm.
  apply Forall_forall. intros p Hp.
  apply list_elem_of_omap in Hp as (op & Hop & Hid). simpl in Hid. subst op.
  apply list_elem_of_lookup in Hop as [i Hi].
  destruct (Forall2_lookup_r _ _ _ _ _ Hm Hi) as ([t c] & Hz & Hb).
  apply list_elem_of_lookup_2 in Hz. cbn [fst snd] in Hb.
  assert (c ≠ PyNone ∧
          (d ← to_iso_utc_val t; c ← py_float c; Ok (Some (History.point d c)))
            = Ok (Some p)) as [Hc Hb'].
  { destruct c; try done. }
  apply bind_Ok in Hb' as (d & Hd & Hb').
  apply bind_Ok in Hb' as (x & Hx & Hb'). apply Ok_inj in Hb'.
  injection Hb' as <-. by exists t, c, d, x.
Qed.

(** X23: the close-only Yahoo adapter skips the null closes. The series
    made of a chart result is in ascending order of date, each of its
    points is made of a timestamp and the close paired with it, that
    close not being null, and it has at most as many points as there are
    closes. *)
Theorem yahoo_points_non_null (ts closes : list pyval) :
  Sorted str_le (HistoryProviders.yahoo_points ts closes) ∧
  Forall (λ p, ∃ t c d x,
            (t, c) ∈ zip ts closes ∧ c ≠ PyNone ∧
            to_iso_utc_val t = Ok d ∧ py_float c = Ok x ∧
            p = History.point d x)
    (HistoryProviders.yahoo_points ts closes) ∧
  length (HistoryProviders.yahoo_points ts closes) ≤ length closes.
Proof.
  unfold HistoryProviders.yahoo_points.
  destruct (mapM _ (zip ts closes)) as [out|e] eqn:Hm;
    [|split; [constructor|split; [constructor|simpl; lia]]].
  rewrite bind_Ok_l.
  pose proof (yahoo_points_unsorted _ _ _ Hm) as Hall.
  assert (Forall str_dated (omap id out)) as Hd.
  { eapply Forall_impl; [exact Hall|].
    intros p (t & c & d & x & _ & _ & _ & _ & ->). by exists d. }
  destruct (sort_by_date_str_le _ Hd) as (out' & -> & Hp & Hsorted).
  cbn [try_except]. split; [done|]. split; [by rewrite Hp|].
  rewrite Hp. etrans; [apply length_omap_le|].
  apply mapM_result_Forall2, Forall2_length in Hm.
  rewrite <- Hm, length_zip_with. lia.
Qed.

Lemma is_PyNone (c : pyval) : c = PyNone ∨ c ≠ PyNone.
Proof. destruct c; [by left|by right..]. Qed.

(** The search of [yahoo_last] for the last close that is not null. *)
Lemma last_close_spec (ts : list pyval) (rclosed : list (nat * pyval))
  (q : Quotes.quote) :
  QuotesProviders.last_close ts rclosed = Ok (Some q) →
  ∃ before i c rest t,
    rclosed = before ++ (i, c) :: rest ∧ Forall (λ ic, ic.2 = PyNone) before ∧
    c ≠ PyNone ∧ ts !! i = Some t ∧
    to_iso_seconds_val t = Ok (Quotes.ts q) ∧ py_float c = Ok (Quotes.px q) ∧
    Quotes.src q = "yahoo_1d".
Proof.
  induction rclosed as [|[i c] rest IH]; [done|].
  cbn [QuotesProviders.last_close].
  destruct (is_PyNone c) as [->|Hc].
  - intros (before & i' & c' & rest' & t & -> & Hall & Hrest)%IH.
    exists ((i, PyNone) :: before), i', c', rest', t.
    split; [done|]. split; [by constructor|done].
  - intros Hq.
    assert ((t ← match ts !! i with Some t => Ok t | None => Raise IndexError end;
             iso ← to_iso_seconds_val t;
             px ← py_float c;
             Ok (Some {| Quotes.px := px; Quotes.ts := iso;
                         Quotes.src := "yahoo_1d" |})) = Ok (Some q)) as Hq'.
    { by destruct c. }
    clear Hq. apply bind_Ok in Hq' as (t & Ht & Hq).
    apply bind_Ok in Hq as (iso & Hiso & Hq).
    apply bind_Ok in Hq as (px & Hpx & Hq). apply Ok_inj in Hq.
    injection Hq as <-.
    exists [], i, c, rest, t. split; [done|]. split; [constructor|].
    split; [done|]. split; [by destruct (ts !! i); simplify_eq|done].
Qed.

Lemma last_close_None (ts : list pyval) (rclosed : list (nat * pyval)) :
  QuotesProviders.last_close ts rclosed = Ok None ↔
    Forall (λ ic, ic.2 = PyNone) rclosed.
Proof.
  induction rclosed as [|[i c] rest IH]; [by split; [constructor|]|].
  cbn [QuotesProviders.last_close]. split.
  - intros Hq. destruct (is_PyNone c) as [->|Hc].
    + constructor; [done|]. by apply IH.
    + exfalso.
      assert ((t ← match ts !! i with Some t => Ok t | None => Raise IndexError end;
               iso ← to_iso_seconds_val t;
               px ← py_float c;
               Ok (Some {| Quotes.px := px; Quotes.ts := iso;
                           Quotes.src := "yahoo_1d" |})) = Ok None) as Hq'.
      { by destruct c. }
      apply bind_Ok in Hq' as (t & Ht & Hq').
      apply bind_Ok in Hq' as (iso & Hiso & Hq').
      by apply bind_Ok in Hq' as (px & Hpx & Hq').
  - intros [Hc Hall]%Forall_cons. simpl in Hc. subst c. by apply IH.
Qed.

(** X24: [yahoo_last] reads the last close that is not null. When a
    quote is made of a chart result, its price is the close at some index
    after which every close is null, its time is the converted timestamp
    at the same index, and its source is "yahoo_1d"; and no quote is made,
    without an error, exactly when every close is null. *)
Theorem yahoo_last_is_last_close (ts closes : list pyval) :
  (∀ q, QuotesProviders.yahoo_last_quote ts closes = Ok (Some q) →
     ∃ i c t,
       closes !! i = Some c ∧ c ≠ PyNone ∧
       (∀ j c', i < j → closes !! j = Some c' → c' = PyNone) ∧
       ts !! i = Some t ∧ to_iso_seconds_val t = Ok (Quotes.ts q) ∧
       py_float c = Ok (Quotes.px q) ∧ Quotes.src q = "yahoo_1d") ∧
  (QuotesProviders.yahoo_last_quote ts closes = Ok None ↔
     Forall (λ c, c = PyNone) closes).
Proof.
  unfold QuotesProviders.yahoo_last_quote. split.
  - intros q (before & i & c & rest & t & Hrev & Hall & Hc & Ht & Hiso & Hpx & Hsrc)
      %last_close_spec.
    exists i, c, t.
    assert (∀ j c', (j, c') ∈ reverse (imap pair closes) ↔ closes !! j = Some c')
      as Hin.
    { intros j c'. rewrite elem_of_reverse, list_elem_of_lookup. split.
      - intros [k Hk]. rewrite list_lookup_imap in Hk.
        destruct (closes !! k) as [x|] eqn:E; simpl in Hk; [|done].
        by injection Hk as <- <-.
      - intros Hj. exists j. by rewrite list_lookup_imap, Hj. }
    assert (closes !! i = Some c) as Hi.
    { apply Hin. rewrite Hrev. apply elem_of_app. right.
      apply list_elem_of_here. }
    split; [done|]. split; [done|]. split; [|done].
    intros j c' Hij Hj.
    apply Hin in Hj. rewrite Hrev in Hj.
    apply elem_of_app in Hj as [Hj|Hj].
    { eapply Forall_forall in Hall; [|exact Hj]. done. }
    exfalso.
    apply elem_of_cons in Hj as [[= -> _]|Hj]; [lia|].
    assert (imap pair closes = reverse rest ++ (i, c) :: reverse before) as Himap.
    { rewrite <- (reverse_involutive (imap pair closes)), Hrev.
      rewrite reverse_app, reverse_cons, <- app_assoc. done. }
    apply elem_of_reverse, list_elem_of_lookup in Hj as [k Hk].
    assert (imap pair closes !! k = Some (j, c')) as Hk'.
    { rewrite Himap. by apply lookup_app_l_Some. }
    rewrite list_lookup_imap in Hk'.
    destruct (closes !! k) as [x|] eqn:E; simpl in Hk'; [|done].
    injection Hk' as -> ->.
    assert (imap pair closes !! length (reverse rest) = Some (i, c)) as Hi'.
    { rewrite Himap. by rewrite list_lookup_middle. }
    rewrite list_lookup_imap in Hi'.
    destruct (closes !! length (reverse rest)) as [y|]; simpl in Hi'; [|done].
    injection Hi' as Hlen _.
    apply lookup_lt_Some in Hk. lia.
  - rewrite last_close_None. rewrite Forall_reverse.
    split; intros Hall; apply Forall_forall.
    + intros c Hc. apply list_elem_of_lookup in Hc as [i Hi].
      eapply Forall_forall in Hall.
      2:{ apply list_elem_of_lookup. exists i.
          rewrite list_lookup_imap, Hi. done. }
      done.
    + intros [i c] Hic. apply list_elem_of_lookup in Hic as [k Hk].
      rewrite list_lookup_imap in Hk.
      destruct (closes !! k) as [x|] eqn:E; simpl in Hk; [|done].
      injection Hk as <- <-. simpl.
      eapply Forall_forall in Hall; [done|]. by eapply list_elem_of_lookup_2.
Qed.

End chart_facts.

Lemma finnhub_all_or_nothing_witness :
  let r := {| fh_status := 200;
              fh_body := FinnhubDict (PyStr "ok") [] [] []
                           [PyNum (Fin 1); PyNum (Fin 2)]
                           [PyNum (Fin 86400); PyNum (Fin 0)] |} in
  let out := [History.point "1970-01-01" (Fin 2);
              History.point "1970-01-02" (Fin 1)] in
  @HistoryProviders.fetch_daily_finnhub epoch_runtime sample_text r = Ok out ∧
  Sorted str_le out ∧ length out = 2.
Proof.
  intros r out.
  assert (@HistoryProviders.fetch_daily_finnhub epoch_runtime sample_text r
            = Ok out) as Hrun by reflexivity.
  split; [exact Hrun|].
  destruct (proj1 (@finnhub_all_or_nothing epoch_runtime sample_text r) out Hrun)
    as (s & o & h & l & closes & ts & pts & Hb & _ & _ & _ & Hs & _ & Hlen & _).
  split; [exact Hs|]. rewrite Hlen. by injection Hb as _ _ _ _ _ <-.
Defined.

Lemma ohlc_candles_well_formed_witness :
  let r := {| fh_status := 200;
              fh_body := FinnhubDict (PyStr "ok") [] [PyNum (Fin 1)] []
                           [PyNum (Fin 3); PyNone]
                           [PyNum (Fin 86400); PyNum (Fin 0)] |} in
  let out := [candle_item (Candle "1970-01-02" (Fin 3) (Fin 3) (Fin 3) (Fin 3))] in
  @OhlcProviders.fetch_daily_finnhub epoch_runtime sample_text r = Ok out ∧
  Sorted str_le out.
Proof.
  intros r out.
  assert (@OhlcProviders.fetch_daily_finnhub epoch_runtime sample_text r
            = Ok out) as Hrun by reflexivity.
  split; [exact Hrun|].
  destruct (@ohlc_candles_well_formed epoch_runtime sample_text r [] [] [] [] [])
    as [Hfinnhub _].
  by destruct (Hfinnhub out Hrun).
Defined.

Lemma yahoo_last_is_last_close_witness :
  let ts := [PyNum (Fin 0); PyStr "86400"; PyNum (Fin 172800)] in
  let closes := [PyNum (Fin 1); PyNum (Fin 2); PyNone] in
  let q := {| Quotes.px := Fin 2; Quotes.ts := "1970-01-02T00:00:00Z";
              Quotes.src := "yahoo_1d" |} in
  @QuotesProviders.yahoo_last_quote sample_runtime sample_text ts closes
    = Ok (Some q) ∧
  ∃ i c t,
    closes !! i = Some c ∧ c ≠ PyNone ∧
    (∀ j c', i < j → closes !! j = Some c' → c' = PyNone) ∧
    ts !! i = Some t ∧
    @to_iso_seconds_val sample_text t = Ok (Quotes.ts q) ∧
    py_float (H := sample_runtime) c = Ok (Quotes.px q) ∧
    Quotes.src q = "yahoo_1d".
Proof.
  intros ts closes q.
  assert (@QuotesProviders.yahoo_last_quote sample_runtime sample_text ts closes
            = Ok (Some q)) as Hrun by reflexivity.
  split; [exact Hrun|].
  exact (proj1 (@yahoo_last_is_last_close sample_runtime sample_text ts closes)
           q Hrun).
Defined.

Section quotes_more.
Context `{Builtins}.
Import Quotes.

Lemma open_symbols_main api_key had_prev public_exists prev t c f :
  main api_key had_prev public_exists prev t c f =
    if is_nil (open_symbols t c) then
      if had_prev || public_exists then Ok Preserved else Raise SystemExit
    else
      st ← for_each (step api_key t f prev) (open_symbols t c) (∅, false);
      let '(out, changed) := st in
      if negb changed then
        if had_prev then Ok Preserved else Raise SystemExit
      else Ok (Wrote (<["meta" := meta]> out)).
Proof.
  unfold main, open_symbols. cbv zeta.
  assert (∀ l : list string, (if negb (is_nil l) && true then l else []) = l)
    as Hl by by intros [].
  assert (∀ (l : list string) (b : bool),
            (if negb (is_nil l) && b then l else []) = if b then l else [])
    as Hl' by by intros [] [].
  by rewrite !Hl, !Hl'.
Qed.

Lemma step_fetched api_key t f prev s st :
  step api_key t f prev s st =
    match fetched_quote api_key t f s with
    | None => Ok st
    | Some q => settle prev s q st
    end.
Proof.
  unfold step, fetched_quote.
  repeat (case_bool_decide; cbn [negb andb orb]; try done).
  all: by destruct api_key.
Qed.


Lemma settle_lookup prev s q out changed out' changed' s' :
  settle prev s q (out, changed) = Ok (out', changed') →
  s' ≠ s → out' !! s' = out !! s'.
Proof.
  unfold settle. destruct q as [q|].
  - intros [= <- _] Hne. by rewrite lookup_insert_ne.
  - destruct (get _ "last") as [|x|str|] eqn:El; simpl.
    + by intros [= <- _].
    + intros [= <- _] Hne. by rewrite lookup_insert_ne.
    + destruct (float_of_str str); [|done]. simpl.
      intros [= <- _] Hne. by rewrite lookup_insert_ne.
    + done.
Qed.

(** What the loop body leaves under the symbol it handles. *)
Lemma step_entry api_key t f prev s out changed out' changed' :
  step api_key t f prev s (out, changed) = Ok (out', changed') →
  (∀ q, fetched_quote api_key t f s = Some (Some q) →
     out' !! s = Some (fresh_entry q)) ∧
  (∀ x, fetched_quote api_key t f s = Some None →
     get (default ∅ (prev !! s)) "last" = PyNum x →
     out' !! s = Some (entry x (get (default ∅ (prev !! s)) "as_of")
                         (get (default ∅ (prev !! s)) "interval"))) ∧
  changed' = changed || quote_changed api_key t f prev s ∧
  (∀ s', s' ≠ s → out' !! s' = out !! s') ∧
  (∀ e, out' !! s = Some e →
     out !! s = Some e ∨ ∃ x as_of interval, e = entry x as_of interval).
Proof.
  rewrite step_fetched. unfold quote_changed.
  destruct (fetched_quote api_key t f s) as [[q|]|] eqn:Ef.
  - cbn [settle]. intros [= <- <-].
    split; [intros q' [= <-]; by rewrite lookup_insert_eq|].
    split; [done|]. split.
    { unfold fresh_entry. destruct changed, (differs _ _); done. }
    split; [intros s' Hne; by rewrite lookup_insert_ne|].
    intros e. rewrite lookup_insert_eq. intros [= <-]. right. by eexists _, _, _.
  - intros Hs. split; [done|].
    assert (changed' = changed) as ->.
    { revert Hs. unfold settle.
      destruct (get _ "last") as [|x|str|]; simpl; try by intros [= _ <-].
      destruct (float_of_str str); [|done]. simpl. by intros [= _ <-]. }
    split; [|split; [by rewrite orb_false_r|split]].
    + intros x _ Hx. revert Hs. unfold settle. rewrite Hx. simpl.
      intros [= <-]. by rewrite lookup_insert_eq.
    + intros s' Hne. by eapply settle_lookup.
    + intros e. revert Hs. unfold settle.
      destruct (get _ "last") as [|x|str|]; simpl.
      * intros [= <-]. by left.
      * intros [= <-]. rewrite lookup_insert_eq. intros [= <-].
        right. by eexists _, _, _.
      * destruct (float_of_str str); [|done]. simpl.
        intros [= <-]. rewrite lookup_insert_eq. intros [= <-].
        right. by eexists _, _, _.
      * done.
  - intros [= <- <-]. split; [done|]. split; [done|].
    split; [by rewrite orb_false_r|]. split; [done|]. intros e. by left.
Qed.

(** The state of the loop once a list of symbols has been gone through. *)
Lemma for_each_step api_key t f prev l out changed out' changed' :
  for_each (step api_key t f prev) l (out, changed) = Ok (out', changed') →
  (∀ s q, s ∈ l → fetched_quote api_key t f s = Some (Some q) →
     out' !! s = Some (fresh_entry q)) ∧
  (∀ s x, s ∈ l → fetched_quote api_key t f s = Some None →
     get (default ∅ (prev !! s)) "last" = PyNum x →
     out' !! s = Some (entry x (get (default ∅ (prev !! s)) "as_of")
                         (get (default ∅ (prev !! s)) "interval"))) ∧
  changed' = changed || existsb (quote_changed api_key t f prev) l ∧
  (∀ s, s ∉ l → out' !! s = out !! s) ∧
  (∀ s e, out' !! s = Some e →
     out !! s = Some e ∨
     (s ∈ l ∧ ∃ x as_of interval, e = entry x as_of interval)).
Proof.
  revert out changed. induction l as [|s0 l IH]; intros out changed.
  - simpl. intros [= <- <-].
    split; [by intros s q Hs%elem_of_nil|].
    split; [by intros s x Hs%elem_of_nil|].
    split; [by rewrite orb_false_r|]. split; [done|]. intros s e. by left.
  - cbn [for_each]. intros Hl.
    apply bind_Ok in Hl as ([out1 ch1] & H1 & Hl).
    apply step_entry in H1 as (Hq1 & Hn1 & -> & Hfr1 & Hin1).
    apply IH in Hl as (Hq & Hn & -> & Hfr & Hin).
    split; [|split; [|split; [|split]]].
    + intros s q Hs Hf. destruct (decide (s ∈ l)) as [Hsl|Hsl]; [by apply Hq|].
      apply elem_of_cons in Hs as [->|Hs]; [|done].
      rewrite (Hfr _ Hsl). by apply Hq1.
    + intros s x Hs Hf Hx. destruct (decide (s ∈ l)) as [Hsl|Hsl]; [by apply Hn|].
      apply elem_of_cons in Hs as [->|Hs]; [|done].
      rewrite (Hfr _ Hsl). by apply Hn1.
    + cbn [existsb]. by rewrite orb_assoc.
    + intros s [Hne Hs]%not_elem_of_cons. rewrite (Hfr _ Hs). by apply Hfr1.
    + intros s e He. apply Hin in He as [He|[Hs Hent]].
      * destruct (decide (s = s0)) as [->|Hne].
        -- apply Hin1 in He as [He|Hent]; [by left|].
           right. split; [apply list_elem_of_here|done].
        -- left. by rewrite <- (Hfr1 _ Hne).
      * right. split; [by apply list_elem_of_further|done].
Qed.

Lemma main_wrote api_key had_prev public_exists prev t c f out :
  main api_key had_prev public_exists prev t c f = Ok (Wrote out) →
  ∃ out0,
    out = <["meta" := meta]> out0 ∧
    for_each (step api_key t f prev) (open_symbols t c) (∅, false)
      = Ok (out0, true).
Proof.
  rewrite open_symbols_main.
  destruct (is_nil (open_symbols t c)).
  { by destruct (had_prev || public_exists). }
  intros Hm. apply bind_Ok in Hm as ([out0 changed] & Hl & Hm).
  destruct changed; simpl in Hm.
  - injection Hm as <-. by exists out0.
  - by destruct had_prev.
Qed.

End quotes_more.

(** X25: the snapshot never holds a null price. In the mapping a run
    writes, every key other than ["meta"] is a symbol of a market that is
    open, and its entry has a number under ["last"]. *)
Theorem quotes_last_never_null `{Builtins} api_key had_prev public_exists prev t c f
  out s e :
  Quotes.main api_key had_prev public_exists prev t c f = Ok (Quotes.Wrote out) →
  out !! s = Some e → s ≠ "meta" →
  s ∈ open_symbols t c ∧ ∃ x as_of interval, e = Quotes.entry x as_of interval.
Proof.
  intros (out0 & -> & Hl)%main_wrote He Hs.
  rewrite lookup_insert_ne in He by done.
  apply for_each_step in Hl as (_ & _ & _ & _ & Hin).
  apply Hin in He as [He|?]; [|done]. by rewrite lookup_empty in He.
Qed.

Lemma quotes_last_never_null_witness :
  Quotes.main (H := sample_runtime) false true true crypto_prev crypto_tickers
    all_closed crypto_feeds = Ok (Quotes.Wrote crypto_snapshot) ∧
  "ETH-USD" ∈ open_symbols crypto_tickers all_closed ∧
  ∃ x as_of interval, eth_entry = Quotes.entry x as_of interval.
Proof.
  assert (Quotes.main (H := sample_runtime) false true true crypto_prev
            crypto_tickers all_closed crypto_feeds
          = Ok (Quotes.Wrote crypto_snapshot)) as Hrun
    by (vm_compute; reflexivity).
  split; [exact Hrun|].
  apply (quotes_last_never_null (H := sample_runtime) false true true
           crypto_prev crypto_tickers all_closed crypto_feeds crypto_snapshot
           "ETH-USD" eth_entry Hrun); [reflexivity|done].
Defined.

(** X26: what the snapshot holds for a symbol of an open market. When a
    run writes, a symbol for which a quote was fetched has the entry made
    of that quote; a symbol for which the provider had no quote and whose
    previous entry has a number under ["last"] has its previous price,
    time and interval carried over. *)
Theorem quotes_entries `{Builtins} api_key had_prev public_exists prev t c f
  out s :
  Quotes.main api_key had_prev public_exists prev t c f = Ok (Quotes.Wrote out) →
  s ∈ open_symbols t c → s ≠ "meta" →
  (∀ q, fetched_quote api_key t f s = Some (Some q) →
     out !! s = Some (fresh_entry q)) ∧
  (∀ x, fetched_quote api_key t f s = Some None →
     get (default ∅ (prev !! s)) "last" = PyNum x →
     out !! s = Some (Quotes.entry x (get (default ∅ (prev !! s)) "as_of")
                        (get (default ∅ (prev !! s)) "interval"))).
Proof.
  intros (out0 & -> & Hl)%main_wrote Hs Hne.
  apply for_each_step in Hl as (Hq & Hn & _).
  split.
  - intros q Hf. rewrite lookup_insert_ne by done. by apply Hq.
  - intros x Hf Hx. rewrite lookup_insert_ne by done. by apply Hn.
Qed.

Lemma quotes_entries_witness :
  crypto_snapshot !! "BTC-USD" = Some (fresh_entry btc_quote) ∧
  crypto_snapshot !! "ETH-USD" = Some eth_entry.
Proof.
  assert (Quotes.main (H := sample_runtime) false true true crypto_prev
            crypto_tickers all_closed crypto_feeds
          = Ok (Quotes.Wrote crypto_snapshot)) as Hrun
    by (vm_compute; reflexivity).
  split.
  - apply (quotes_entries (H := sample_runtime) false true true crypto_prev
             crypto_tickers all_closed crypto_feeds crypto_snapshot "BTC-USD"
             Hrun); [apply list_elem_of_here|done|reflexivity].
  - apply (proj2 (quotes_entries (H := sample_runtime) false true true
                    crypto_prev crypto_tickers all_closed crypto_feeds
                    crypto_snapshot "ETH-USD" Hrun
                    ltac:(apply list_elem_of_further, list_elem_of_here)
                    ltac:(done)) (Fin 7)); reflexivity.
Defined.

(** X27: the snapshot is written exactly when something changed. A run
    writes the mapping if and only if it ends without an error and, for
    some symbol of an open market, a quote was fetched that differs from
    the previous entry; quotes carried over never cause a write. *)
Theorem quotes_written_iff_changed `{Builtins} api_key had_prev public_exists
  prev t c f :
  (∃ out, Quotes.main api_key had_prev public_exists prev t c f
          = Ok (Quotes.Wrote out)) ↔
  (∃ r, Quotes.main api_key had_prev public_exists prev t c f = Ok r) ∧
  ∃ s, s ∈ open_symbols t c ∧ quote_changed api_key t f prev s = true.
Proof.
  split.
  - intros [out Hm]. split; [by eexists|].
    apply main_wrote in Hm as (out0 & _ & Hl).
    apply for_each_step in Hl as (_ & _ & Hch & _).
    symmetry in Hch. simpl in Hch. apply existsb_exists in Hch as (s & Hs & Hq).
    exists s. split; [by apply list_elem_of_In|done].
  - intros [[r Hr] (s & Hs & Hq)]. revert Hr. rewrite open_symbols_main.
    destruct (is_nil (open_symbols t c)) eqn:Hnil.
    { apply is_nil_true in Hnil. rewrite Hnil in Hs. by apply elem_of_nil in Hs. }
    intros Hr. apply bind_Ok in Hr as ([out0 changed] & Hl & Hr).
    rewrite Hl, bind_Ok_l.
    apply for_each_step in Hl as (_ & _ & -> & _).
    assert (existsb (quote_changed api_key t f prev) (open_symbols t c) = true)
      as ->.
    { apply existsb_exists. exists s. split; [by apply list_elem_of_In|done]. }
    by eexists.
Qed.

Lemma quotes_written_iff_changed_witness :
  ∃ out, Quotes.main (H := sample_runtime) false true true crypto_prev
           crypto_tickers all_closed crypto_feeds = Ok (Quotes.Wrote out).
Proof.
  apply (proj2 (quotes_written_iff_changed (H := sample_runtime) false true
                  true crypto_prev crypto_tickers all_closed crypto_feeds)).
  split.
  - exists (Quotes.Wrote crypto_snapshot). vm_compute. reflexivity.
  - exists "BTC-USD". split; [apply list_elem_of_here|reflexivity].
Defined.

(** X28: the two worker adapters treat a point without a date
    differently. On a point with no ["date"] and a finite close, the OHLC
    adapter keeps a candle whose date is the text of [None], whereas the
    close-only adapter drops the point. *)
Theorem ohlc_worker_undated_point `{Builtins} (p : item) (q : Q) :
  get p "date" = PyNone → py_float (Ohlc.get_or p "close" "c") = Ok (Fin q) →
  (∃ k, Ohlc.worker_point (JDict p) = Some (candle_item k) ∧
        c_date k = py_str PyNone ∧ c_close k = Fin q) ∧
  History.worker_point (JDict p) = None.
Proof.
  intros Hd Hc. split.
  - cbn [Ohlc.worker_point]. rewrite Hd. cbn [Ohlc.str_of].
    assert (Ohlc.safe_float (Ohlc.get_or p "close" "c") = Some (Fin q)) as Hs.
    { apply safe_float_Some. eauto. }
    destruct (build_candle_forced (py_str PyNone) (Ohlc.get_or p "open" "o")
                (Ohlc.get_or p "high" "h") (Ohlc.get_or p "low" "l")
                (Ohlc.get_or p "close" "c") _ Hs) as (o & h & l & _ & _ & ->).
    by eexists.
  - cbn [History.worker_point]. by rewrite Hd.
Qed.

Lemma ohlc_worker_undated_point_witness :
  let p : item := {[ "close" := PyNum (Fin 3) ]} in
  ∃ k, Ohlc.worker_point (H := sample_runtime) (JDict p) = Some (candle_item k) ∧
       c_date k = "None" ∧ c_close k = Fin 3.
Proof.
  intros p.
  apply (ohlc_worker_undated_point (H := sample_runtime) p 3); reflexivity.
Defined.
